(** * Annotated graph and agent function (Ann_Graph_Handler.py)

    A shallow embedding of the annotated-graph program: the Python objects
    become records kept in a store, the mutation of [attr] becomes explicit
    state passing, and Python exceptions become an error outcome.  The
    theorems at the end settle what the evaluation engine does. *)

From Stdlib Require Import ZArith Ascii String List Bool Lia.
From Stdlib Require Floats.PrimFloat Floats.SpecFloat Floats.FloatOps.
From stdpp Require Import base option list gmap strings.

Local Open Scope string_scope.
Local Open Scope Z_scope.

(** ** The part of Python the program relies on *)

Module Py.

(** The built-in exceptions the program can raise. *)
Inductive exn := ValueError | KeyError | IndexError | TypeError.

(** A call either returns a value or raises. *)
Inductive outcome (A : Type) :=
| Ok (a : A)
| Raise (e : exn).
Arguments Ok {A} a.
Arguments Raise {A} e.

Definition obind {A B} (m : outcome A) (k : A → outcome B) : outcome B :=
  match m with
  | Ok a => k a
  | Raise e => Raise e
  end.

(** [str.isspace] on one character; characters are code points below 256. *)
Definition isspace (c : ascii) : bool :=
  let n := nat_of_ascii c in
  ((9 <=? n) && (n <=? 13) || (28 <=? n) && (n <=? 32)
   || (n =? 133) || (n =? 160))%nat.

(** [s.split()]: the maximal runs of characters that are not whitespace. *)
Fixpoint split_go (cur : list ascii) (s : list ascii) : list string :=
  match s with
  | [] => match cur with
          | [] => []
          | _ => [string_of_list_ascii (rev cur)]
          end
  | c :: s' =>
      if isspace c then
        match cur with
        | [] => split_go [] s'
        | _ => string_of_list_ascii (rev cur) :: split_go [] s'
        end
      else split_go (c :: cur) s'
  end.

Definition split (s : string) : list string :=
  split_go [] (list_ascii_of_string s).

Fixpoint lstrip (s : list ascii) : list ascii :=
  match s with
  | c :: s' => if isspace c then lstrip s' else s
  | [] => []
  end.

(** [s.strip()]. *)
Definition strip (s : string) : string :=
  string_of_list_ascii
    (rev (lstrip (rev (lstrip (list_ascii_of_string s))))).

Definition digit (c : ascii) : option Z :=
  let n := Z.of_nat (nat_of_ascii c) in
  if (48 <=? n) && (n <=? 57) then Some (n - 48) else None.

(** Decimal digits, where single underscores may separate digits. *)
Fixpoint digits_go (acc : Z) (after_digit : bool) (s : list ascii)
  : option Z :=
  match s with
  | [] => if after_digit then Some acc else None
  | c :: s' =>
      match digit c with
      | Some d => digits_go (10 * acc + d) true s'
      | None =>
          if Ascii.eqb c "_"%char && after_digit
          then digits_go acc false s'
          else None
      end
  end.

(** The whitespace that [int] and [float] skip around a number: of the
    characters below 256, those of [str.isspace] but for the separators
    U+001C to U+001F, which these two do not skip. *)
Definition isspace_number (c : ascii) : bool :=
  let n := nat_of_ascii c in
  ((9 <=? n) && (n <=? 13) || (n =? 32) || (n =? 133) || (n =? 160))%nat.

Fixpoint lstrip_number (s : list ascii) : list ascii :=
  match s with
  | c :: s' => if isspace_number c then lstrip_number s' else s
  | [] => []
  end.

Definition strip_number (s : string) : list ascii :=
  rev (lstrip_number (rev (lstrip_number (list_ascii_of_string s)))).

(** The default of [sys.int_max_str_digits]: [int] raises [ValueError] on
    a text with more digits than this. *)
Definition int_max_str_digits : Z := 4300.

Fixpoint digit_count (s : list ascii) : Z :=
  match s with
  | [] => 0
  | c :: s' =>
      match digit c with
      | Some _ => 1 + digit_count s'
      | None => digit_count s'
      end
  end.

(** [int(s)] on a string, base ten; [None] stands for [ValueError]. *)
Definition int_of_string (s : string) : option Z :=
  let cs := strip_number s in
  if digit_count cs <=? int_max_str_digits then
    match cs with
    | "-"%char :: ds => Z.opp <$> digits_go 0 false ds
    | "+"%char :: ds => digits_go 0 false ds
    | ds => digits_go 0 false ds
    end
  else None.

(** [l[j]] on a list: a negative index counts from the end. *)
Definition getitem {A} (l : list A) (j : Z) : outcome A :=
  let n := Z.of_nat (length l) in
  let k := if j <? 0 then j + n else j in
  if (0 <=? k) && (k <? n) then
    match l !! Z.to_nat k with
    | Some a => Ok a
    | None => Raise IndexError
    end
  else Raise IndexError.

End Py.
Import Py.

(** The built-in [float] type: the constructor from a string (where [None]
    stands for [ValueError]), multiplication, the comparison [<] and the
    literal [1.0]. *)
Class PyFloat (float : Type) := {
  float_of_string : string → option float;
  fmul : float → float → float;
  flt : float → float → bool;
  fone : float;
}.

(** [min(xs)]: the first least element; raises on an empty sequence. *)
Definition py_min {float : Type} `{!PyFloat float} (xs : list float) : outcome float :=
  match xs with
  | [] => Raise ValueError
  | x :: xs' => Ok (fold_left (λ best y, if flt y best then y else best) xs' x)
  end.

(** ** Data model *)

Section Model.
Context {float : Type} `{!PyFloat float}.

(** A [Vertex] object.  The edges in [in_edges] and [out_edges] are
    references to [Edge] objects: positions in the graph's [edges]. *)
Record Vertex := mkVertex {
  v_id : Z;
  v_attr : option float;
  v_rule : option string;
  in_edges : list nat;
  out_edges : list nat;
}.

Record Edge := mkEdge {
  e_id : Z;
  source : Z;
  target : Z;
  e_attr : option float;
  e_rule : option string;
}.

(** The graph is also the store of its objects: a vertex or an edge is
    referred to by its position in [vertices] or [edges], and [vertex_map]
    maps a vertex id to the reference of the vertex. *)
Record AnnotatedGraph := mkGraph {
  vertices : list Vertex;
  edges : list Edge;
  vertex_map : gmap Z nat;
}.

Definition Vertex_init (id : Z) : Vertex :=
  {| v_id := id; v_attr := None; v_rule := None;
     in_edges := []; out_edges := [] |}.

Definition Edge_init (id src tgt : Z) : Edge :=
  {| e_id := id; source := src; target := tgt;
     e_attr := None; e_rule := None |}.

Definition AnnotatedGraph_init : AnnotatedGraph :=
  {| vertices := []; edges := []; vertex_map := ∅ |}.

Definition add_in_edge (r : nat) (v : Vertex) : Vertex :=
  {| v_id := v_id v; v_attr := v_attr v; v_rule := v_rule v;
     in_edges := in_edges v ++ [r]; out_edges := out_edges v |}.

Definition add_out_edge (r : nat) (v : Vertex) : Vertex :=
  {| v_id := v_id v; v_attr := v_attr v; v_rule := v_rule v;
     in_edges := in_edges v; out_edges := out_edges v ++ [r] |}.

Definition with_vertices (vs : list Vertex) (g : AnnotatedGraph)
  : AnnotatedGraph :=
  {| vertices := vs; edges := edges g; vertex_map := vertex_map g |}.

Definition with_edges (es : list Edge) (g : AnnotatedGraph)
  : AnnotatedGraph :=
  {| vertices := vertices g; edges := es; vertex_map := vertex_map g |}.

Definition add_vertex (v : Vertex) (g : AnnotatedGraph) : AnnotatedGraph :=
  {| vertices := vertices g ++ [v];
     edges := edges g;
     vertex_map := <[v_id v := length (vertices g)]> (vertex_map g) |}.

(** The new edge is appended, then wired to the endpoints that are keys of
    [vertex_map]; an endpoint that is not a key is skipped. *)
Definition add_edge (e : Edge) (g : AnnotatedGraph) : AnnotatedGraph :=
  let r := length (edges g) in
  let g1 := with_edges (edges g ++ [e]) g in
  let g2 := match vertex_map g1 !! source e with
            | Some p => with_vertices (alter (add_out_edge r) p (vertices g1)) g1
            | None => g1
            end in
  match vertex_map g2 !! target e with
  | Some p => with_vertices (alter (add_in_edge r) p (vertices g2)) g2
  | None => g2
  end.

(** [vertex_map[id]]: the reference of the vertex, or [KeyError]. *)
Definition get_vertex (id : Z) (g : AnnotatedGraph) : outcome nat :=
  match vertex_map g !! id with
  | Some p => Ok p
  | None => Raise KeyError
  end.

(** Field reads through a reference.  A reference outside the store does not
    arise from [add_vertex] and [add_edge]; it reads as a fresh object. *)
Definition vertex_attr (g : AnnotatedGraph) (p : nat) : option float :=
  vertices g !! p ≫= v_attr.

Definition vertex_rule (g : AnnotatedGraph) (p : nat) : option string :=
  vertices g !! p ≫= v_rule.

Definition vertex_in_edges (g : AnnotatedGraph) (p : nat) : list nat :=
  default [] (in_edges <$> vertices g !! p).

Definition edge_attr (g : AnnotatedGraph) (r : nat) : option float :=
  edges g !! r ≫= e_attr.

Definition edge_rule (g : AnnotatedGraph) (r : nat) : option string :=
  edges g !! r ≫= e_rule.

Definition edge_source (g : AnnotatedGraph) (r : nat) : Z :=
  default 0 (source <$> edges g !! r).

(** Field writes through a reference. *)
Definition v_set_attr (x : float) (v : Vertex) : Vertex :=
  {| v_id := v_id v; v_attr := Some x; v_rule := v_rule v;
     in_edges := in_edges v; out_edges := out_edges v |}.

Definition e_set_attr (x : float) (e : Edge) : Edge :=
  {| e_id := e_id e; source := source e; target := target e;
     e_attr := Some x; e_rule := e_rule e |}.

Definition v_set_rule (s : string) (v : Vertex) : Vertex :=
  {| v_id := v_id v; v_attr := v_attr v; v_rule := Some s;
     in_edges := in_edges v; out_edges := out_edges v |}.

Definition e_set_rule (s : string) (e : Edge) : Edge :=
  {| e_id := e_id e; source := source e; target := target e;
     e_attr := e_attr e; e_rule := Some s |}.

Definition set_vertex_attr (p : nat) (x : float) (g : AnnotatedGraph)
  : AnnotatedGraph :=
  with_vertices (alter (v_set_attr x) p (vertices g)) g.

Definition set_edge_attr (r : nat) (x : float) (g : AnnotatedGraph)
  : AnnotatedGraph :=
  with_edges (alter (e_set_attr x) r (edges g)) g.

(** ** Evaluation: state and exceptions *)

(** A method of [AgentFunction] runs on the graph it holds: it returns or
    raises, and leaves the graph as mutated so far. *)
Definition M (A : Type) : Type := AnnotatedGraph → outcome A * AnnotatedGraph.

Definition ret {A} (a : A) : M A := λ g, (Ok a, g).

Definition bind {A B} (m : M A) (k : A → M B) : M B := λ g,
  match m g with
  | (Ok a, g') => k a g'
  | (Raise e, g') => (Raise e, g')
  end.

Definition lift {A} (o : outcome A) : M A := λ g, (o, g).

Definition reads {A} (f : AnnotatedGraph → A) : M A := λ g, (Ok (f g), g).

Definition modify (f : AnnotatedGraph → AnnotatedGraph) : M unit :=
  λ g, (Ok tt, f g).

End Model.

Arguments Vertex : clear implicits.
Arguments Edge : clear implicits.
Arguments AnnotatedGraph : clear implicits.
Arguments M : clear implicits.

Notation "x <- m ;; k" := (bind m (λ x, k))
  (at level 100, m at next level, right associativity).
Notation "m ;;; k" := (bind m (λ _, k))
  (at level 100, right associativity).

(** ** AgentFunction *)

Section AgentFunction.
Context {float : Type} `{!PyFloat float}.

(** What [_parse_rule] returns: a float, a string, or a pair of a string and
    an integer. *)
Inductive parsed_rule :=
| RFloat (x : float)
| RStr (s : string)
| RTuple (s : string) (j : Z).

(** [float(rule)] first; on [ValueError] the tokens of the text.  A rule
    that is [None] makes [float] raise [TypeError], no token makes
    [parts[0]] raise [IndexError], and [int] raises [ValueError]. *)
Definition _parse_rule (rule : option string) : outcome parsed_rule :=
  match rule with
  | None => Raise TypeError
  | Some rule =>
      match float_of_string rule with
      | Some x => Ok (RFloat x)
      | None =>
          match split rule with
          | [] => Raise IndexError
          | [p0] => Ok (RStr p0)
          | p0 :: p1 :: _ =>
              match int_of_string p1 with
              | Some n => Ok (RTuple p0 (n - 1))
              | None => Raise ValueError
              end
          end
      end
  end.

(** The attrs of the edges a list of references points to. *)
Definition attrs_of (g : AnnotatedGraph float) (rs : list nat)
  : list (option float) :=
  map (edge_attr g) rs.

(** [all(e.attr is not None for e in ...)]. *)
Definition all_set (xs : list (option float)) : bool :=
  forallb (λ x, match x with Some _ => true | None => false end) xs.

(** The values of a list of attrs; used where all of them are set. *)
Definition values (xs : list (option float)) : list float :=
  omap (λ x, x) xs.

(** The loop [product = 1.0; for e in ...: product *= e.attr]. *)
Definition product (xs : list float) : float :=
  fold_left fmul xs fone.

(** Assign [x] to the vertex when [x] is set. *)
Definition copy_to_vertex (p : nat) (x : option float) : M float unit :=
  match x with
  | Some x => modify (set_vertex_attr p x)
  | None => ret tt
  end.

Definition copy_to_edge (r : nat) (x : option float) : M float unit :=
  match x with
  | Some x => modify (set_edge_attr r x)
  | None => ret tt
  end.

Definition _compute_vertex_attr (p : nat) : M float unit :=
  text <- reads (λ g, vertex_rule g p) ;;
  rule <- lift (_parse_rule text) ;;
  match rule with
  | RFloat x => modify (set_vertex_attr p x)
  | RTuple s j =>
      if String.eqb s "v" then
        q <- (λ g, lift (get_vertex j g) g) ;;
        x <- reads (λ g, vertex_attr g q) ;;
        copy_to_vertex p x
      else if String.eqb s "e" then
        e <- (λ g, lift (getitem (edges g) j) g) ;;
        copy_to_vertex p (e_attr e)
      else ret tt
  | RStr s =>
      if String.eqb s "min" then
        xs <- reads (λ g, attrs_of g (vertex_in_edges g p)) ;;
        if all_set xs then
          x <- lift (py_min (values xs)) ;;
          modify (set_vertex_attr p x)
        else ret tt
      else ret tt
  end.

Definition _compute_edge_attr (r : nat) : M float unit :=
  text <- reads (λ g, edge_rule g r) ;;
  rule <- lift (_parse_rule text) ;;
  match rule with
  | RFloat x => modify (set_edge_attr r x)
  | RTuple s j =>
      if String.eqb s "v" then
        q <- (λ g, lift (get_vertex j g) g) ;;
        x <- reads (λ g, vertex_attr g q) ;;
        copy_to_edge r x
      else if String.eqb s "e" then
        e <- (λ g, lift (getitem (edges g) j) g) ;;
        copy_to_edge r (e_attr e)
      else ret tt
  | RStr s =>
      if String.eqb s "*" then
        q <- (λ g, lift (get_vertex (edge_source g r) g) g) ;;
        a <- reads (λ g, vertex_attr g q) ;;
        xs <- reads (λ g, attrs_of g (vertex_in_edges g q)) ;;
        match a with
        | Some a =>
            if all_set xs
            then modify (set_edge_attr r (fmul a (product (values xs))))
            else ret tt
        | None => ret tt
        end
      else ret tt
  end.

(** The loop over [graph.vertices] in [execute]: a vertex whose attr is
    unset is computed, and [changed] is raised when its attr became set. *)
Fixpoint vertex_pass (ps : list nat) (changed : bool) : M float bool :=
  match ps with
  | [] => ret changed
  | p :: ps' =>
      prev <- reads (λ g, vertex_attr g p) ;;
      match prev with
      | None =>
          _compute_vertex_attr p ;;;
          now <- reads (λ g, vertex_attr g p) ;;
          vertex_pass ps' (match now with Some _ => true | None => changed end)
      | Some _ => vertex_pass ps' changed
      end
  end.

Fixpoint edge_pass (rs : list nat) (changed : bool) : M float bool :=
  match rs with
  | [] => ret changed
  | r :: rs' =>
      prev <- reads (λ g, edge_attr g r) ;;
      match prev with
      | None =>
          _compute_edge_attr r ;;;
          now <- reads (λ g, edge_attr g r) ;;
          edge_pass rs' (match now with Some _ => true | None => changed end)
      | Some _ => edge_pass rs' changed
      end
  end.

(** One iteration of the [while] loop; returns [changed]. *)
Definition round : M float bool :=
  nv <- reads (λ g, length (vertices g)) ;;
  changed <- vertex_pass (seq 0 nv) false ;;
  ne <- reads (λ g, length (edges g)) ;;
  edge_pass (seq 0 ne) changed.

(** The [while changed] loop, with fuel; the number of rounds it ran is
    returned for the statements about rounds ([execute] itself returns
    nothing).  [None] means the fuel did not suffice. *)
Fixpoint execute_loop (fuel : nat) (g : AnnotatedGraph float)
  : option (outcome nat * AnnotatedGraph float) :=
  match fuel with
  | O => None
  | S fuel' =>
      match round g with
      | (Raise e, g') => Some (Raise e, g')
      | (Ok false, g') => Some (Ok 1%nat, g')
      | (Ok true, g') =>
          match execute_loop fuel' g' with
          | Some (Ok n, g'') => Some (Ok (S n), g'')
          | other => other
          end
      end
  end.

(** The number of entities whose attr is unset. *)
Definition is_unset (x : option float) : bool :=
  match x with None => true | Some _ => false end.

Definition unset_count (g : AnnotatedGraph float) : nat :=
  (length (filter (λ v, is_unset (v_attr v) = true) (vertices g))
   + length (filter (λ e, is_unset (e_attr e) = true) (edges g)))%nat.

(** [execute]: the loop run with fuel that always suffices (see
    [execute_loop_total]). *)
Definition execute (g : AnnotatedGraph float) : outcome nat * AnnotatedGraph float :=
  default (Ok 0%nat, g) (execute_loop (S (unset_count g)) g).

End AgentFunction.

Arguments parsed_rule : clear implicits.

(** ** Reading the input, writing the output *)

Section InputOutput.
Context {float : Type} `{!PyFloat float}.

(** The open input file is the list of its remaining lines; [readline]
    returns the empty string at the end of the file. *)
Definition readline (f : list string) : string * list string :=
  match f with
  | [] => ("", [])
  | l :: f' => (l, f')
  end.

(** [a, b = map(int, line.split())]: exactly two integer tokens. *)
Definition read_pair (line : string) : outcome (Z * Z) :=
  match split line with
  | [a; b] =>
      match int_of_string a, int_of_string b with
      | Some x, Some y => Ok (x, y)
      | _, _ => Raise ValueError
      end
  | _ => Raise ValueError
  end.

Definition add_vertices (nv : Z) (g : AnnotatedGraph float) : AnnotatedGraph float :=
  fold_left (λ g i, add_vertex (Vertex_init (Z.of_nat i)) g)
            (seq 0 (Z.to_nat nv)) g.

Fixpoint read_edges (ids : list nat) (f : list string) (g : AnnotatedGraph float)
  : outcome (AnnotatedGraph float * list string) :=
  match ids with
  | [] => Ok (g, f)
  | i :: ids' =>
      let (line, f') := readline f in
      obind (read_pair line) (λ st,
        read_edges ids' f'
          (add_edge (Edge_init (Z.of_nat i) (fst st - 1) (snd st - 1)) g))
  end.

Fixpoint read_vertex_rules (ids : list nat) (f : list string)
  (g : AnnotatedGraph float) : AnnotatedGraph float * list string :=
  match ids with
  | [] => (g, f)
  | i :: ids' =>
      let (line, f') := readline f in
      read_vertex_rules ids' f'
        (with_vertices (alter (v_set_rule (strip line)) i (vertices g)) g)
  end.

Fixpoint read_edge_rules (ids : list nat) (f : list string)
  (g : AnnotatedGraph float) : AnnotatedGraph float * list string :=
  match ids with
  | [] => (g, f)
  | i :: ids' =>
      let (line, f') := readline f in
      read_edge_rules ids' f'
        (with_edges (alter (e_set_rule (strip line)) i (edges g)) g)
  end.

Definition read_input_file (f : list string) : outcome (AnnotatedGraph float) :=
  let (header, f) := readline f in
  obind (read_pair header) (λ n,
    let nv := fst n in
    let ne := snd n in
    let (_, f) := readline f in
    let g := add_vertices nv AnnotatedGraph_init in
    obind (read_edges (seq 0 (Z.to_nat ne)) f g) (λ gf,
      let (_, f) := readline (snd gf) in
      let (g, f) := read_vertex_rules (seq 0 (Z.to_nat nv)) f (fst gf) in
      let (g, f) := read_edge_rules (seq 0 (Z.to_nat ne)) f g in
      Ok g)).

(** The lines of the output file: each attr as [f"{attr}"] prints it, which
    is [None] for an unset attr. *)
Definition write_output_file (g : AnnotatedGraph float) : list (option float) :=
  map v_attr (vertices g) ++ map e_attr (edges g).

(** [main] on the lines of the input file: the lines of the output file, or
    the exception that ends the program before the output file is opened. *)
Definition main (input : list string) : outcome (list (option float)) :=
  obind (read_input_file input) (λ g,
    match execute g with
    | (Ok _, g') => Ok (write_output_file g')
    | (Raise e, _) => Raise e
    end).

End InputOutput.

(** ** The binary64 floats of the interpreter *)

Module Float64.

(** A digit part: digits, where single underscores may separate digits.
    Returns the value, the number of digits and the rest of the text. *)
Fixpoint digitpart_go (acc : Z) (n : nat) (s : list ascii)
  : Z * nat * list ascii :=
  match s with
  | [] => (acc, n, [])
  | c :: s' =>
      match digit c with
      | Some d => digitpart_go (10 * acc + d) (S n) s'
      | None =>
          if Ascii.eqb c "_"%char then
            match s' with
            | c2 :: s'' =>
                match digit c2 with
                | Some d => digitpart_go (10 * acc + d) (S n) s''
                | None => (acc, n, s)
                end
            | [] => (acc, n, s)
            end
          else (acc, n, s)
      end
  end.

Definition digitpart (s : list ascii) : option (Z * nat * list ascii) :=
  match s with
  | c :: s' =>
      match digit c with
      | Some d => Some (digitpart_go d 1 s')
      | None => None
      end
  | [] => None
  end.

(** [digitpart ["." [digitpart]]] or ["." digitpart]: the digits as an
    integer and the number of digits after the point. *)
Definition number (s : list ascii) : option (Z * nat * list ascii) :=
  match digitpart s with
  | Some (ip, _, "."%char :: rest) =>
      match digitpart rest with
      | Some (fp, nf, rest') => Some (ip * 10 ^ Z.of_nat nf + fp, nf, rest')
      | None => Some (ip, O, rest)
      end
  | Some (ip, _, rest) => Some (ip, O, rest)
  | None =>
      match s with
      | "."%char :: rest =>
          match digitpart rest with
          | Some (fp, nf, rest') => Some (fp, nf, rest')
          | None => None
          end
      | _ => None
      end
  end.

(** An optional exponent that ends the text. *)
Definition exponent (s : list ascii) : option Z :=
  match s with
  | [] => Some 0
  | c :: s' =>
      if Ascii.eqb c "e"%char || Ascii.eqb c "E"%char then
        match s' with
        | "-"%char :: ds =>
            match digitpart ds with
            | Some (e, _, []) => Some (- e)
            | _ => None
            end
        | "+"%char :: ds =>
            match digitpart ds with
            | Some (e, _, []) => Some e
            | _ => None
            end
        | ds =>
            match digitpart ds with
            | Some (e, _, []) => Some e
            | _ => None
            end
        end
      else None
  end.

(** The binary64 number nearest to [m * 10 ^ k], ties to even, for [0 <= m]. *)
Definition round_decimal (m k : Z) : PrimFloat.float :=
  if 0 <=? k then
    FloatOps.SF2Prim
      (SpecFloat.binary_normalize FloatOps.prec FloatOps.emax
         (m * 10 ^ k) 0 false)
  else
    let d := 10 ^ (- k) in
    let s := Z.max 0 (70 + Z.log2 d - Z.log2 m) in
    let q := (m * 2 ^ s) / d in
    let sticky := if (m * 2 ^ s) mod d =? 0 then 0 else 1 in
    FloatOps.SF2Prim
      (SpecFloat.binary_normalize FloatOps.prec FloatOps.emax
         (2 * q + sticky) (- (s + 1)) false).

Definition lower (c : ascii) : ascii :=
  let n := nat_of_ascii c in
  if ((65 <=? n) && (n <=? 90))%nat then ascii_of_nat (n + 32) else c.

Definition unsigned_of_string (s : list ascii) : option PrimFloat.float :=
  let l := string_of_list_ascii (map lower s) in
  if String.eqb l "inf" || String.eqb l "infinity" then Some PrimFloat.infinity
  else if String.eqb l "nan" then Some PrimFloat.nan
  else
    match number s with
    | Some (m, nf, rest) =>
        match exponent rest with
        | Some e => Some (round_decimal m (e - Z.of_nat nf))
        | None => None
        end
    | None => None
    end.

(** [float(s)] on a string; [None] stands for [ValueError]. *)
Definition of_string (s : string) : option PrimFloat.float :=
  match strip_number s with
  | "-"%char :: s' => PrimFloat.opp <$> unsigned_of_string s'
  | "+"%char :: s' => unsigned_of_string s'
  | s' => unsigned_of_string s'
  end.

#[export] Instance float64 : PyFloat PrimFloat.float := {|
  float_of_string := of_string;
  fmul := PrimFloat.mul;
  flt := PrimFloat.ltb;
  fone := PrimFloat.one;
|}.

End Float64.
Import Float64.
Import PrimFloat.

(** ** Notions used by the statements *)

Section Notions.
Context {float : Type} `{!PyFloat float}.

(** An attr that is set stays as it is. *)
Definition attr_le (a a' : option float) : Prop :=
  ∀ x, a = Some x → a' = Some x.

Definition grows (g g' : AnnotatedGraph float) : Prop :=
  Forall2 (λ v v', attr_le (v_attr v) (v_attr v')) (vertices g) (vertices g')
  ∧ Forall2 (λ e e', attr_le (e_attr e) (e_attr e')) (edges g) (edges g').

(** Counting the unset attrs of a list of objects. *)
Definition count_unset {A} (attr : A → option float) (l : list A) : nat :=
  length (filter (λ a, is_unset (attr a) = true) l).

(** What a pass guarantees: attrs only grow; a pass that returns [false]
    has written nothing, and one that turns [changed] to [true] has
    lowered the number of unset attrs. *)
Definition pass_post (c : bool) (g : AnnotatedGraph float)
  (res : outcome bool * AnnotatedGraph float) : Prop :=
  grows g res.2
  ∧ match res.1 with
    | Ok true => c = true ∨ (unset_count res.2 < unset_count g)%nat
    | Ok false => c = false ∧ res.2 = g
    | Raise _ => True
    end.

(** [runs n g g']: [n] rounds from [g] end in [g'], every round but the
    last makes an assignment and the last makes none. *)
Inductive runs : nat → AnnotatedGraph float → AnnotatedGraph float → Prop :=
| runs_last g g' :
    round g = (Ok false, g') → runs 1 g g'
| runs_more n g g1 g' :
    round g = (Ok true, g1) → runs n g1 g' → runs (S n) g g'.

(** One call of a [_compute_..._attr] method as [execute] makes it: on an
    entity of the graph whose attr is unset. *)
Inductive step (g g' : AnnotatedGraph float) : Prop :=
| step_vertex p r :
    vertex_attr g p = None → _compute_vertex_attr p g = (r, g') → step g g'
| step_edge k r :
    edge_attr g k = None → _compute_edge_attr k g = (r, g') → step g g'.

(** The keys of [vertex_map] are the ids [0 .. NV-1], and each is mapped to
    the vertex at that position: what [read_input_file] builds. *)
Definition keys_in_range (g : AnnotatedGraph float) : Prop :=
  ∀ j, vertex_map g !! j =
       if decide (0 ≤ j < Z.of_nat (length (vertices g)))
       then Some (Z.to_nat j) else None.

(** A round as the specification words it: one schedule of entities, the
    vertices in ascending id order and then the edges in ascending id
    order; an entity whose attr is unset when its turn comes has its rule
    evaluated against the graph as it is then. *)
Inductive entity :=
| V (p : nat)
| E (k : nat).

Definition entity_attr (g : AnnotatedGraph float) (x : entity) : option float :=
  match x with
  | V p => vertex_attr g p
  | E k => edge_attr g k
  end.

Definition evaluate (x : entity) : M float unit :=
  match x with
  | V p => _compute_vertex_attr p
  | E k => _compute_edge_attr k
  end.

Definition schedule (g : AnnotatedGraph float) : list entity :=
  map V (seq 0 (length (vertices g))) ++ map E (seq 0 (length (edges g))).

Fixpoint spec_pass (xs : list entity) (changed : bool) : M float bool :=
  match xs with
  | [] => ret changed
  | x :: xs' =>
      prev <- reads (λ g, entity_attr g x) ;;
      match prev with
      | Some _ => spec_pass xs' changed
      | None =>
          evaluate x ;;;
          now <- reads (λ g, entity_attr g x) ;;
          spec_pass xs' (match now with Some _ => true | None => changed end)
      end
  end.

Definition spec_round : M float bool :=
  λ g, spec_pass (schedule g) false g.

End Notions.

(** ** Inputs of the scenarios *)

(** The graph read from an input that loads. *)
Definition load {float : Type} `{!PyFloat float} (f : list string)
  : AnnotatedGraph float :=
  match read_input_file f with
  | Ok g => g
  | Raise _ => AnnotatedGraph_init
  end.

(** Two vertices, one edge from the first to the second; a constant, a
    copy of the first vertex, a constant. *)
Definition scenario_A : list string :=
  ["2 1"; ""; "1 2"; ""; "5"; "v 1"; "10"].

(** The source vertex of the second edge has the constant 2 and one
    incoming edge with the constant 4. *)
Definition scenario_C : list string :=
  ["2 2"; ""; "2 1"; "1 2"; ""; "2"; "1"; "4"; "*"].

(** Two vertices that copy each other. *)
Definition scenario_D : list string :=
  ["2 0"; ""; ""; "v 2"; "v 1"].

Definition scenario_E : list string :=
  ["1 0"; ""; ""; "foo 3"].

(** One vertex without incoming edges and the rule [min]. *)
Definition min_alone : list string :=
  ["1 0"; ""; ""; "min"].

(** One vertex with a constant rule. *)
Definition one_constant : list string :=
  ["1 0"; ""; ""; "5"].

(** One vertex that copies a vertex that does not exist. *)
Definition copy_outside : list string :=
  ["1 0"; ""; ""; "v 5"].

(** A constant, then a copy whose index is not an integer. *)
Definition bad_index : list string :=
  ["2 0"; ""; ""; "5"; "v x"].

(** One vertex with a loop edge; the vertex copies edge number 0 of the
    rule text, the edge has a constant. *)
Definition zero_edge_index : list string :=
  ["1 1"; ""; "1 1"; ""; "e 0"; "3"].

(** A copy of the second vertex, then a constant. *)
Definition copy_first : list string :=
  ["2 0"; ""; ""; "v 2"; "5"].

(** One vertex with a loop edge: the vertex copies the edge, which has a
    constant; and the edge copies the vertex, which has a constant. *)
Definition vertex_copies_edge : list string :=
  ["1 1"; ""; "1 1"; ""; "e 1"; "7"].

Definition edge_copies_vertex : list string :=
  ["1 1"; ""; "1 1"; ""; "7"; "v 1"].

(** Scenario C when the turn of the second edge comes in the first round:
    both vertices and the first edge have been evaluated. *)
Definition scenario_C_before_product : AnnotatedGraph PrimFloat.float :=
  (edge_pass [0%nat] false
     (vertex_pass [0%nat; 1%nat] false (load scenario_C)).2).2.

(** A vertex with the rule [min] and two incoming edges with the
    constants 3 and 7. *)
Definition min_of_two : list string :=
  ["2 2"; ""; "2 1"; "2 1"; ""; "min"; "0"; "3"; "7"].

(** One vertex with a loop edge; the vertex copies vertex number 0 of the
    rule text. *)
Definition zero_vertex_index : list string :=
  ["1 1"; ""; "1 1"; ""; "v 0"; "3"].

(** ** Notions for the structure and the result of an evaluation *)

Section Structure.
Context {float : Type} `{!PyFloat float}.

(** Two vertices, or two edges, that differ at most in their attr. *)
Definition same_vertex (v v' : Vertex float) : Prop :=
  v_id v' = v_id v ∧ v_rule v' = v_rule v
  ∧ in_edges v' = in_edges v ∧ out_edges v' = out_edges v.

Definition same_edge (e e' : Edge float) : Prop :=
  e_id e' = e_id e ∧ source e' = source e
  ∧ target e' = target e ∧ e_rule e' = e_rule e.

Definition same_structure (g g' : AnnotatedGraph float) : Prop :=
  vertex_map g' = vertex_map g
  ∧ Forall2 same_vertex (vertices g) (vertices g')
  ∧ Forall2 same_edge (edges g) (edges g').

(** A vertex that keeps its id, attr and rule (as when an edge is added). *)
Definition kept (v v' : Vertex float) : Prop :=
  v_id v' = v_id v ∧ v_attr v' = v_attr v ∧ v_rule v' = v_rule v.

(** The positions, counted from [k], of the edges that satisfy [P], in
    ascending order. *)
Fixpoint positions (P : Edge float → bool) (k : nat) (es : list (Edge float))
  : list nat :=
  match es with
  | [] => []
  | e :: es' =>
      if P e then k :: positions P (S k) es' else positions P (S k) es'
  end.

(** The edge lists of every vertex are the edges into it and the edges
    out of it, by position in ascending order. *)
Definition wired (g : AnnotatedGraph float) : Prop :=
  ∀ p v, vertices g !! p = Some v →
    in_edges v = positions (λ e, target e =? Z.of_nat p) 0 (edges g)
    ∧ out_edges v = positions (λ e, source e =? Z.of_nat p) 0 (edges g).

(** No attr of the graph is set. *)
Definition all_unset (g : AnnotatedGraph float) : Prop :=
  Forall (λ v, v_attr v = None) (vertices g)
  ∧ Forall (λ e, e_attr e = None) (edges g).

(** The attr [y] of the vertex [q] is what its rule yields in [g]: the
    constant; the attr of the vertex or edge it copies; the minimum of the
    attrs of its incoming edges, which are all set. *)
Definition vertex_justified (g : AnnotatedGraph float) (q : nat) (y : float)
  : Prop :=
  match _parse_rule (vertex_rule g q) with
  | Ok (RFloat x) => y = x
  | Ok (RTuple s j) =>
      if String.eqb s "v" then
        ∃ p, vertex_map g !! j = Some p ∧ vertex_attr g p = Some y
      else if String.eqb s "e" then
        ∃ e, getitem (edges g) j = Ok e ∧ e_attr e = Some y
      else False
  | Ok (RStr s) =>
      if String.eqb s "min" then
        ∃ xs, attrs_of g (vertex_in_edges g q) = map Some xs
              ∧ py_min xs = Ok y
      else False
  | Raise _ => False
  end.

(** The same for the edge [k]; its rule [*] yields the attr of the source
    vertex times the product of the attrs of the incoming edges of the
    source, which are all set. *)
Definition edge_justified (g : AnnotatedGraph float) (k : nat) (y : float)
  : Prop :=
  match _parse_rule (edge_rule g k) with
  | Ok (RFloat x) => y = x
  | Ok (RTuple s j) =>
      if String.eqb s "v" then
        ∃ p, vertex_map g !! j = Some p ∧ vertex_attr g p = Some y
      else if String.eqb s "e" then
        ∃ e, getitem (edges g) j = Ok e ∧ e_attr e = Some y
      else False
  | Ok (RStr s) =>
      if String.eqb s "*" then
        ∃ q a xs, vertex_map g !! edge_source g k = Some q
                  ∧ vertex_attr g q = Some a
                  ∧ attrs_of g (vertex_in_edges g q) = map Some xs
                  ∧ y = fmul a (product xs)
      else False
  | Raise _ => False
  end.

(** When the evaluation of the vertex [q] raises: its rule does not parse,
    it copies a vertex whose id is not a key or an edge outside the list,
    or it is [min] over no incoming edge. *)
Definition vertex_raises (g : AnnotatedGraph float) (q : nat) : Prop :=
  match _parse_rule (vertex_rule g q) with
  | Ok (RFloat _) => False
  | Ok (RTuple s j) =>
      if String.eqb s "v" then vertex_map g !! j = None
      else if String.eqb s "e" then
        ¬ (- Z.of_nat (length (edges g)) ≤ j < Z.of_nat (length (edges g)))
      else False
  | Ok (RStr s) =>
      if String.eqb s "min" then vertex_in_edges g q = [] else False
  | Raise _ => True
  end.

(** The same for the edge [k]; its rule [*] raises when the source is not
    a key. *)
Definition edge_raises (g : AnnotatedGraph float) (k : nat) : Prop :=
  match _parse_rule (edge_rule g k) with
  | Ok (RFloat _) => False
  | Ok (RTuple s j) =>
      if String.eqb s "v" then vertex_map g !! j = None
      else if String.eqb s "e" then
        ¬ (- Z.of_nat (length (edges g)) ≤ j < Z.of_nat (length (edges g)))
      else False
  | Ok (RStr s) =>
      if String.eqb s "*" then vertex_map g !! edge_source g k = None
      else False
  | Raise _ => True
  end.

(** Nothing more can be assigned in [g]: the evaluation of every vertex and
    edge whose attr is unset returns and writes nothing. *)
Definition saturated (g : AnnotatedGraph float) : Prop :=
  (∀ q, (q < length (vertices g))%nat → vertex_attr g q = None →
        _compute_vertex_attr q g = (Ok tt, g))
  ∧ (∀ k, (k < length (edges g))%nat → edge_attr g k = None →
          _compute_edge_attr k g = (Ok tt, g)).

End Structure.

(** * Properties *)

Example split_ex : split "  v   12 " = ["v"; "12"].
Proof. reflexivity. Qed.
Example int_ex : int_of_string "-1_0" = Some (-10).
Proof. reflexivity. Qed.
Example int_ex2 : int_of_string "1__0" = None.
Proof. reflexivity. Qed.
Example int_ex3 :
  int_of_string (string_of_list_ascii (repeat "1"%char 4300)) ≠ None
  ∧ int_of_string (string_of_list_ascii (repeat "1"%char 4301)) = None
  ∧ int_of_string (string_of_list_ascii (repeat "0"%char 4301)) = None.
Proof. vm_compute. by repeat split. Qed.
Example int_ex4 :
  int_of_string (String (ascii_of_nat 160) "5") = Some 5
  ∧ int_of_string (String (ascii_of_nat 28) "5") = None.
Proof. vm_compute. by split. Qed.
Example getitem_ex : getitem [1;2;3] (-1) = Ok 3.
Proof. reflexivity. Qed.
Example getitem_ex2 : getitem [1;2;3] (-4) = Raise IndexError.
Proof. reflexivity. Qed.
Example float_ex : of_string " 2.5e1 " = Some 25%float.
Proof. reflexivity. Qed.
Example float_ex2 : of_string "0.1" = Some 0x1.999999999999ap-4%float.
Proof. reflexivity. Qed.
Example float_ex3 : of_string "v 1" = None ∧ of_string "min" = None.
Proof. split; reflexivity. Qed.
Example float_ex4 :
  of_string (String (ascii_of_nat 160) "1.5") = Some 1.5%float
  ∧ of_string (String (ascii_of_nat 28) "1.5") = None
  ∧ strip (String (ascii_of_nat 28) "1.5") = "1.5"
  ∧ split (String (ascii_of_nat 28) "1.5") = ["1.5"].
Proof. vm_compute. by repeat split. Qed.

(** Scenario B: a vertex with the rule [min] and two incoming edges with
    the constants 3 and 7 gets 3. *)
Example scenario_B :
  main ["2 2"; ""; "2 1"; "2 1"; ""; "min"; "0"; "3"; "7"]
  = Ok [Some 3%float; Some 0%float; Some 3%float; Some 7%float].
Proof. vm_compute. reflexivity. Qed.

(** ** Attrs only grow *)

Section Grows.
Context {float : Type} `{!PyFloat float}.
Implicit Types (g : AnnotatedGraph float).


Lemma attr_le_refl (a : option float) : attr_le a a.
Proof. by intros x. Qed.

Lemma grows_refl g : grows g g.
Proof. split; apply Forall_Forall2_diag, Forall_forall; intros; apply attr_le_refl. Qed.

Lemma grows_trans g1 g2 g3 : grows g1 g2 → grows g2 g3 → grows g1 g3.
Proof.
  intros [Hv1 He1] [Hv2 He2]. split.
  - eapply Forall2_trans; [|exact Hv1|exact Hv2].
    intros a b c Hab Hbc x Hx. by apply Hbc, Hab.
  - eapply Forall2_trans; [|exact He1|exact He2].
    intros a b c Hab Hbc x Hx. by apply Hbc, Hab.
Qed.

Lemma grows_vertex_attr g g' p x :
  grows g g' → vertex_attr g p = Some x → vertex_attr g' p = Some x.
Proof.
  intros [Hv _]. unfold vertex_attr. intros Hp.
  destruct (vertices g !! p) as [v|] eqn:Ev; [|done]. simpl in Hp.
  destruct (Forall2_lookup_l _ _ _ _ _ Hv Ev) as (v' & Ev' & Hle).
  rewrite Ev'. simpl. by apply Hle.
Qed.

Lemma grows_edge_attr g g' r x :
  grows g g' → edge_attr g r = Some x → edge_attr g' r = Some x.
Proof.
  intros [_ He]. unfold edge_attr. intros Hp.
  destruct (edges g !! r) as [e|] eqn:Ee; [|done]. simpl in Hp.
  destruct (Forall2_lookup_l _ _ _ _ _ He Ee) as (e' & Ee' & Hle).
  rewrite Ee'. simpl. by apply Hle.
Qed.

Lemma grows_lengths g g' :
  grows g g' →
  length (vertices g') = length (vertices g)
  ∧ length (edges g') = length (edges g).
Proof.
  intros [Hv He]. split; symmetry; by eapply Forall2_length.
Qed.


Lemma unset_count_eq g :
  unset_count g = (count_unset v_attr (vertices g) + count_unset e_attr (edges g))%nat.
Proof. reflexivity. Qed.

Lemma count_unset_le {A} (attr : A → option float) (l : list A) :
  (count_unset attr l ≤ length l)%nat.
Proof. apply length_filter. Qed.

Lemma count_unset_mono {A} (attr : A → option float) (l l' : list A) :
  Forall2 (λ a a', attr_le (attr a) (attr a')) l l' →
  (count_unset attr l' ≤ count_unset attr l)%nat.
Proof.
  unfold count_unset. induction 1 as [|a a' l l' Ha _ IH]; [done|].
  rewrite !filter_cons.
  destruct (attr a) as [x|] eqn:Ea.
  - rewrite (Ha x eq_refl). simpl. repeat case_decide; try done.
  - simpl. repeat case_decide; simpl; lia.
Qed.

Lemma count_unset_alter {A} (attr : A → option float) (f : A → A) l p a x :
  l !! p = Some a → attr a = None → attr (f a) = Some x →
  S (count_unset attr (alter f p l)) = count_unset attr l.
Proof.
  unfold count_unset. revert p. induction l as [|b l IH]; intros p Hp Ha Hf; [done|].
  destruct p as [|p]; simpl in *.
  - simplify_eq. rewrite !filter_cons, Ha, Hf. simpl.
    repeat case_decide; try done.
  - rewrite !filter_cons. case_decide; simpl; rewrite <- (IH p); auto.
Qed.

Lemma grows_unset_count g g' :
  grows g g' → (unset_count g' ≤ unset_count g)%nat.
Proof.
  intros [Hv He]. rewrite !unset_count_eq.
  apply (count_unset_mono v_attr) in Hv.
  apply (count_unset_mono e_attr) in He. lia.
Qed.

Lemma unset_count_bound g :
  (unset_count g ≤ length (vertices g) + length (edges g))%nat.
Proof.
  rewrite unset_count_eq.
  pose proof (count_unset_le v_attr (vertices g)).
  pose proof (count_unset_le e_attr (edges g)). lia.
Qed.

Lemma alter_attr_le {A} (attr : A → option float) (f : A → A) l p :
  (∀ a, l !! p = Some a → attr a = None) →
  Forall2 (λ a a', attr_le (attr a) (attr a')) l (alter f p l).
Proof.
  intros Hp. apply Forall2_same_length_lookup_2.
  - by rewrite length_alter.
  - intros i a a' Ha Ha' x Hx.
    destruct (decide (i = p)) as [->|Hne].
    + rewrite (Hp a Ha) in Hx. done.
    + rewrite list_lookup_alter_ne in Ha' by done. by simplify_eq.
Qed.

Lemma alter_outside {A} (f : A → A) (l : list A) p :
  l !! p = None → alter f p l = l.
Proof.
  revert p. induction l as [|a l IH]; intros [|p] Hp; simpl in *; try done.
  f_equal. by apply IH.
Qed.

Lemma with_vertices_id g : with_vertices (vertices g) g = g.
Proof. by destruct g. Qed.

Lemma with_edges_id g : with_edges (edges g) g = g.
Proof. by destruct g. Qed.

(** Writing the attr of an unset vertex: a no-op outside the store, and
    one unset attr fewer inside. *)
Lemma set_vertex_attr_unset p x g :
  vertex_attr g p = None →
  (set_vertex_attr p x g = g ∧ vertices g !! p = None)
  ∨ (vertex_attr (set_vertex_attr p x g) p = Some x
     ∧ grows g (set_vertex_attr p x g)
     ∧ unset_count (set_vertex_attr p x g) < unset_count g)%nat.
Proof.
  unfold vertex_attr, set_vertex_attr. intros Hp.
  destruct (vertices g !! p) as [v|] eqn:Ev; simpl in Hp.
  - right. split; [|split].
    + simpl. by rewrite list_lookup_alter_eq, Ev.
    + split; simpl.
      * apply (alter_attr_le v_attr). intros a Ha. by simplify_eq.
      * apply Forall_Forall2_diag, Forall_forall. intros; apply attr_le_refl.
    + rewrite !unset_count_eq. simpl.
      rewrite <- (count_unset_alter v_attr (v_set_attr x) (vertices g) p v x Ev Hp eq_refl).
      lia.
  - left. split; [|done].
    rewrite alter_outside by done. apply with_vertices_id.
Qed.

Lemma set_edge_attr_unset r x g :
  edge_attr g r = None →
  (set_edge_attr r x g = g ∧ edges g !! r = None)
  ∨ (edge_attr (set_edge_attr r x g) r = Some x
     ∧ grows g (set_edge_attr r x g)
     ∧ unset_count (set_edge_attr r x g) < unset_count g)%nat.
Proof.
  unfold edge_attr, set_edge_attr. intros Hp.
  destruct (edges g !! r) as [e|] eqn:Ee; simpl in Hp.
  - right. split; [|split].
    + simpl. by rewrite list_lookup_alter_eq, Ee.
    + split; simpl.
      * apply Forall_Forall2_diag, Forall_forall. intros; apply attr_le_refl.
      * apply (alter_attr_le e_attr). intros a Ha. by simplify_eq.
    + rewrite !unset_count_eq. simpl.
      rewrite <- (count_unset_alter e_attr (e_set_attr x) (edges g) r e x Ee Hp eq_refl).
      lia.
  - left. split; [|done].
    rewrite alter_outside by done. apply with_edges_id.
Qed.

End Grows.

(** ** One evaluation, one pass, one round *)

Section Rounds.
Context {float : Type} `{!PyFloat float}.
Implicit Types (g : AnnotatedGraph float).

Ltac run := unfold bind, reads, lift, modify, ret, copy_to_vertex, copy_to_edge in *; simpl in *.

(** A call of [_compute_vertex_attr] writes at most the attr of its own
    vertex, and nothing when it raises. *)
Lemma compute_vertex_shape p g r g' :
  _compute_vertex_attr p g = (r, g') →
  g' = g ∨ (r = Ok tt ∧ ∃ x, g' = set_vertex_attr p x g).
Proof.
  unfold _compute_vertex_attr. run. intros Hc.
  repeat (case_match; simplify_eq; run); eauto.
Qed.

Lemma compute_edge_shape k g r g' :
  _compute_edge_attr k g = (r, g') →
  g' = g ∨ (r = Ok tt ∧ ∃ x, g' = set_edge_attr k x g).
Proof.
  unfold _compute_edge_attr. run. intros Hc.
  repeat (case_match; simplify_eq; run); eauto.
Qed.

(** On an unset vertex: either nothing is written, or the attr of the
    vertex becomes set and one entity fewer is unset. *)
Lemma compute_vertex_unset p g r g' :
  vertex_attr g p = None →
  _compute_vertex_attr p g = (r, g') →
  g' = g
  ∨ (r = Ok tt ∧ is_Some (vertex_attr g' p) ∧ grows g g'
     ∧ (unset_count g' < unset_count g)%nat).
Proof.
  intros Hp Hc. destruct (compute_vertex_shape _ _ _ _ Hc) as [->|[-> [x ->]]]; [by left|].
  destruct (set_vertex_attr_unset p x g Hp) as [[-> _]|(Ha & Hg & Hlt)]; [by left|].
  right. rewrite Ha. eauto.
Qed.

Lemma compute_edge_unset k g r g' :
  edge_attr g k = None →
  _compute_edge_attr k g = (r, g') →
  g' = g
  ∨ (r = Ok tt ∧ is_Some (edge_attr g' k) ∧ grows g g'
     ∧ (unset_count g' < unset_count g)%nat).
Proof.
  intros Hp Hc. destruct (compute_edge_shape _ _ _ _ Hc) as [->|[-> [x ->]]]; [by left|].
  destruct (set_edge_attr_unset k x g Hp) as [[-> _]|(Ha & Hg & Hlt)]; [by left|].
  right. rewrite Ha. eauto.
Qed.


Lemma pass_post_ret c g : pass_post c g (Ok c, g).
Proof. split; [apply grows_refl|]. simpl. destruct c; auto. Qed.

Lemma pass_post_step c g g1 res :
  grows g g1 → (unset_count g1 < unset_count g)%nat →
  pass_post true g1 res → pass_post c g res.
Proof.
  intros Hg Hlt [Hg' Hr]. split; [by eapply grows_trans|].
  destruct res as [[[|]|e] g2]; simpl in *; try done.
  - right. apply grows_unset_count in Hg'. lia.
  - by destruct Hr.
Qed.

Lemma vertex_pass_post ps c g : pass_post c g (vertex_pass ps c g).
Proof.
  revert c g. induction ps as [|p ps IH]; intros c g; [apply pass_post_ret|].
  simpl. run. destruct (vertex_attr g p) eqn:Hp; [apply IH|].
  destruct (_compute_vertex_attr p g) as [[[]|e] g1] eqn:Hc.
  - destruct (compute_vertex_unset _ _ _ _ Hp Hc) as [->|(_ & [x Hx] & Hg & Hlt)].
    + rewrite Hp. apply IH.
    + rewrite Hx. eapply pass_post_step; eauto.
  - destruct (compute_vertex_shape _ _ _ _ Hc) as [->|[? _]]; [|done].
    split; [apply grows_refl|done].
Qed.

Lemma edge_pass_post ks c g : pass_post c g (edge_pass ks c g).
Proof.
  revert c g. induction ks as [|k ks IH]; intros c g; [apply pass_post_ret|].
  simpl. run. destruct (edge_attr g k) eqn:Hp; [apply IH|].
  destruct (_compute_edge_attr k g) as [[[]|e] g1] eqn:Hc.
  - destruct (compute_edge_unset _ _ _ _ Hp Hc) as [->|(_ & [x Hx] & Hg & Hlt)].
    + rewrite Hp. apply IH.
    + rewrite Hx. eapply pass_post_step; eauto.
  - destruct (compute_edge_shape _ _ _ _ Hc) as [->|[? _]]; [|done].
    split; [apply grows_refl|done].
Qed.

Lemma round_post g : pass_post false g (round g).
Proof.
  unfold round. run.
  pose proof (vertex_pass_post (seq 0 (length (vertices g))) false g) as Hv.
  destruct (vertex_pass _ false g) as [[c|e] g1]; [|exact Hv].
  pose proof (edge_pass_post (seq 0 (length (edges g1))) c g1) as He.
  destruct (edge_pass _ c g1) as [[c'|e] g2]; destruct Hv as [Hg1 Hc]; destruct He as [Hg2 Hc'];
    simpl in *; (split; [by eapply grows_trans|simpl]); [|done].
  destruct c', c; simpl in *.
  - destruct Hc as [|Hc]; [done|]. right. apply grows_unset_count in Hg2. lia.
  - destruct Hc as [_ ->]. destruct Hc' as [|]; [done|]. by right.
  - by destruct Hc'.
  - destruct Hc as [_ ->]. by destruct Hc' as [_ ->].
Qed.

(** A round that made an assignment leaves fewer attrs unset. *)
Lemma round_changed g g' :
  round g = (Ok true, g') → (unset_count g' < unset_count g)%nat.
Proof.
  intros Hr. pose proof (round_post g) as [_ Hc]. rewrite Hr in Hc.
  simpl in Hc. by destruct Hc.
Qed.

(** A round that made no assignment wrote nothing. *)
Lemma round_unchanged g g' : round g = (Ok false, g') → g' = g.
Proof.
  intros Hr. pose proof (round_post g) as [_ Hc]. rewrite Hr in Hc.
  simpl in Hc. by destruct Hc.
Qed.

Lemma round_grows g r g' : round g = (r, g') → grows g g'.
Proof.
  intros Hr. pose proof (round_post g) as [Hg _]. by rewrite Hr in Hg.
Qed.

End Rounds.

(** ** The loop of [execute] *)

Section Loop.
Context {float : Type} `{!PyFloat float}.
Implicit Types (g : AnnotatedGraph float).


Lemma execute_loop_runs fuel g n g' :
  execute_loop fuel g = Some (Ok n, g') → runs n g g'.
Proof.
  revert g n. induction fuel as [|fuel IH]; intros g n; simpl; [done|].
  destruct (round g) as [[[|]|e] g1] eqn:Hr; [| |done].
  - destruct (execute_loop fuel g1) as [[[m|e] g2]|] eqn:He; [|done|done].
    intros [= <- <-]. eapply runs_more; eauto.
  - intros [= <- <-]. by apply runs_last.
Qed.

Lemma runs_execute_loop n g g' fuel :
  runs n g g' → (n ≤ fuel)%nat → execute_loop fuel g = Some (Ok n, g').
Proof.
  intros Hr. revert fuel. induction Hr as [g g' Hr|n g g1 g' Hr _ IH]; intros fuel Hf.
  - destruct fuel as [|fuel]; [lia|]. simpl. by rewrite Hr.
  - destruct fuel as [|fuel]; [lia|]. simpl. rewrite Hr, IH by lia. done.
Qed.

(** The rounds that assign are paid for by the attrs they set. *)
Lemma runs_bound n g g' :
  runs n g g' → (n + unset_count g' ≤ unset_count g + 1)%nat.
Proof.
  induction 1 as [g g' Hr|n g g1 g' Hr _ IH].
  - apply round_unchanged in Hr as ->. lia.
  - apply round_changed in Hr. lia.
Qed.

Lemma runs_grows n g g' : runs n g g' → grows g g'.
Proof.
  induction 1 as [g g' Hr|n g g1 g' Hr _ IH].
  - by eapply round_grows.
  - eapply grows_trans; [by eapply round_grows|done].
Qed.

(** The last round of a run wrote nothing: the final graph is a fixpoint
    of [round]. *)
Lemma runs_fixpoint n g g' : runs n g g' → round g' = (Ok false, g').
Proof.
  induction 1 as [g g' Hr|n g g1 g' Hr _ IH]; [|done].
  pose proof (round_unchanged _ _ Hr) as ->. done.
Qed.

Lemma execute_loop_grows fuel g r g' :
  execute_loop fuel g = Some (r, g') → grows g g'.
Proof.
  revert g r. induction fuel as [|fuel IH]; intros g r; simpl; [done|].
  destruct (round g) as [[[|]|e] g1] eqn:Hr.
  - destruct (execute_loop fuel g1) as [[[m|e] g2]|] eqn:He; [| |done].
    + intros [= <- <-]. eapply grows_trans; [by eapply round_grows|by eapply IH].
    + intros [= <- <-]. eapply grows_trans; [by eapply round_grows|by eapply IH].
  - intros [= <- <-]. by eapply round_grows.
  - intros [= <- <-]. by eapply round_grows.
Qed.

(** Fuel above the number of unset attrs suffices. *)
Lemma execute_loop_total fuel g :
  (unset_count g < fuel)%nat → is_Some (execute_loop fuel g).
Proof.
  revert g. induction fuel as [|fuel IH]; intros g Hf; [lia|]. simpl.
  destruct (round g) as [[[|]|e] g1] eqn:Hr; [|done|done].
  apply round_changed in Hr.
  destruct (IH g1) as [[[m|e] g2] ->]; [lia| |]; done.
Qed.

(** More fuel does not change the result. *)
Lemma execute_loop_more fuel fuel' g res :
  execute_loop fuel g = Some res → (fuel ≤ fuel')%nat →
  execute_loop fuel' g = Some res.
Proof.
  revert fuel' g res. induction fuel as [|fuel IH]; intros fuel' g res; simpl; [done|].
  intros He Hf. destruct fuel' as [|fuel']; [lia|]. simpl.
  destruct (round g) as [[[|]|e] g1] eqn:Hr; [|done|done].
  destruct (execute_loop fuel g1) as [res1|] eqn:He1; [|done].
  rewrite (IH fuel' g1 res1 He1) by lia. done.
Qed.

Lemma execute_loop_execute fuel g res :
  execute_loop fuel g = Some res → execute g = res.
Proof.
  intros He. unfold execute.
  destruct (execute_loop_total (S (unset_count g)) g) as [res' Hres']; [lia|].
  rewrite Hres'. simpl.
  destruct (Nat.le_ge_cases fuel (S (unset_count g))) as [Hle|Hle].
  - rewrite (execute_loop_more _ _ _ _ He Hle) in Hres'. by simplify_eq.
  - rewrite (execute_loop_more _ _ _ _ Hres' Hle) in He. by simplify_eq.
Qed.

Lemma execute_execute_loop g :
  execute_loop (S (unset_count g)) g = Some (execute g).
Proof.
  destruct (execute_loop_total (S (unset_count g)) g) as [res Hres]; [lia|].
  by rewrite (execute_loop_execute _ _ _ Hres).
Qed.

(** ** Single evaluation steps *)

Lemma step_grows g g' : step g g' → grows g g'.
Proof.
  intros [p r Hp Hc|k r Hk Hc].
  - destruct (compute_vertex_unset _ _ _ _ Hp Hc) as [->|(_ & _ & Hg & _)]; [apply grows_refl|done].
  - destruct (compute_edge_unset _ _ _ _ Hk Hc) as [->|(_ & _ & Hg & _)]; [apply grows_refl|done].
Qed.

Lemma steps_grows g g' : rtc step g g' → grows g g'.
Proof.
  induction 1 as [g|g g1 g' Hs _ IH]; [apply grows_refl|].
  eapply grows_trans; [by apply step_grows|done].
Qed.

Ltac run := unfold bind, reads, lift, modify, ret in *; simpl in *.

Lemma vertex_pass_steps ps c g : rtc step g (vertex_pass ps c g).2.
Proof.
  revert c g. induction ps as [|p ps IH]; intros c g; [apply rtc_refl|].
  simpl. run. destruct (vertex_attr g p) eqn:Hp; [apply IH|].
  destruct (_compute_vertex_attr p g) as [[[]|e] g1] eqn:Hc.
  - eapply rtc_l; [by eapply step_vertex|]. apply IH.
  - simpl. eapply rtc_once. by eapply step_vertex.
Qed.

Lemma edge_pass_steps ks c g : rtc step g (edge_pass ks c g).2.
Proof.
  revert c g. induction ks as [|k ks IH]; intros c g; [apply rtc_refl|].
  simpl. run. destruct (edge_attr g k) eqn:Hp; [apply IH|].
  destruct (_compute_edge_attr k g) as [[[]|e] g1] eqn:Hc.
  - eapply rtc_l; [by eapply step_edge|]. apply IH.
  - simpl. eapply rtc_once. by eapply step_edge.
Qed.

Lemma round_steps g : rtc step g (round g).2.
Proof.
  unfold round. run.
  pose proof (vertex_pass_steps (seq 0 (length (vertices g))) false g) as Hv.
  destruct (vertex_pass _ false g) as [[c|e] g1]; [|exact Hv].
  etrans; [exact Hv|]. apply edge_pass_steps.
Qed.

Lemma execute_loop_steps fuel g r g' :
  execute_loop fuel g = Some (r, g') → rtc step g g'.
Proof.
  revert g r. induction fuel as [|fuel IH]; intros g r; simpl; [done|].
  pose proof (round_steps g) as Hs.
  destruct (round g) as [[[|]|e] g1] eqn:Hr; simpl in Hs.
  - destruct (execute_loop fuel g1) as [[[m|e] g2]|] eqn:He; [| |done].
    + intros [= <- <-]. etrans; [exact Hs|by eapply IH].
    + intros [= <- <-]. etrans; [exact Hs|by eapply IH].
  - by intros [= <- <-].
  - by intros [= <- <-].
Qed.

End Loop.

(** ** Graphs loaded from the input *)

Section Loaded.
Context {float : Type} `{!PyFloat float}.
Implicit Types (g : AnnotatedGraph float).

Lemma add_vertex_keys g :
  keys_in_range g →
  keys_in_range (add_vertex (Vertex_init (Z.of_nat (length (vertices g)))) g).
Proof.
  intros Hk j. unfold add_vertex. simpl. rewrite length_app. simpl.
  destruct (decide (j = Z.of_nat (length (vertices g)))) as [->|Hne].
  - rewrite lookup_insert_eq. rewrite decide_True by lia. by rewrite Nat2Z.id.
  - rewrite lookup_insert_ne by done. rewrite Hk.
    repeat case_decide; try done; lia.
Qed.

Lemma add_vertices_keys n s g :
  keys_in_range g → length (vertices g) = s →
  keys_in_range
    (fold_left (λ g i, add_vertex (Vertex_init (Z.of_nat i)) g) (seq s n) g).
Proof.
  revert s g. induction n as [|n IH]; intros s g Hk Hs; [done|]. simpl.
  apply IH.
  - subst s. by apply add_vertex_keys.
  - simpl. rewrite length_app. simpl. lia.
Qed.

Lemma keys_in_range_init : keys_in_range (@AnnotatedGraph_init float).
Proof. intros j. simpl. rewrite lookup_empty. case_decide; [lia|done]. Qed.

(** Two graphs with the same [vertex_map] and as many vertices. *)
Lemma keys_in_range_same g g' :
  vertex_map g' = vertex_map g →
  length (vertices g') = length (vertices g) →
  keys_in_range g → keys_in_range g'.
Proof. intros Hm Hl Hk j. rewrite Hm, Hl. apply Hk. Qed.

Lemma add_edge_keys e g : keys_in_range g → keys_in_range (add_edge e g).
Proof.
  apply keys_in_range_same; unfold add_edge; simpl;
    repeat (case_match; simpl); rewrite ?length_alter; done.
Qed.

Lemma read_edges_keys ids f g g' f' :
  read_edges ids f g = Ok (g', f') → keys_in_range g → keys_in_range g'.
Proof.
  revert f g. induction ids as [|i ids IH]; intros f g; simpl.
  - by intros [= <- <-].
  - destruct (readline f) as [line f1]. destruct (read_pair line) as [st|e]; simpl; [|done].
    intros Hr Hk. eapply IH; [exact Hr|]. by apply add_edge_keys.
Qed.

Lemma read_vertex_rules_keys ids f g :
  keys_in_range g → keys_in_range (read_vertex_rules ids f g).1.
Proof.
  revert f g. induction ids as [|i ids IH]; intros f g Hk; simpl; [done|].
  destruct (readline f) as [line f1]. apply IH.
  eapply keys_in_range_same; [| |exact Hk]; simpl; [done|by rewrite length_alter].
Qed.

Lemma read_edge_rules_keys ids f g :
  keys_in_range g → keys_in_range (read_edge_rules ids f g).1.
Proof.
  revert f g. induction ids as [|i ids IH]; intros f g Hk; simpl; [done|].
  destruct (readline f) as [line f1]. apply IH.
  eapply keys_in_range_same; [| |exact Hk]; simpl; done.
Qed.

(** A loaded graph has exactly the vertex ids [0 .. NV-1] as keys. *)
Lemma read_input_file_keys f g :
  read_input_file f = Ok g → keys_in_range g.
Proof.
  unfold read_input_file. destruct (readline f) as [header f1].
  destruct (read_pair header) as [[nv ne]|e]; simpl; [|done].
  destruct (readline f1) as [blank f2].
  destruct (read_edges _ f2 _) as [[g1 f3]|e] eqn:He; simpl; [|done].
  destruct (readline f3) as [blank' f4].
  pose proof (read_vertex_rules_keys (seq 0 (Z.to_nat nv)) f4 g1) as Hv.
  destruct (read_vertex_rules _ f4 g1) as [g2 f5].
  pose proof (read_edge_rules_keys (seq 0 (Z.to_nat ne)) f5 g2) as Hr.
  destruct (read_edge_rules _ f5 g2) as [g3 f6].
  intros [= <-]. apply Hr, Hv. eapply read_edges_keys; [exact He|].
  apply add_vertices_keys; [apply keys_in_range_init|done].
Qed.

Lemma keys_in_range_get_vertex g j :
  keys_in_range g →
  get_vertex j g =
    if decide (0 ≤ j < Z.of_nat (length (vertices g)))
    then Ok (Z.to_nat j) else Raise KeyError.
Proof. intros Hk. unfold get_vertex. rewrite Hk. by case_decide. Qed.

Lemma read_pair_raise line e : read_pair line = Raise e → e = ValueError.
Proof.
  unfold read_pair. repeat case_match; congruence.
Qed.

Lemma readline_nth f : readline f = (nth 0 f "", tl f).
Proof. by destruct f. Qed.

Lemma nth_tl (f : list string) k : nth k (tl f) "" = nth (S k) f "".
Proof. by destruct f, k. Qed.

Lemma read_edges_raise_value ids f g e :
  read_edges ids f g = Raise e → e = ValueError.
Proof.
  revert f g. induction ids as [|i ids IH]; intros f g; simpl; [done|].
  destruct (readline f) as [line f1].
  destruct (read_pair line) as [st|e'] eqn:Hp; simpl; [apply IH|].
  intros [= <-]. by eapply read_pair_raise.
Qed.

(** Reading the edge lines fails only on a line that is not a pair of
    integers. *)
Lemma read_edges_raise ids f g e :
  read_edges ids f g = Raise e →
  ∃ i, (i < length ids)%nat ∧ read_pair (nth i f "") = Raise ValueError.
Proof.
  revert f g. induction ids as [|i ids IH]; intros f g; simpl; [done|].
  rewrite readline_nth.
  destruct (read_pair (nth 0 f "")) as [st|e'] eqn:Hp; simpl.
  - intros Hr. destruct (IH _ _ Hr) as (k & Hk & Hn).
    exists (S k). split; [lia|]. by rewrite nth_tl in Hn.
  - intros _. exists O. split; [lia|]. by rewrite (read_pair_raise _ _ Hp) in Hp.
Qed.

(** Loading fails only on the header or on an edge line, with
    [ValueError]; the rule lines are never a reason. *)
Lemma read_input_file_raise f e :
  read_input_file (float:=float) f = Raise e →
  e = ValueError
  ∧ (read_pair (nth 0 f "") = Raise ValueError
     ∨ ∃ nv ne i, read_pair (nth 0 f "") = Ok (nv, ne)
                  ∧ (i < Z.to_nat ne)%nat
                  ∧ read_pair (nth (2 + i) f "") = Raise ValueError).
Proof.
  unfold read_input_file.
  rewrite readline_nth.
  destruct (read_pair (nth 0 f "")) as [[nv ne]|e'] eqn:Hh; simpl.
  - rewrite readline_nth.
    destruct (read_edges _ (tl (tl f)) _) as [[g1 f3]|e'] eqn:He; simpl.
    + destruct (readline f3) as [blank' f4].
      destruct (read_vertex_rules _ f4 g1) as [g2 f5].
      destruct (read_edge_rules _ f5 g2) as [g3 f6]. done.
    + intros [= ->]. pose proof He as He'.
      apply read_edges_raise in He as (i & Hi & Hn).
      rewrite length_seq in Hi.
      rewrite (read_edges_raise_value _ _ _ _ He') in *.
      split; [done|]. right. exists nv, ne, i. split; [done|]. split; [done|].
      by rewrite !nth_tl in Hn.
  - intros [= <-]. rewrite (read_pair_raise _ _ Hh) in *. auto.
Qed.

End Loaded.

(** ** What one evaluation does, rule by rule *)

Section Evaluation.
Context {float : Type} `{!PyFloat float}.
Implicit Types (g : AnnotatedGraph float).

Ltac run := unfold bind, reads, lift, modify, ret, copy_to_vertex, copy_to_edge in *; simpl in *.

(** The tokens decide the parse when the text is not a float. *)
Lemma parse_rule_tokens text :
  float_of_string (float:=float) text = None →
  _parse_rule (Some text) =
    match split text with
    | [] => Raise IndexError
    | [p0] => Ok (RStr p0)
    | p0 :: p1 :: _ =>
        match int_of_string p1 with
        | Some n => Ok (RTuple p0 (n - 1))
        | None => Raise ValueError
        end
    end.
Proof. intros Hf. unfold _parse_rule. by rewrite Hf. Qed.

(** A rule that does not parse raises when its entity is evaluated. *)
Lemma compute_vertex_parse_raise g p e :
  _parse_rule (vertex_rule g p) = Raise e →
  _compute_vertex_attr p g = (Raise e, g).
Proof. intros Hp. unfold _compute_vertex_attr. run. by rewrite Hp. Qed.

Lemma compute_edge_parse_raise g k e :
  _parse_rule (edge_rule g k) = Raise e →
  _compute_edge_attr k g = (Raise e, g).
Proof. intros Hp. unfold _compute_edge_attr. run. by rewrite Hp. Qed.

(** A pair whose first token is neither [v] nor [e] matches no branch. *)
Lemma compute_vertex_other_pair g p s j :
  _parse_rule (vertex_rule g p) = Ok (RTuple s j) →
  s ≠ "v" → s ≠ "e" →
  _compute_vertex_attr p g = (Ok tt, g).
Proof.
  intros Hp Hv He. unfold _compute_vertex_attr. run. rewrite Hp.
  apply String.eqb_neq in Hv, He. by rewrite Hv, He.
Qed.

Lemma compute_edge_other_pair g k s j :
  _parse_rule (edge_rule g k) = Ok (RTuple s j) →
  s ≠ "v" → s ≠ "e" →
  _compute_edge_attr k g = (Ok tt, g).
Proof.
  intros Hp Hv He. unfold _compute_edge_attr. run. rewrite Hp.
  apply String.eqb_neq in Hv, He. by rewrite Hv, He.
Qed.

(** A single token other than [min] on a vertex, or other than [*] on an
    edge, matches no branch. *)
Lemma compute_vertex_other_word g p s :
  _parse_rule (vertex_rule g p) = Ok (RStr s) →
  s ≠ "min" →
  _compute_vertex_attr p g = (Ok tt, g).
Proof.
  intros Hp Hm. unfold _compute_vertex_attr. run. rewrite Hp.
  apply String.eqb_neq in Hm. by rewrite Hm.
Qed.

Lemma compute_edge_other_word g k s :
  _parse_rule (edge_rule g k) = Ok (RStr s) →
  s ≠ "*" →
  _compute_edge_attr k g = (Ok tt, g).
Proof.
  intros Hp Hm. unfold _compute_edge_attr. run. rewrite Hp.
  apply String.eqb_neq in Hm. by rewrite Hm.
Qed.

(** Copy rules: the lookup is made during the evaluation. *)
Lemma compute_vertex_copy_vertex g p j :
  _parse_rule (vertex_rule g p) = Ok (RTuple "v" j) →
  _compute_vertex_attr p g =
    match get_vertex j g with
    | Raise e => (Raise e, g)
    | Ok q =>
        match vertex_attr g q with
        | Some x => (Ok tt, set_vertex_attr p x g)
        | None => (Ok tt, g)
        end
    end.
Proof.
  intros Hp. unfold _compute_vertex_attr. run. rewrite Hp. simpl.
  destruct (get_vertex j g) as [q|e]; [|done]. by destruct (vertex_attr g q).
Qed.

Lemma compute_vertex_copy_edge g p j :
  _parse_rule (vertex_rule g p) = Ok (RTuple "e" j) →
  _compute_vertex_attr p g =
    match getitem (edges g) j with
    | Raise e => (Raise e, g)
    | Ok e =>
        match e_attr e with
        | Some x => (Ok tt, set_vertex_attr p x g)
        | None => (Ok tt, g)
        end
    end.
Proof.
  intros Hp. unfold _compute_vertex_attr. run. rewrite Hp. simpl.
  destruct (getitem (edges g) j) as [e|e]; [|done]. by destruct (e_attr e).
Qed.

Lemma compute_edge_copy_vertex g k j :
  _parse_rule (edge_rule g k) = Ok (RTuple "v" j) →
  _compute_edge_attr k g =
    match get_vertex j g with
    | Raise e => (Raise e, g)
    | Ok q =>
        match vertex_attr g q with
        | Some x => (Ok tt, set_edge_attr k x g)
        | None => (Ok tt, g)
        end
    end.
Proof.
  intros Hp. unfold _compute_edge_attr. run. rewrite Hp. simpl.
  destruct (get_vertex j g) as [q|e]; [|done]. by destruct (vertex_attr g q).
Qed.

Lemma compute_edge_copy_edge g k j :
  _parse_rule (edge_rule g k) = Ok (RTuple "e" j) →
  _compute_edge_attr k g =
    match getitem (edges g) j with
    | Raise e => (Raise e, g)
    | Ok e =>
        match e_attr e with
        | Some x => (Ok tt, set_edge_attr k x g)
        | None => (Ok tt, g)
        end
    end.
Proof.
  intros Hp. unfold _compute_edge_attr. run. rewrite Hp. simpl.
  destruct (getitem (edges g) j) as [e|e]; [|done]. by destruct (e_attr e).
Qed.

(** List indexing: outside [-n .. n-1] it raises, and [-1] is the last
    element. *)
Lemma getitem_outside {A} (l : list A) j :
  ¬ (- Z.of_nat (length l) ≤ j < Z.of_nat (length l)) →
  getitem l j = Raise IndexError.
Proof.
  intros Hj. unfold getitem.
  destruct (j <? 0) eqn:Hneg; [apply Z.ltb_lt in Hneg|apply Z.ltb_ge in Hneg].
  - rewrite (proj2 (andb_false_iff _ _)); [done|].
    left. apply Z.leb_gt. lia.
  - rewrite (proj2 (andb_false_iff _ _)); [done|].
    right. apply Z.ltb_ge. lia.
Qed.

Lemma getitem_last {A} (l : list A) :
  l ≠ [] →
  ∃ a, l !! (length l - 1)%nat = Some a ∧ getitem l (-1) = Ok a.
Proof.
  intros Hl. destruct (l !! (length l - 1)%nat) as [a|] eqn:Ha.
  - exists a. split; [done|]. unfold getitem.
    assert (0 < length l)%nat by (destruct l; [done|simpl; lia]).
    replace (-1 <? 0) with true by done.
    rewrite (proj2 (andb_true_iff _ _)) by (split; [apply Z.leb_le|apply Z.ltb_lt]; lia).
    replace (Z.to_nat (-1 + Z.of_nat (length l))) with (length l - 1)%nat by lia.
    by rewrite Ha.
  - apply lookup_ge_None in Ha. destruct l; [done|simpl in Ha; lia].
Qed.

End Evaluation.

(** ** Graphs reached by evaluation from a loaded graph *)

Section Reached.
Context {float : Type} `{!PyFloat float}.
Implicit Types (g : AnnotatedGraph float).

Lemma step_vertex_map g g' : step g g' → vertex_map g' = vertex_map g.
Proof.
  intros [p r _ Hc|k r _ Hc].
  - by destruct (compute_vertex_shape _ _ _ _ Hc) as [->|[_ [x ->]]].
  - by destruct (compute_edge_shape _ _ _ _ Hc) as [->|[_ [x ->]]].
Qed.

Lemma steps_keys g g' : rtc step g g' → keys_in_range g → keys_in_range g'.
Proof.
  induction 1 as [g|g g1 g' Hs _ IH]; [done|]. intros Hk. apply IH.
  eapply keys_in_range_same; [by apply step_vertex_map| |exact Hk].
  by destruct (grows_lengths _ _ (step_grows _ _ Hs)).
Qed.

Lemma reached_keys f g0 g :
  read_input_file f = Ok g0 → rtc step g0 g → keys_in_range g.
Proof.
  intros Hf Hs. eapply steps_keys; [exact Hs|]. by eapply read_input_file_keys.
Qed.

End Reached.

(** ** The product rule and the schedule of a round *)

Section Engine.
Context {float : Type} `{!PyFloat float}.
Implicit Types (g : AnnotatedGraph float).

Lemma all_set_map_Some (xs : list float) : all_set (map Some xs) = true.
Proof. induction xs as [|x xs IH]; [done|exact IH]. Qed.

Lemma values_map_Some (xs : list float) : values (map Some xs) = xs.
Proof. induction xs as [|x xs IH]; [done|]. unfold values in *. simpl. by f_equal. Qed.

Lemma all_set_values (xs : list (option float)) :
  all_set xs = true → map Some (values xs) = xs.
Proof.
  induction xs as [|[x|] xs IH]; simpl; [done| |done].
  intros Hx. unfold values in *. simpl. f_equal. by apply IH.
Qed.

(** The product rule on an unset edge [k] whose source is the vertex [q]. *)
Lemma compute_edge_product g (k : nat) (e : Edge float) (text : string) (q : nat) :
  edges g !! k = Some e →
  e_attr e = None →
  e_rule e = Some text →
  float_of_string (float:=float) text = None →
  split text = ["*"] →
  vertex_map g !! source e = Some q →
  ∃ g',
    _compute_edge_attr k g = (Ok tt, g')
    ∧ (∀ y, edge_attr g' k = Some y ↔
            ∃ a xs, vertex_attr g q = Some a
                    ∧ map (edge_attr g) (vertex_in_edges g q) = map Some xs
                    ∧ y = fmul a (fold_left fmul xs fone))
    ∧ (edge_attr g' k = None → g' = g).
Proof.
  intros Hk Ha Hr Hf Hs Hq.
  assert (edge_attr g k = None) as Hnone by (unfold edge_attr; by rewrite Hk).
  unfold _compute_edge_attr, bind, reads, lift, modify, ret. simpl.
  unfold edge_rule, edge_source, get_vertex. rewrite Hk. simpl.
  rewrite Hr, (parse_rule_tokens _ Hf), Hs. simpl. rewrite Hk. simpl.
  rewrite Hq. destruct (vertex_attr g q) as [a|] eqn:Hva.
  - destruct (all_set (attrs_of g (vertex_in_edges g q))) eqn:Hall.
    + eexists. split; [done|]. split.
      * intros y. unfold edge_attr at 1, set_edge_attr. simpl.
        rewrite list_lookup_alter_eq, Hk. simpl. split.
        -- intros [= <-]. exists a, (values (attrs_of g (vertex_in_edges g q))).
           split; [done|]. split; [|done]. symmetry. by apply all_set_values.
        -- intros (a' & xs & [= <-] & Hxs & ->). unfold attrs_of, product.
           by rewrite Hxs, values_map_Some.
      * unfold edge_attr, set_edge_attr. simpl.
        rewrite list_lookup_alter_eq, Hk. done.
    + exists g. split; [done|]. split; [|done].
      intros y. rewrite Hnone. split; [done|].
      intros (a' & xs & _ & Hxs & _). unfold attrs_of in Hall.
      by rewrite Hxs, all_set_map_Some in Hall.
  - exists g. split; [done|]. split; [|done].
    intros y. rewrite Hnone. split; [done|]. by intros (a' & xs & ? & _).
Qed.

(** The two loops of a round are one pass over the schedule. *)
Lemma spec_pass_edges ks c g : spec_pass (map E ks) c g = edge_pass ks c g.
Proof.
  revert c g. induction ks as [|k ks IH]; intros c g; [done|].
  simpl. unfold bind, reads. simpl.
  destruct (edge_attr g k); [apply IH|].
  destruct (_compute_edge_attr k g) as [[[]|e] g1]; [apply IH|done].
Qed.

Lemma spec_pass_vertices ps ys c g :
  spec_pass (map V ps ++ ys) c g = bind (vertex_pass ps c) (spec_pass ys) g.
Proof.
  revert c g. induction ps as [|p ps IH]; intros c g; [done|].
  simpl. unfold bind, reads. simpl.
  destruct (vertex_attr g p); [apply IH|].
  destruct (_compute_vertex_attr p g) as [[[]|e] g1]; [apply IH|done].
Qed.

(** A pass over a schedule in two parts: the second part starts from the
    graph and the flag the first part has left. *)
Lemma spec_pass_app xs ys c g :
  spec_pass (xs ++ ys) c g = bind (spec_pass xs c) (spec_pass ys) g.
Proof.
  revert c g. induction xs as [|x xs IH]; intros c g; [done|].
  simpl. unfold bind, reads. simpl.
  destruct (entity_attr g x); [apply IH|].
  destruct (evaluate x g) as [[[]|e] g1]; [apply IH|done].
Qed.

Lemma round_schedule g : round g = spec_round g.
Proof.
  unfold spec_round, schedule. rewrite spec_pass_vertices.
  unfold round, bind, reads. simpl.
  pose proof (vertex_pass_post (seq 0 (length (vertices g))) false g) as [Hg _].
  destruct (vertex_pass _ false g) as [[c|e] g1]; [|done]. simpl in Hg.
  destruct (grows_lengths _ _ Hg) as [_ ->]. by rewrite spec_pass_edges.
Qed.

End Engine.

(** ** What an entity sees of the entities before it *)

Section Visibility.
Context {float : Type} `{!PyFloat float}.
Implicit Types (g : AnnotatedGraph float).

Lemma set_vertex_attr_other p q x g :
  p ≠ q → vertex_attr (set_vertex_attr p x g) q = vertex_attr g q.
Proof.
  intros Hne. unfold vertex_attr, set_vertex_attr. simpl.
  by rewrite list_lookup_alter_ne.
Qed.

Lemma set_vertex_attr_rule p q x g :
  vertex_rule (set_vertex_attr p x g) q = vertex_rule g q.
Proof.
  unfold vertex_rule, set_vertex_attr. simpl.
  destruct (decide (p = q)) as [->|Hne].
  - rewrite list_lookup_alter_eq. by destruct (vertices g !! q).
  - by rewrite list_lookup_alter_ne.
Qed.

(** An evaluation writes no vertex but its own. *)
Lemma compute_vertex_frame p q g r g' :
  p ≠ q → _compute_vertex_attr p g = (r, g') →
  vertex_attr g' q = vertex_attr g q.
Proof.
  intros Hne Hc.
  destruct (compute_vertex_shape _ _ _ _ Hc) as [->|[_ [x ->]]]; [done|].
  by apply set_vertex_attr_other.
Qed.

Lemma compute_edge_frame k q g r g' :
  _compute_edge_attr k g = (r, g') → vertex_attr g' q = vertex_attr g q.
Proof.
  intros Hc. by destruct (compute_edge_shape _ _ _ _ Hc) as [->|[_ [x ->]]].
Qed.

Lemma vertex_pass_frame ps q c g :
  q ∉ ps → vertex_attr (vertex_pass ps c g).2 q = vertex_attr g q.
Proof.
  revert c g. induction ps as [|p ps IH]; intros c g Hq; [done|].
  apply not_elem_of_cons in Hq as [Hne Hq].
  simpl. unfold bind, reads. simpl.
  destruct (vertex_attr g p); [by apply IH|].
  destruct (_compute_vertex_attr p g) as [[[]|e] g1] eqn:Hc; simpl.
  - rewrite IH by done. eapply compute_vertex_frame; [|exact Hc]. done.
  - eapply compute_vertex_frame; [|exact Hc]. done.
Qed.

Lemma edge_pass_frame ks q c g :
  vertex_attr (edge_pass ks c g).2 q = vertex_attr g q.
Proof.
  revert c g. induction ks as [|k ks IH]; intros c g; [done|].
  simpl. unfold bind, reads. simpl.
  destruct (edge_attr g k); [by apply IH|].
  destruct (_compute_edge_attr k g) as [[[]|e] g1] eqn:Hc; simpl.
  - rewrite IH. by eapply compute_edge_frame.
  - by eapply compute_edge_frame.
Qed.

(** Steps change neither [vertex_map] nor the rule of a vertex. *)
Lemma step_static g g' :
  step g g' →
  vertex_map g' = vertex_map g ∧ ∀ p, vertex_rule g' p = vertex_rule g p.
Proof.
  intros Hs. split; [by apply step_vertex_map|]. intros q.
  destruct Hs as [p r _ Hc|k r _ Hc].
  - destruct (compute_vertex_shape _ _ _ _ Hc) as [->|[_ [x ->]]]; [done|].
    apply set_vertex_attr_rule.
  - by destruct (compute_edge_shape _ _ _ _ Hc) as [->|[_ [x ->]]].
Qed.

Lemma steps_static g g' :
  rtc step g g' →
  vertex_map g' = vertex_map g ∧ ∀ p, vertex_rule g' p = vertex_rule g p.
Proof.
  induction 1 as [g|g g1 g' Hs _ [IHm IHr]]; [done|].
  destruct (step_static _ _ Hs) as [Hm Hr]. split; [congruence|].
  intros p. by rewrite IHr, Hr.
Qed.

Lemma vertex_pass_app ps qs c g :
  vertex_pass (ps ++ qs) c g = bind (vertex_pass ps c) (vertex_pass qs) g.
Proof.
  revert c g. induction ps as [|p ps IH]; intros c g; [done|].
  simpl. unfold bind, reads. simpl.
  destruct (vertex_attr g p); [apply IH|].
  destruct (_compute_vertex_attr p g) as [[[]|e] g1]; [apply IH|done].
Qed.

(** The turn of the vertex [q] in a pass that returns: the graph [g1] the
    vertices before it have left, in which [q] is evaluated, and the graph
    [g2] after its evaluation, from which the pass goes on. *)
Lemma vertex_pass_turn ps q qs c g c' g' :
  vertex_pass (ps ++ q :: qs) c g = (Ok c', g') →
  q ∉ ps → vertex_attr g q = None →
  ∃ c1 g1 g2,
    vertex_pass ps c g = (Ok c1, g1)
    ∧ vertex_attr g1 q = None
    ∧ _compute_vertex_attr q g1 = (Ok tt, g2)
    ∧ grows g2 g'
    ∧ (∀ p, p ∉ qs → vertex_attr g' p = vertex_attr g2 p).
Proof.
  intros Hp Hq Hnone. rewrite vertex_pass_app in Hp. unfold bind in Hp.
  pose proof (vertex_pass_frame ps q c g Hq) as Hf1.
  destruct (vertex_pass ps c g) as [[c1|e] g1]; [|done]. simpl in Hf1.
  exists c1, g1. simpl in Hp. unfold bind, reads in Hp. simpl in Hp.
  rewrite Hf1, Hnone in Hp.
  destruct (_compute_vertex_attr q g1) as [[[]|e] g2] eqn:Hc; [|done].
  exists g2.
  pose proof (vertex_pass_post qs
    (match vertex_attr g2 q with Some _ => true | None => c1 end) g2) as [Hg2 _].
  pose proof (λ p, vertex_pass_frame qs p
    (match vertex_attr g2 q with Some _ => true | None => c1 end) g2) as Hf2.
  rewrite Hp in Hg2, Hf2. simpl in Hg2, Hf2.
  split; [done|]. split; [by rewrite Hf1|]. done.
Qed.

Lemma seq_turn (n q : nat) :
  (q < n)%nat → seq 0 n = (seq 0 q ++ q :: seq (S q) (n - S q))%list.
Proof.
  intros Hq. replace n with (q + S (n - S q))%nat at 1 by lia.
  by rewrite seq_app.
Qed.

Lemma not_elem_of_seq (s n q : nat) :
  (q < s ∨ s + n ≤ q)%nat → q ∉ seq s n.
Proof. intros Hq Hin. apply elem_of_seq in Hin. lia. Qed.

(** What a pass leaves: reached by steps, with as many vertices. *)
Lemma vertex_pass_reached ps c g c' g' :
  vertex_pass ps c g = (Ok c', g') →
  vertex_map g' = vertex_map g
  ∧ (∀ p, vertex_rule g' p = vertex_rule g p)
  ∧ length (vertices g') = length (vertices g)
  ∧ grows g g'.
Proof.
  intros Hp. pose proof (vertex_pass_steps ps c g) as Hs.
  pose proof (vertex_pass_post ps c g) as [Hg _].
  rewrite Hp in Hs, Hg. simpl in Hs, Hg.
  destruct (steps_static _ _ Hs) as [Hm Hr].
  destruct (grows_lengths _ _ Hg) as [Hl _]. done.
Qed.

(** A constant rule sets the attr at once. *)
Lemma compute_vertex_constant g (p : nat) (x : float) :
  (p < length (vertices g))%nat →
  vertex_attr g p = None →
  _parse_rule (vertex_rule g p) = Ok (RFloat x) →
  ∃ g2, _compute_vertex_attr p g = (Ok tt, g2)
        ∧ vertex_attr g2 p = Some x ∧ grows g g2.
Proof.
  intros Hp Hnone Hr. exists (set_vertex_attr p x g). split.
  - unfold _compute_vertex_attr, bind, reads, lift, modify. simpl. by rewrite Hr.
  - destruct (set_vertex_attr_unset p x g Hnone) as [[_ Hout]|(Ha & Hg & _)]; [|done].
    apply lookup_ge_None in Hout. lia.
Qed.

(** A copy of a vertex whose attr is set takes that attr; a copy of a
    vertex whose attr is unset writes nothing. *)
Lemma compute_vertex_copy_set g (p q : nat) (j : Z) (x : float) :
  (q < length (vertices g))%nat →
  vertex_attr g q = None →
  _parse_rule (vertex_rule g q) = Ok (RTuple "v" j) →
  vertex_map g !! j = Some p →
  vertex_attr g p = Some x →
  ∃ g2, _compute_vertex_attr q g = (Ok tt, g2)
        ∧ vertex_attr g2 q = Some x ∧ grows g g2.
Proof.
  intros Hq Hnone Hr Hj Hp. exists (set_vertex_attr q x g). split.
  - rewrite (compute_vertex_copy_vertex _ _ _ Hr). unfold get_vertex.
    by rewrite Hj, Hp.
  - destruct (set_vertex_attr_unset q x g Hnone) as [[_ Hout]|(Ha & Hg & _)]; [|done].
    apply lookup_ge_None in Hout. lia.
Qed.

Lemma compute_vertex_copy_unset g (p q : nat) (j : Z) :
  _parse_rule (vertex_rule g q) = Ok (RTuple "v" j) →
  vertex_map g !! j = Some p →
  vertex_attr g p = None →
  _compute_vertex_attr q g = (Ok tt, g).
Proof.
  intros Hr Hj Hp. rewrite (compute_vertex_copy_vertex _ _ _ Hr).
  unfold get_vertex. by rewrite Hj, Hp.
Qed.

(** Same-pass visibility: a vertex that copies an earlier vertex with a
    constant rule is set in the same round. *)
Lemma copy_of_earlier_vertex g (p q : nat) (j : Z) (x : float) c g' :
  (p < q < length (vertices g))%nat →
  vertex_attr g p = None →
  vertex_attr g q = None →
  _parse_rule (vertex_rule g p) = Ok (RFloat x) →
  _parse_rule (vertex_rule g q) = Ok (RTuple "v" j) →
  vertex_map g !! j = Some p →
  round g = (Ok c, g') →
  vertex_attr g' p = Some x ∧ vertex_attr g' q = Some x.
Proof.
  intros [Hpq Hq] Hp0 Hq0 Hrp Hrq Hj Hr.
  unfold round, bind, reads in Hr. simpl in Hr.
  destruct (vertex_pass (seq 0 (length (vertices g))) false g)
    as [[cv|e] gv] eqn:Hv; [|done].
  assert (grows gv g') as Hge.
  { pose proof (edge_pass_post (seq 0 (length (edges gv))) cv gv) as [Hg _].
    by rewrite Hr in Hg. }
  (* the turn of [q] *)
  rewrite (seq_turn _ q Hq) in Hv.
  destruct (vertex_pass_turn _ _ _ _ _ _ _ Hv)
    as (c1 & g1 & g2 & Hv1 & Hq1 & Hcq & Hg2 & _);
    [apply not_elem_of_seq; lia|done|].
  destruct (vertex_pass_reached _ _ _ _ _ Hv1) as (Hm1 & Hr1 & Hl1 & _).
  (* the turn of [p], before *)
  rewrite (seq_turn q p Hpq) in Hv1.
  destruct (vertex_pass_turn _ _ _ _ _ _ _ Hv1)
    as (c0 & h1 & h2 & Hv0 & Hp1 & Hcp & Hh2 & _);
    [apply not_elem_of_seq; lia|done|].
  destruct (vertex_pass_reached _ _ _ _ _ Hv0) as (Hm0 & Hr0 & Hl0 & _).
  destruct (compute_vertex_constant h1 p x) as (h2' & Hcp' & Hpx & _);
    [lia|done|by rewrite Hr0|].
  rewrite Hcp in Hcp'. injection Hcp' as <-.
  pose proof (grows_vertex_attr _ _ _ _ Hh2 Hpx) as Hpx1.
  destruct (compute_vertex_copy_set g1 p q j x) as (g2' & Hcq' & Hqx & Hg12);
    [lia|done|by rewrite Hr1|by rewrite Hm1|done|].
  rewrite Hcq in Hcq'. injection Hcq' as <-.
  split.
  - eapply grows_vertex_attr; [exact Hge|]. eapply grows_vertex_attr; [exact Hg2|].
    by eapply grows_vertex_attr.
  - eapply grows_vertex_attr; [exact Hge|]. by eapply grows_vertex_attr.
Qed.

(** Ascending order: a vertex that copies a later vertex, unset at the
    start of the round, is still unset at its end. *)
Lemma copy_of_later_vertex g (p q : nat) (j : Z) c g' :
  (q < p)%nat → (q < length (vertices g))%nat →
  vertex_attr g p = None →
  vertex_attr g q = None →
  _parse_rule (vertex_rule g q) = Ok (RTuple "v" j) →
  vertex_map g !! j = Some p →
  round g = (Ok c, g') →
  vertex_attr g' q = None.
Proof.
  intros Hqp Hq Hp0 Hq0 Hrq Hj Hr.
  unfold round, bind, reads in Hr. simpl in Hr.
  destruct (vertex_pass (seq 0 (length (vertices g))) false g)
    as [[cv|e] gv] eqn:Hv; [|done].
  pose proof (edge_pass_frame (seq 0 (length (edges gv))) q cv gv) as Hfe.
  rewrite Hr in Hfe. simpl in Hfe. rewrite Hfe.
  rewrite (seq_turn _ q Hq) in Hv.
  destruct (vertex_pass_turn _ _ _ _ _ _ _ Hv)
    as (c1 & g1 & g2 & Hv1 & Hq1 & Hcq & _ & Hf2);
    [apply not_elem_of_seq; lia|done|].
  destruct (vertex_pass_reached _ _ _ _ _ Hv1) as (Hm1 & Hr1 & _).
  pose proof (vertex_pass_frame (seq 0 q) p false g) as Hfp.
  rewrite Hv1 in Hfp. simpl in Hfp.
  rewrite (compute_vertex_copy_unset g1 p q j) in Hcq;
    [|by rewrite Hr1|by rewrite Hm1|rewrite Hfp; [done|apply not_elem_of_seq; lia]].
  injection Hcq as <-.
  rewrite Hf2; [done|apply not_elem_of_seq; lia].
Qed.

End Visibility.

(** ** What an assignment shows *)

Section Writes.
Context {float : Type} `{!PyFloat float}.
Implicit Types (g : AnnotatedGraph float).

Lemma set_edge_attr_other k k' x g :
  k ≠ k' → edge_attr (set_edge_attr k x g) k' = edge_attr g k'.
Proof.
  intros Hne. unfold edge_attr, set_edge_attr. simpl.
  by rewrite list_lookup_alter_ne.
Qed.

(** After [vertex.attr = x] on a vertex of the graph, the vertex has the
    attr [x] and every other attr is as before. *)
Lemma set_vertex_attr_seen p x g (t : string) :
  vertex_rule g p = Some t →
  vertex_attr (set_vertex_attr p x g) p = Some x
  ∧ (∀ q, q ≠ p → vertex_attr (set_vertex_attr p x g) q = vertex_attr g q)
  ∧ (∀ k, edge_attr (set_vertex_attr p x g) k = edge_attr g k).
Proof.
  intros Hr. split; [|split].
  - unfold vertex_rule in Hr. unfold vertex_attr, set_vertex_attr. simpl.
    rewrite list_lookup_alter_eq. by destruct (vertices g !! p).
  - intros q Hq. by apply set_vertex_attr_other.
  - done.
Qed.

Lemma set_edge_attr_seen k x g (t : string) :
  edge_rule g k = Some t →
  edge_attr (set_edge_attr k x g) k = Some x
  ∧ (∀ k', k' ≠ k → edge_attr (set_edge_attr k x g) k' = edge_attr g k')
  ∧ (∀ q, vertex_attr (set_edge_attr k x g) q = vertex_attr g q).
Proof.
  intros Hr. split; [|split].
  - unfold edge_rule in Hr. unfold edge_attr, set_edge_attr. simpl.
    rewrite list_lookup_alter_eq. by destruct (edges g !! k).
  - intros k' Hk. by apply set_edge_attr_other.
  - done.
Qed.

End Writes.

(** * The claims *)

(** ** Rules and references: when they are checked *)

(** C1, as amended: loading fails only on the header or on an edge line and
    never on a rule; a rule is parsed each time its entity is evaluated.
    Then a second token that is not an integer raises [ValueError], and
    any parse error is raised by the evaluation; a pair whose first token
    is neither [v] nor [e], and a single word other than [min] on a vertex
    or other than [*] on an edge, raise nothing and leave the graph as it
    is.  With the vertex rule [foo 3] the graph loads and the output is
    written, with [None] for the vertex; with [v x] after a constant, the
    error is raised after the constant has been assigned. *)
Theorem rules_parsed_during_evaluation :
  (∀ (float : Type) (H : PyFloat float),
     (∀ f e, read_input_file (float:=float) f = Raise e →
        e = ValueError
        ∧ (read_pair (nth 0 f "") = Raise ValueError
           ∨ ∃ nv ne i, read_pair (nth 0 f "") = Ok (nv, ne)
                        ∧ (i < Z.to_nat ne)%nat
                        ∧ read_pair (nth (2 + i) f "") = Raise ValueError))
     ∧ (∀ text p0 p1 rest,
          float_of_string (float:=float) text = None →
          split text = p0 :: p1 :: rest →
          int_of_string p1 = None →
          _parse_rule (float:=float) (Some text) = Raise ValueError)
     ∧ (∀ (g : AnnotatedGraph float) p e,
          _parse_rule (vertex_rule g p) = Raise e →
          _compute_vertex_attr p g = (Raise e, g))
     ∧ (∀ (g : AnnotatedGraph float) k e,
          _parse_rule (edge_rule g k) = Raise e →
          _compute_edge_attr k g = (Raise e, g))
     ∧ (∀ (g : AnnotatedGraph float) p s j,
          _parse_rule (vertex_rule g p) = Ok (RTuple s j) →
          s ≠ "v" → s ≠ "e" →
          _compute_vertex_attr p g = (Ok tt, g))
     ∧ (∀ (g : AnnotatedGraph float) k s j,
          _parse_rule (edge_rule g k) = Ok (RTuple s j) →
          s ≠ "v" → s ≠ "e" →
          _compute_edge_attr k g = (Ok tt, g))
     ∧ (∀ (g : AnnotatedGraph float) p s,
          _parse_rule (vertex_rule g p) = Ok (RStr s) →
          s ≠ "min" →
          _compute_vertex_attr p g = (Ok tt, g))
     ∧ (∀ (g : AnnotatedGraph float) k s,
          _parse_rule (edge_rule g k) = Ok (RStr s) →
          s ≠ "*" →
          _compute_edge_attr k g = (Ok tt, g)))
  ∧ (∃ g : AnnotatedGraph float,
       read_input_file scenario_E = Ok g
       ∧ vertex_rule g 0 = Some "foo 3"
       ∧ _parse_rule (vertex_rule g 0) = Ok (RTuple "foo" 2)
       ∧ main scenario_E = Ok [None])
  ∧ (∃ g g' : AnnotatedGraph float,
       read_input_file bad_index = Ok g
       ∧ execute g = (Raise ValueError, g')
       ∧ vertex_attr g' 0 = Some 5%float
       ∧ main bad_index = Raise ValueError).
Proof.
  split; [|split].
  - intros float' HF.
    split. { intros f e Hr. exact (read_input_file_raise f e Hr). }
    split. { intros text p0 p1 rest Hf Hs Hi.
             by rewrite (parse_rule_tokens _ Hf), Hs, Hi. }
    split. { apply compute_vertex_parse_raise. }
    split. { apply compute_edge_parse_raise. }
    split. { apply compute_vertex_other_pair. }
    split. { apply compute_edge_other_pair. }
    split. { apply compute_vertex_other_word. }
    apply compute_edge_other_word.
  - exists (load scenario_E). vm_compute. repeat split.
  - exists (load bad_index), (execute (load bad_index)).2. vm_compute. repeat split.
Qed.

(** The vertex rule [foo 3] is accepted when the graph is loaded, no error
    is raised, and the output is written. *)
Lemma scenario_E_no_error :
  ∃ g : AnnotatedGraph float,
    read_input_file scenario_E = Ok g
    ∧ vertex_rule g 0 = Some "foo 3"
    ∧ execute g = (Ok 1%nat, g)
    ∧ main scenario_E = Ok [None].
Proof. exists (load scenario_E). vm_compute. repeat split. Qed.

(** The rule [foo 3] of scenario E parses to the pair of [foo] and 2, and
    its evaluation leaves the graph as it is. *)
Lemma rules_parsed_during_evaluation_witness :
  _compute_vertex_attr 0 (load scenario_E) = (Ok tt, load scenario_E).
Proof.
  destruct rules_parsed_during_evaluation as [Hgen _].
  destruct (Hgen float float64) as (_ & _ & _ & _ & Hpair & _).
  apply (Hpair (load scenario_E) 0%nat "foo" 2).
  - vm_compute. reflexivity.
  - vm_compute. discriminate.
  - vm_compute. discriminate.
Defined.

Section References.
Context {float : Type} `{!PyFloat float}.
Implicit Types (g : AnnotatedGraph float).

(** C4, as amended: no reference is checked when the graph is loaded.  In
    any graph reached by evaluation from a loaded graph, a copy rule
    whose vertex index is outside [0 .. NV-1] raises [KeyError], and one
    whose edge index is outside [-NE .. NE-1] raises [IndexError], when
    its entity is evaluated. *)
Theorem reference_looked_up_during_evaluation
  (f : list string) g0 g (j : Z) :
  read_input_file f = Ok g0 →
  rtc step g0 g →
  (¬ (0 ≤ j < Z.of_nat (length (vertices g))) →
   (∀ p, _parse_rule (vertex_rule g p) = Ok (RTuple "v" j) →
         _compute_vertex_attr p g = (Raise KeyError, g))
   ∧ (∀ k, _parse_rule (edge_rule g k) = Ok (RTuple "v" j) →
           _compute_edge_attr k g = (Raise KeyError, g)))
  ∧ (¬ (- Z.of_nat (length (edges g)) ≤ j < Z.of_nat (length (edges g))) →
     (∀ p, _parse_rule (vertex_rule g p) = Ok (RTuple "e" j) →
           _compute_vertex_attr p g = (Raise IndexError, g))
     ∧ (∀ k, _parse_rule (edge_rule g k) = Ok (RTuple "e" j) →
             _compute_edge_attr k g = (Raise IndexError, g))).
Proof.
  intros Hf Hs. pose proof (reached_keys _ _ _ Hf Hs) as Hk. split; intros Hj; split.
  - intros p Hp. rewrite (compute_vertex_copy_vertex _ _ _ Hp).
    rewrite (keys_in_range_get_vertex _ _ Hk). by rewrite decide_False.
  - intros k Hp. rewrite (compute_edge_copy_vertex _ _ _ Hp).
    rewrite (keys_in_range_get_vertex _ _ Hk). by rewrite decide_False.
  - intros p Hp. rewrite (compute_vertex_copy_edge _ _ _ Hp).
    by rewrite getitem_outside.
  - intros k Hp. rewrite (compute_edge_copy_edge _ _ _ Hp).
    by rewrite getitem_outside.
Qed.

(** C10: in any graph with at least one edge that is reached by evaluation
    from a loaded graph, a copy rule whose index token reads as the
    integer 0 is parsed to the index -1; as an edge index, -1 reads the
    attr of the last edge, with no error: when that attr is set, the
    vertex or edge that is evaluated has it as its attr afterwards and
    every other attr is as before, and when it is unset nothing is
    written; as a vertex index, -1 is not a key of [vertex_map] and the
    lookup raises [KeyError]. *)
Theorem zero_index_aliases_last_edge
  (f : list string) g0 g (text tok : string) :
  read_input_file f = Ok g0 →
  rtc step g0 g →
  edges g ≠ [] →
  float_of_string (float:=float) text = None →
  int_of_string tok = Some 0 →
  (split text = ["e"; tok] →
   _parse_rule (float:=float) (Some text) = Ok (RTuple "e" (-1))
   ∧ (∀ p, vertex_rule g p = Some text →
        ∃ g', _compute_vertex_attr p g = (Ok tt, g')
          ∧ match edge_attr g (length (edges g) - 1) with
            | Some x =>
                g' = set_vertex_attr p x g
                ∧ vertex_attr g' p = Some x
                ∧ (∀ q, q ≠ p → vertex_attr g' q = vertex_attr g q)
                ∧ (∀ k, edge_attr g' k = edge_attr g k)
            | None => g' = g
            end)
   ∧ (∀ k, edge_rule g k = Some text →
        ∃ g', _compute_edge_attr k g = (Ok tt, g')
          ∧ match edge_attr g (length (edges g) - 1) with
            | Some x =>
                g' = set_edge_attr k x g
                ∧ edge_attr g' k = Some x
                ∧ (∀ k', k' ≠ k → edge_attr g' k' = edge_attr g k')
                ∧ (∀ q, vertex_attr g' q = vertex_attr g q)
            | None => g' = g
            end))
  ∧ (split text = ["v"; tok] →
     _parse_rule (float:=float) (Some text) = Ok (RTuple "v" (-1))
     ∧ (∀ p, vertex_rule g p = Some text →
             _compute_vertex_attr p g = (Raise KeyError, g))
     ∧ (∀ k, edge_rule g k = Some text →
             _compute_edge_attr k g = (Raise KeyError, g))).
Proof.
  intros Hf Hs He Hfl Hi. pose proof (reached_keys _ _ _ Hf Hs) as Hk.
  split; intros Hsp.
  - assert (_parse_rule (float:=float) (Some text) = Ok (RTuple "e" (-1))) as Hp
      by (by rewrite (parse_rule_tokens _ Hfl), Hsp, Hi).
    destruct (getitem_last (edges g) He) as (e & Hl & Hg).
    assert (edge_attr g (length (edges g) - 1) = e_attr e) as Hea
      by (unfold edge_attr; by rewrite Hl).
    split; [done|]. split.
    + intros p Hr. rewrite <- Hr in Hp.
      rewrite (compute_vertex_copy_edge _ _ _ Hp), Hg, Hea.
      destruct (e_attr e) as [x|]; eexists; (split; [reflexivity|]); [|done].
      split; [done|]. by apply (set_vertex_attr_seen _ _ _ text).
    + intros k Hr. rewrite <- Hr in Hp.
      rewrite (compute_edge_copy_edge _ _ _ Hp), Hg, Hea.
      destruct (e_attr e) as [x|]; eexists; (split; [reflexivity|]); [|done].
      split; [done|]. by apply (set_edge_attr_seen _ _ _ text).
  - assert (_parse_rule (float:=float) (Some text) = Ok (RTuple "v" (-1))) as Hp
      by (by rewrite (parse_rule_tokens _ Hfl), Hsp, Hi).
    split; [done|]. split.
    + intros p Hr. rewrite <- Hr in Hp.
      rewrite (compute_vertex_copy_vertex _ _ _ Hp).
      rewrite (keys_in_range_get_vertex _ _ Hk). rewrite decide_False by lia. done.
    + intros k Hr. rewrite <- Hr in Hp.
      rewrite (compute_edge_copy_vertex _ _ _ Hp).
      rewrite (keys_in_range_get_vertex _ _ Hk). rewrite decide_False by lia. done.
Qed.

End References.

(** The copy of a vertex that does not exist is accepted when the graph is
    loaded; the lookup fails when the vertex is evaluated. *)
Lemma copy_outside_found_during_evaluation :
  ∃ g : AnnotatedGraph float,
    read_input_file copy_outside = Ok g
    ∧ _parse_rule (vertex_rule g 0) = Ok (RTuple "v" 4)
    ∧ _compute_vertex_attr 0 g = (Raise KeyError, g)
    ∧ main copy_outside = Raise KeyError.
Proof. exists (load copy_outside). vm_compute. repeat split. Qed.

(** The index 4 is outside the one vertex of the graph. *)
Lemma reference_looked_up_during_evaluation_witness :
  _compute_vertex_attr 0 (load copy_outside) = (Raise KeyError, load copy_outside).
Proof.
  destruct (reference_looked_up_during_evaluation
              copy_outside (load copy_outside) (load copy_outside) 4)
    as [Hv _].
  - vm_compute. reflexivity.
  - apply rtc_refl.
  - destruct Hv as [Hv _].
    { replace (length (vertices (load copy_outside))) with 1%nat
        by (vm_compute; reflexivity). lia. }
    apply Hv. vm_compute. reflexivity.
Defined.

(** After the first round the edge has 3.0, and the vertex with the rule
    [e 0] copies it; the vertex with the rule [v 0] raises. *)
Lemma zero_index_aliases_last_edge_witness :
  (_parse_rule (float:=float) (Some "e 0") = Ok (RTuple "e" (-1))
   ∧ ∃ g', _compute_vertex_attr 0 (round (load zero_edge_index)).2 = (Ok tt, g')
           ∧ vertex_attr g' 0 = Some 3%float
           ∧ edge_attr g' 0 = Some 3%float)
  ∧ (_parse_rule (float:=float) (Some "v 0") = Ok (RTuple "v" (-1))
     ∧ _compute_vertex_attr 0 (load zero_vertex_index)
       = (Raise KeyError, load zero_vertex_index)).
Proof.
  split.
  - destruct (zero_index_aliases_last_edge
                zero_edge_index (load zero_edge_index)
                (round (load zero_edge_index)).2 "e 0" "0")
      as [He _].
    + vm_compute. reflexivity.
    + apply round_steps.
    + vm_compute. discriminate.
    + vm_compute. reflexivity.
    + vm_compute. reflexivity.
    + destruct He as (Hp & Hv & _); [vm_compute; reflexivity|].
      split; [exact Hp|].
      destruct (Hv 0%nat) as (g' & Hc & Hm); [vm_compute; reflexivity|].
      replace (edge_attr (round (load zero_edge_index)).2
                 (length (edges (round (load zero_edge_index)).2) - 1))
        with (Some 3%float) in Hm by (vm_compute; reflexivity).
      destruct Hm as (_ & Ha & _ & Hk).
      exists g'. split; [exact Hc|]. split; [exact Ha|].
      rewrite Hk. vm_compute. reflexivity.
  - destruct (zero_index_aliases_last_edge
                zero_vertex_index (load zero_vertex_index)
                (load zero_vertex_index) "v 0" "0")
      as [_ Hv].
    + vm_compute. reflexivity.
    + apply rtc_refl.
    + vm_compute. discriminate.
    + vm_compute. reflexivity.
    + vm_compute. reflexivity.
    + destruct Hv as (Hp & Hv & _); [vm_compute; reflexivity|].
      split; [exact Hp|]. apply Hv. vm_compute. reflexivity.
Defined.

(** ** The rules [min] and [*] *)

Section MinIncoming.
Context {float : Type} `{!PyFloat float}.
Implicit Types (g : AnnotatedGraph float).

(** C3: a vertex without incoming edges whose rule is the text [min]: the
    test [all(...)] holds over no edge, [min] is called on an empty
    sequence and raises [ValueError]. *)
Theorem min_over_no_incoming_edge_raises g (p : nat) (text : string) :
  vertex_rule g p = Some text →
  float_of_string (float:=float) text = None →
  split text = ["min"] →
  vertex_in_edges g p = [] →
  _compute_vertex_attr p g = (Raise ValueError, g).
Proof.
  intros Hr Hf Hs Hin. unfold _compute_vertex_attr, bind, reads, lift. simpl.
  rewrite Hr, (parse_rule_tokens _ Hf), Hs. simpl. rewrite Hin. done.
Qed.

End MinIncoming.

(** The vertex of the input [min_alone]. *)
Lemma min_over_no_incoming_edge_raises_witness :
  _compute_vertex_attr 0 (load min_alone) = (Raise ValueError, load min_alone).
Proof.
  apply (min_over_no_incoming_edge_raises (load min_alone) 0 "min");
    vm_compute; reflexivity.
Defined.

(** C6 (product rule): an unset edge whose rule is the text [*] and whose
    source is the vertex S gets an attr exactly when the attr of S is set
    and every incoming edge of S has a set attr, and the attr is then the
    attr of S times the product of those attrs, the product starting from
    1.0 (so it is 1.0 over no incoming edge); otherwise nothing is
    written.  In scenario C the edge gets 2.0 * 4.0 = 8.0. *)
Theorem product_rule :
  (∀ (float : Type) (H : PyFloat float) (g : AnnotatedGraph float)
     (k : nat) (e : Edge float) (text : string) (q : nat),
     edges g !! k = Some e →
     e_attr e = None →
     e_rule e = Some text →
     float_of_string (float:=float) text = None →
     split text = ["*"] →
     vertex_map g !! source e = Some q →
     ∃ g',
       _compute_edge_attr k g = (Ok tt, g')
       ∧ (∀ y, edge_attr g' k = Some y ↔
               ∃ a xs, vertex_attr g q = Some a
                       ∧ map (edge_attr g) (vertex_in_edges g q) = map Some xs
                       ∧ y = fmul a (fold_left fmul xs fone))
       ∧ (edge_attr g' k = None → g' = g))
  ∧ main scenario_C = Ok [Some 2%float; Some 1%float; Some 4%float; Some 8%float].
Proof.
  split.
  - intros float' H. apply compute_edge_product.
  - vm_compute. reflexivity.
Qed.

(** The second edge of scenario C, when its turn comes in the first round. *)
Lemma product_rule_witness :
  ∃ g', _compute_edge_attr 1 scenario_C_before_product = (Ok tt, g')
        ∧ edge_attr g' 1 = Some 8%float.
Proof.
  destruct (proj1 product_rule float float64 scenario_C_before_product 1%nat
              {| e_id := 1; source := 0; target := 1;
                 e_attr := None; e_rule := Some "*" |} "*" 0%nat)
    as (g' & Hc & Hy & _); try (vm_compute; reflexivity).
  exists g'. split; [exact Hc|]. apply Hy.
  exists 2%float, [4%float]. vm_compute. repeat split.
Defined.

(** ** Rounds: order, write-once, termination *)

(** C7 (evaluation order, same-pass visibility): a round is one pass over
    the schedule, the vertices in ascending id order and then the edges in
    ascending id order, where each unset entity is evaluated against the
    graph as the entities before it have left it: the pass over a schedule
    in two parts runs the second part from the graph the first part has
    left.  So, in a round that returns, an unset vertex that copies an
    earlier unset vertex with a constant rule is set in that round, and an
    unset vertex that copies a later unset vertex is still unset at the
    end of the round.  In scenario A the first
    round alone gives 5.0, 5.0 and 10.0.  A vertex that copies a later
    vertex, or an edge, is still unset after the first round; an edge that
    copies a vertex is set in the first round. *)
Theorem evaluation_order :
  (∀ (float : Type) (H : PyFloat float) (g : AnnotatedGraph float),
     round g = spec_round g)
  ∧ (∀ (float : Type) (H : PyFloat float) (g : AnnotatedGraph float)
       (xs ys : list entity) (c : bool),
       spec_pass (xs ++ ys) c g = bind (spec_pass xs c) (spec_pass ys) g)
  ∧ (∀ (float : Type) (H : PyFloat float) (g g' : AnnotatedGraph float)
       (p q : nat) (j : Z) (x : float) (c : bool),
       (p < q < length (vertices g))%nat →
       vertex_attr g p = None →
       vertex_attr g q = None →
       _parse_rule (vertex_rule g p) = Ok (RFloat x) →
       _parse_rule (vertex_rule g q) = Ok (RTuple "v" j) →
       vertex_map g !! j = Some p →
       round g = (Ok c, g') →
       vertex_attr g' p = Some x ∧ vertex_attr g' q = Some x)
  ∧ (∀ (float : Type) (H : PyFloat float) (g g' : AnnotatedGraph float)
       (p q : nat) (j : Z) (c : bool),
       (q < p)%nat → (q < length (vertices g))%nat →
       vertex_attr g p = None →
       vertex_attr g q = None →
       _parse_rule (vertex_rule g q) = Ok (RTuple "v" j) →
       vertex_map g !! j = Some p →
       round g = (Ok c, g') →
       vertex_attr g' q = None)
  ∧ write_output_file (round (load scenario_A)).2
    = [Some 5%float; Some 5%float; Some 10%float]
  ∧ main scenario_A = Ok [Some 5%float; Some 5%float; Some 10%float]
  ∧ write_output_file (round (load copy_first)).2 = [None; Some 5%float]
  ∧ write_output_file (round (load vertex_copies_edge)).2
    = [None; Some 7%float]
  ∧ write_output_file (round (load edge_copies_vertex)).2
    = [Some 7%float; Some 7%float].
Proof.
  split; [|split; [|split; [|split]]].
  - intros float' H. apply round_schedule.
  - intros float' H g xs ys c. apply spec_pass_app.
  - intros float' H g g' p q j x c. apply copy_of_earlier_vertex.
  - intros float' H g g' p q j c. apply copy_of_later_vertex.
  - vm_compute. repeat split.
Qed.

(** In scenario A the second vertex copies the first, which has the
    constant 5: both are set by the first round. *)
Lemma evaluation_order_witness :
  vertex_attr (round (load scenario_A)).2 0 = Some 5%float
  ∧ vertex_attr (round (load scenario_A)).2 1 = Some 5%float.
Proof.
  destruct evaluation_order as (_ & _ & Hvis & _).
  apply (Hvis float float64 (load scenario_A) _ 0%nat 1%nat 0 5%float true).
  - vm_compute. lia.
  - vm_compute. reflexivity.
  - vm_compute. reflexivity.
  - vm_compute. reflexivity.
  - vm_compute. reflexivity.
  - vm_compute. reflexivity.
  - vm_compute. reflexivity.
Defined.

Section Termination.
Context {float : Type} `{!PyFloat float}.
Implicit Types (g : AnnotatedGraph float).

(** C5 (monotonicity, write-once): along any sequence of evaluation steps,
    and so from the start to the end of any run of [execute], the attr of a
    vertex or an edge that is set keeps its value. *)
Theorem attr_write_once (g g' : AnnotatedGraph float) :
  rtc step g g' ∨ (∃ fuel r, execute_loop fuel g = Some (r, g')) →
  (∀ p x, vertex_attr g p = Some x → vertex_attr g' p = Some x)
  ∧ (∀ k x, edge_attr g k = Some x → edge_attr g' k = Some x).
Proof.
  intros Hrun.
  assert (grows g g') as Hg.
  { destruct Hrun as [Hs|(fuel & r & He)].
    - by apply steps_grows.
    - by eapply execute_loop_grows. }
  split; intros; [by eapply grows_vertex_attr|by eapply grows_edge_attr].
Qed.

(** C8, as amended: [execute] always ends, with fuel above the number of
    unset attrs; every round that continues the loop lowers the number of
    unset attrs; a run that returns takes at most N + 1 rounds for
    N = NV + NE entities, the last of them making no assignment (so all
    assignments are made in the first N rounds). *)
Theorem execute_terminates (g : AnnotatedGraph float) :
  ∃ res,
    (∀ fuel, (unset_count g < fuel)%nat → execute_loop fuel g = Some res)
    ∧ (∀ g1 g2, round g1 = (Ok true, g2) →
                (unset_count g2 < unset_count g1)%nat)
    ∧ (∀ n, res.1 = Ok n →
            runs n g res.2
            ∧ (n ≤ unset_count g + 1)%nat
            ∧ (n ≤ length (vertices g) + length (edges g) + 1)%nat).
Proof.
  exists (execute g). split; [|split].
  - intros fuel Hf. destruct (execute_loop_total fuel g Hf) as [res Hres].
    by rewrite (execute_loop_execute _ _ _ Hres).
  - apply round_changed.
  - intros n Hn. pose proof (execute_execute_loop g) as Hl.
    destruct (execute g) as [r g']. simpl in Hn. subst r.
    apply execute_loop_runs in Hl. split; [done|].
    pose proof (runs_bound _ _ _ Hl). pose proof (unset_count_bound g). lia.
Qed.

(** C2, as amended: on a loaded graph, a run of [execute] that returns has
    repeated rounds until the first round without an assignment, which
    comes within NV + NE + 1 rounds; nothing is reported for the entities
    that are still unset: [main] writes the output, where they appear as
    [None]. *)
Theorem execute_stops_without_report
  (f : list string) (g g' : AnnotatedGraph float) (n : nat) :
  read_input_file f = Ok g →
  execute g = (Ok n, g') →
  runs n g g'
  ∧ (n ≤ length (vertices g) + length (edges g) + 1)%nat
  ∧ main f = Ok (map v_attr (vertices g') ++ map e_attr (edges g'))%list.
Proof.
  intros Hf He. pose proof (execute_execute_loop g) as Hl. rewrite He in Hl.
  apply execute_loop_runs in Hl. split; [done|]. split.
  - pose proof (runs_bound _ _ _ Hl). pose proof (unset_count_bound g). lia.
  - unfold main. rewrite Hf. simpl. by rewrite He.
Qed.

(** C9 (idempotence): when [execute] has returned, running it again on the
    resulting graph writes nothing and returns after one round. *)
Theorem execute_idempotent (g g' : AnnotatedGraph float) (n : nat) :
  execute g = (Ok n, g') →
  round g' = (Ok false, g') ∧ execute g' = (Ok 1%nat, g').
Proof.
  intros He. pose proof (execute_execute_loop g) as Hl. rewrite He in Hl.
  apply execute_loop_runs, runs_fixpoint in Hl. split; [done|].
  apply (execute_loop_execute 1). simpl. by rewrite Hl.
Qed.

End Termination.

(** The first vertex of scenario A after the first round and at the end. *)
Lemma attr_write_once_witness :
  vertex_attr (round (load scenario_A)).2 0 = Some 5%float
  ∧ vertex_attr (execute (round (load scenario_A)).2).2 0 = Some 5%float.
Proof.
  split; [vm_compute; reflexivity|].
  apply (attr_write_once (round (load scenario_A)).2
                         (execute (round (load scenario_A)).2).2).
  - right. exists 1%nat, (Ok 1%nat). vm_compute. reflexivity.
  - vm_compute. reflexivity.
Defined.

(** One vertex with a constant rule, so one entity: the first round makes
    an assignment and the second is the first that makes none, so the run
    takes more rounds than there are entities. *)
Lemma one_constant_two_rounds :
  ∃ g1 g',
    round (load one_constant) = (Ok true, g1)
    ∧ round g1 = (Ok false, g')
    ∧ execute (load one_constant) = (Ok 2%nat, g')
    ∧ ¬ (2 ≤ length (vertices (load one_constant))
             + length (edges (load one_constant)))%nat.
Proof.
  exists (round (load one_constant)).2, (execute (load one_constant)).2.
  vm_compute. repeat split. lia.
Qed.

(** On scenario A, fuel 4 is above the three unset attrs. *)
Lemma execute_terminates_witness :
  ∃ res, execute_loop 4 (load scenario_A) = Some res.
Proof.
  destruct (execute_terminates (load scenario_A)) as (res & Hfuel & _).
  exists res. apply Hfuel. vm_compute. lia.
Defined.

(** The two vertices of scenario D stay unset: [execute] returns after one
    round, below the bound of three, and [main] writes the output. *)
Lemma scenario_D_not_reported :
  execute (load scenario_D) = (Ok 1%nat, load scenario_D)
  ∧ main scenario_D = Ok [None; None]
  ∧ (1 < 2 + 0 + 1)%nat.
Proof. vm_compute. repeat split; lia. Qed.

(** Scenario D. *)
Lemma execute_stops_without_report_witness :
  runs 1 (load scenario_D) (load scenario_D)
  ∧ (1 ≤ length (vertices (load scenario_D)) + length (edges (load scenario_D)) + 1)%nat
  ∧ main scenario_D
    = Ok (map v_attr (vertices (load scenario_D))
          ++ map e_attr (edges (load scenario_D)))%list.
Proof.
  apply (execute_stops_without_report scenario_D); vm_compute; reflexivity.
Defined.

(** Scenario A, after the run of two rounds. *)
Lemma execute_idempotent_witness :
  round (execute (load scenario_A)).2 = (Ok false, (execute (load scenario_A)).2)
  ∧ execute (execute (load scenario_A)).2 = (Ok 1%nat, (execute (load scenario_A)).2).
Proof.
  apply (execute_idempotent (load scenario_A) _ 2). vm_compute. reflexivity.
Defined.

(** * Further properties of the graph and of the evaluation *)

(** ** Building a graph *)

Section Building.
Context {float : Type} `{!PyFloat float}.
Implicit Types (g : AnnotatedGraph float) (v : Vertex float) (e : Edge float).

(** X1 ([add_vertex], [get_vertex]): after [add_vertex], [get_vertex] on
    the id of the new vertex returns the new vertex, also when an older
    vertex has the same id; the other ids and the older vertices of the
    list are as before. *)
Theorem add_vertex_get_vertex g v :
  get_vertex (v_id v) (add_vertex v g) = Ok (length (vertices g))
  ∧ vertices (add_vertex v g) !! length (vertices g) = Some v
  ∧ (∀ j, j ≠ v_id v → get_vertex j (add_vertex v g) = get_vertex j g)
  ∧ (∀ p w, vertices g !! p = Some w →
            vertices (add_vertex v g) !! p = Some w)
  ∧ edges (add_vertex v g) = edges g.
Proof.
  unfold get_vertex, add_vertex. simpl. split; [|split; [|split; [|split]]].
  - by rewrite lookup_insert_eq.
  - rewrite lookup_app_r by lia. by rewrite Nat.sub_diag.
  - intros j Hj. by rewrite lookup_insert_ne.
  - intros p w Hp. by apply lookup_app_l_Some.
  - done.
Qed.

(** X2 ([add_edge]): the edge is appended to [edges]; its reference is
    appended to [out_edges] of the vertex [vertex_map] has for its source
    and to [in_edges] of the vertex it has for its target; an endpoint
    that is not a key is skipped without an error; nothing else changes. *)
Theorem add_edge_wires g e :
  edges (add_edge e g) = (edges g ++ [e])%list
  ∧ vertex_map (add_edge e g) = vertex_map g
  ∧ length (vertices (add_edge e g)) = length (vertices g)
  ∧ (∀ p v, vertices g !! p = Some v →
       ∃ v', vertices (add_edge e g) !! p = Some v'
             ∧ v_id v' = v_id v ∧ v_attr v' = v_attr v ∧ v_rule v' = v_rule v
             ∧ out_edges v' =
                 (out_edges v ++
                  if decide (vertex_map g !! source e = Some p)
                  then [length (edges g)] else [])%list
             ∧ in_edges v' =
                 (in_edges v ++
                  if decide (vertex_map g !! target e = Some p)
                  then [length (edges g)] else [])%list).
Proof.
  unfold add_edge. simpl.
  destruct (vertex_map g !! source e) as [ps|] eqn:Hs;
    destruct (vertex_map g !! target e) as [pt|] eqn:Ht; simpl;
    rewrite ?Hs, ?Ht; simpl; rewrite ?length_alter;
    (split; [done|]; split; [done|]; split; [done|]); intros p v Hp.
  - exists (default v (alter (add_in_edge (length (edges g))) pt
                         (alter (add_out_edge (length (edges g))) ps (vertices g)) !! p)).
    destruct (decide (ps = p)) as [->|Hps]; destruct (decide (pt = p)) as [->|Hpt];
      rewrite ?list_lookup_alter_eq, ?list_lookup_alter_ne by done;
      rewrite ?list_lookup_alter_eq, ?list_lookup_alter_ne by done;
      rewrite Hp; simpl; repeat case_decide; simplify_eq; by rewrite ?app_nil_r.
  - exists (default v (alter (add_out_edge (length (edges g))) ps (vertices g) !! p)).
    destruct (decide (ps = p)) as [->|Hps];
      rewrite ?list_lookup_alter_eq, ?list_lookup_alter_ne by done;
      rewrite Hp; simpl; repeat case_decide; simplify_eq; by rewrite ?app_nil_r.
  - exists (default v (alter (add_in_edge (length (edges g))) pt (vertices g) !! p)).
    destruct (decide (pt = p)) as [->|Hpt];
      rewrite ?list_lookup_alter_eq, ?list_lookup_alter_ne by done;
      rewrite Hp; simpl; repeat case_decide; simplify_eq; by rewrite ?app_nil_r.
  - exists v. repeat case_decide; simplify_eq. by rewrite ?app_nil_r.
Qed.

End Building.

(** ** What an evaluation leaves as it is *)

Section Frame.
Context {float : Type} `{!PyFloat float}.
Implicit Types (g : AnnotatedGraph float) (v : Vertex float) (e : Edge float).

Lemma same_vertex_refl v : same_vertex v v.
Proof. done. Qed.

Lemma same_edge_refl e : same_edge e e.
Proof. done. Qed.

Lemma same_structure_refl g : same_structure g g.
Proof.
  split; [done|]. split; apply Forall_Forall2_diag, Forall_forall; done.
Qed.

Lemma same_structure_trans g1 g2 g3 :
  same_structure g1 g2 → same_structure g2 g3 → same_structure g1 g3.
Proof.
  intros (Hm1 & Hv1 & He1) (Hm2 & Hv2 & He2). split; [congruence|]. split.
  - eapply Forall2_trans; [|exact Hv1|exact Hv2].
    intros a b c (? & ? & ? & ?) (? & ? & ? & ?). repeat split; congruence.
  - eapply Forall2_trans; [|exact He1|exact He2].
    intros a b c (? & ? & ? & ?) (? & ? & ? & ?). repeat split; congruence.
Qed.

Lemma alter_same {A} (R : A → A → Prop) (f : A → A) (l : list A) p :
  (∀ a, R a a) → (∀ a, R a (f a)) → Forall2 R l (alter f p l).
Proof.
  intros Hrefl Hf. apply Forall2_same_length_lookup_2.
  - by rewrite length_alter.
  - intros i a a' Ha Ha'. destruct (decide (p = i)) as [->|Hne].
    + rewrite list_lookup_alter_eq, Ha in Ha'. simpl in Ha'. by simplify_eq.
    + rewrite list_lookup_alter_ne in Ha' by done. by simplify_eq.
Qed.

Lemma set_vertex_attr_same p x g : same_structure g (set_vertex_attr p x g).
Proof.
  split; [done|]. split; simpl.
  - apply alter_same; done.
  - apply Forall_Forall2_diag, Forall_forall; done.
Qed.

Lemma set_edge_attr_same k x g : same_structure g (set_edge_attr k x g).
Proof.
  split; [done|]. split; simpl.
  - apply Forall_Forall2_diag, Forall_forall; done.
  - apply alter_same; done.
Qed.

Lemma step_same g g' : step g g' → same_structure g g'.
Proof.
  intros [p r _ Hc|k r _ Hc].
  - destruct (compute_vertex_shape _ _ _ _ Hc) as [->|[_ [x ->]]];
      [apply same_structure_refl|apply set_vertex_attr_same].
  - destruct (compute_edge_shape _ _ _ _ Hc) as [->|[_ [x ->]]];
      [apply same_structure_refl|apply set_edge_attr_same].
Qed.

Lemma steps_same g g' : rtc step g g' → same_structure g g'.
Proof.
  induction 1 as [g|g g1 g' Hs _ IH]; [apply same_structure_refl|].
  eapply same_structure_trans; [by apply step_same|done].
Qed.

(** Reading the structure through references. *)
Lemma same_structure_lookup g g' :
  same_structure g g' →
  (∀ p, vertex_rule g' p = vertex_rule g p)
  ∧ (∀ p, vertex_in_edges g' p = vertex_in_edges g p)
  ∧ (∀ k, edge_rule g' k = edge_rule g k)
  ∧ (∀ k, edge_source g' k = edge_source g k)
  ∧ length (vertices g') = length (vertices g)
  ∧ length (edges g') = length (edges g).
Proof.
  intros (Hm & Hv & He).
  assert (∀ p, option_Forall2 same_vertex (vertices g !! p) (vertices g' !! p)) as Hvl
    by (intros p; by apply Forall2_lookup).
  assert (∀ k, option_Forall2 same_edge (edges g !! k) (edges g' !! k)) as Hel
    by (intros k; by apply Forall2_lookup).
  repeat split.
  - intros p. unfold vertex_rule. destruct (Hvl p) as [v v' (? & ? & ? & ?)|]; simpl; done.
  - intros p. unfold vertex_in_edges. destruct (Hvl p) as [v v' (? & ? & ? & ?)|]; simpl; congruence.
  - intros k. unfold edge_rule. destruct (Hel k) as [e e' (? & ? & ? & ?)|]; simpl; done.
  - intros k. unfold edge_source. destruct (Hel k) as [e e' (? & ? & ? & ?)|]; simpl; congruence.
  - symmetry. by eapply Forall2_length.
  - symmetry. by eapply Forall2_length.
Qed.

(** X3 ([execute] writes attrs only): along any sequence of evaluation
    steps, and from the start to the end of any run of [execute], also one
    that raises, [vertex_map] is the same and every vertex and edge keeps
    its id, rule, endpoints and edge lists; no vertex or edge is added or
    removed. *)
Theorem execute_keeps_structure g g' :
  rtc step g g' ∨ (∃ fuel r, execute_loop fuel g = Some (r, g')) →
  same_structure g g'
  ∧ length (vertices g') = length (vertices g)
  ∧ length (edges g') = length (edges g).
Proof.
  intros Hrun.
  assert (rtc step g g') as Hs.
  { destruct Hrun as [Hs|(fuel & r & He)]; [done|]. by eapply execute_loop_steps. }
  pose proof (steps_same _ _ Hs) as Hsame. split; [done|].
  by destruct (same_structure_lookup _ _ Hsame) as (_ & _ & _ & _ & ? & ?).
Qed.

End Frame.

(** Scenario A, from the loaded graph to the end of the run. *)
Lemma execute_keeps_structure_witness :
  same_structure (load scenario_A) (execute (load scenario_A)).2
  ∧ length (vertices (execute (load scenario_A)).2)
    = length (vertices (load scenario_A))
  ∧ length (edges (execute (load scenario_A)).2)
    = length (edges (load scenario_A)).
Proof.
  apply execute_keeps_structure. right. exists 3%nat, (Ok 2%nat).
  vm_compute. reflexivity.
Defined.

(** ** The graph [read_input_file] builds *)

Section LoadedShape.
Context {float : Type} `{!PyFloat float}.
Implicit Types (g : AnnotatedGraph float) (v : Vertex float) (e : Edge float).

Lemma readline_drop (f : list string) : readline f = (nth 0 f "", drop 1 f).
Proof. destruct f; [done|]. simpl. by rewrite drop_0. Qed.

Lemma nth_drop (f : list string) (n i : nat) :
  nth i (drop n f) "" = nth (n + i) f "".
Proof.
  revert f. induction n as [|n IH]; intros f; [by rewrite drop_0|].
  destruct f as [|l f]; simpl; [by destruct i|]. apply IH.
Qed.

(** The vertices [add_vertices] appends. *)
Lemma add_vertices_shape (n s : nat) g :
  let g' := fold_left (λ g i, add_vertex (Vertex_init (Z.of_nat i)) g) (seq s n) g in
  vertices g' = (vertices g ++ map (λ i, Vertex_init (Z.of_nat i)) (seq s n))%list
  ∧ edges g' = edges g.
Proof.
  revert s g. induction n as [|n IH]; intros s g; simpl.
  - by rewrite app_nil_r.
  - destruct (IH (S s) (add_vertex (Vertex_init (Z.of_nat s)) g)) as [Hv He].
    rewrite Hv, He. simpl. by rewrite <- app_assoc.
Qed.

Lemma add_edge_kept e g : Forall2 kept (vertices g) (vertices (add_edge e g)).
Proof.
  unfold add_edge. simpl.
  destruct (vertex_map g !! source e) as [ps|] eqn:Hs;
    destruct (vertex_map g !! target e) as [pt|] eqn:Ht; simpl;
    rewrite ?Hs, ?Ht; simpl.
  - eapply Forall2_trans;
      [|apply (alter_same kept (add_out_edge (length (edges g))) (vertices g) ps)|
        apply (alter_same kept (add_in_edge (length (edges g))) _ pt)]; try done.
    intros a b c (? & ? & ?) (? & ? & ?). repeat split; congruence.
  - apply alter_same; done.
  - apply alter_same; done.
  - apply Forall_Forall2_diag, Forall_forall; done.
Qed.

Lemma add_edge_edges e g : edges (add_edge e g) = (edges g ++ [e])%list.
Proof.
  unfold add_edge. simpl.
  destruct (vertex_map g !! source e) as [ps|] eqn:Hs;
    destruct (vertex_map g !! target e) as [pt|] eqn:Ht; simpl;
    rewrite ?Hs, ?Ht; done.
Qed.

(** What [read_edges] consumes and appends. *)
Lemma read_edges_shape ids f g g' f' :
  read_edges ids f g = Ok (g', f') →
  f' = drop (length ids) f
  ∧ Forall2 kept (vertices g) (vertices g')
  ∧ ∃ es, edges g' = (edges g ++ es)%list
          ∧ length es = length ids
          ∧ ∀ n i e, ids !! n = Some i → es !! n = Some e →
              ∃ st, read_pair (nth n f "") = Ok st
                    ∧ e = Edge_init (Z.of_nat i) (st.1 - 1) (st.2 - 1).
Proof.
  revert f g. induction ids as [|i ids IH]; intros f g; simpl.
  - intros [= <- <-]. rewrite drop_0. split; [done|]. split.
    + apply Forall_Forall2_diag, Forall_forall. done.
    + exists []. by rewrite app_nil_r.
  - rewrite readline_drop. destruct (read_pair (nth 0 f "")) as [st|err] eqn:Hp; [|done].
    simpl. intros Hr. destruct (IH _ _ Hr) as (-> & Hk & es & He & Hl & Hes).
    split; [by rewrite drop_drop|]. split.
    + eapply Forall2_trans; [|apply add_edge_kept|exact Hk].
      intros a b c (? & ? & ?) (? & ? & ?). repeat split; congruence.
    + rewrite add_edge_edges, <- app_assoc in He.
      eexists. split; [exact He|]. split; [simpl; by rewrite Hl|].
      intros [|n] j e Hj Hn; simpl in *.
      * simplify_eq. by exists st.
      * destruct (Hes n j e Hj Hn) as (st' & Hst & ->).
        exists st'. split; [|done]. by rewrite nth_drop in Hst.
Qed.

(** What [read_vertex_rules] consumes and writes. *)
Lemma read_vertex_rules_shape (n s : nat) f g :
  (read_vertex_rules (seq s n) f g).2 = drop n f
  ∧ edges (read_vertex_rules (seq s n) f g).1 = edges g
  ∧ ∀ p, vertices (read_vertex_rules (seq s n) f g).1 !! p =
         (λ v, if decide (s ≤ p < s + n)%nat
               then v_set_rule (strip (nth (p - s) f "")) v else v)
           <$> vertices g !! p.
Proof.
  revert s f g. induction n as [|n IH]; intros s f g; simpl.
  - rewrite drop_0. split; [done|]. split; [done|]. intros p.
    destruct (vertices g !! p); [|done]. simpl. by rewrite decide_False by lia.
  - rewrite readline_drop.
    destruct (IH (S s) (drop 1 f)
                (with_vertices (alter (v_set_rule (strip (nth 0 f ""))) s (vertices g)) g))
      as (Hf & He & Hv).
    rewrite Hf, He, drop_drop. split; [done|]. split; [done|]. intros p.
    rewrite Hv. simpl. destruct (decide (s = p)) as [->|Hne].
    + rewrite list_lookup_alter_eq. destruct (vertices g !! p); [|done]. simpl.
      repeat case_decide; try lia. by rewrite Nat.sub_diag.
    + rewrite list_lookup_alter_ne by done. destruct (vertices g !! p); [|done].
      simpl. rewrite nth_drop. repeat case_decide; try lia; [|done].
      by replace (1 + (p - S s))%nat with (p - s)%nat by lia.
Qed.

Lemma read_edge_rules_shape (n s : nat) f g :
  vertices (read_edge_rules (seq s n) f g).1 = vertices g
  ∧ ∀ k, edges (read_edge_rules (seq s n) f g).1 !! k =
         (λ e, if decide (s ≤ k < s + n)%nat
               then e_set_rule (strip (nth (k - s) f "")) e else e)
           <$> edges g !! k.
Proof.
  revert s f g. induction n as [|n IH]; intros s f g; simpl.
  - split; [done|]. intros k.
    destruct (edges g !! k); [|done]. simpl. by rewrite decide_False by lia.
  - rewrite readline_drop.
    destruct (IH (S s) (drop 1 f)
                (with_edges (alter (e_set_rule (strip (nth 0 f ""))) s (edges g)) g))
      as (Hv & He).
    rewrite Hv. split; [done|]. intros k.
    rewrite He. simpl. destruct (decide (s = k)) as [->|Hne].
    + rewrite list_lookup_alter_eq. destruct (edges g !! k); [|done]. simpl.
      repeat case_decide; try lia. by rewrite Nat.sub_diag.
    + rewrite list_lookup_alter_ne by done. destruct (edges g !! k); [|done].
      simpl. rewrite nth_drop. repeat case_decide; try lia; [|done].
      by replace (1 + (k - S s))%nat with (k - s)%nat by lia.
Qed.

(** The phases of [read_input_file], with the lines each one reads. *)
Lemma read_input_file_phases f g :
  read_input_file f = Ok g →
  ∃ nv ne gE,
    read_pair (nth 0 f "") = Ok (nv, ne)
    ∧ read_edges (seq 0 (Z.to_nat ne)) (drop 2 f)
        (add_vertices nv AnnotatedGraph_init)
      = Ok (gE, drop (2 + Z.to_nat ne) f)
    ∧ g = (read_edge_rules (seq 0 (Z.to_nat ne))
             (drop (3 + Z.to_nat ne + Z.to_nat nv) f)
             (read_vertex_rules (seq 0 (Z.to_nat nv))
                (drop (3 + Z.to_nat ne) f) gE).1).1.
Proof.
  unfold read_input_file. rewrite readline_drop.
  destruct (read_pair (nth 0 f "")) as [[nv ne]|err] eqn:Hh; [|done].
  cbn -[Nat.add drop]. rewrite readline_drop, drop_drop.
  change (1 + 1)%nat with 2%nat.
  destruct (read_edges _ (drop 2 f) _) as [[gE f3]|err] eqn:He; [|done].
  cbn -[Nat.add drop].
  destruct (read_edges_shape _ _ _ _ _ He) as (-> & _).
  rewrite length_seq, drop_drop in *. rewrite readline_drop, drop_drop.
  replace (2 + Z.to_nat ne + 1)%nat with (3 + Z.to_nat ne)%nat by lia.
  pose proof (read_vertex_rules_shape (Z.to_nat nv) 0
                (drop (3 + Z.to_nat ne) f) gE) as (Hf & _).
  destruct (read_vertex_rules _ (drop (3 + Z.to_nat ne) f) gE)
    as [g2 f5] eqn:Hrv.
  cbn -[Nat.add drop] in Hf. subst f5. rewrite drop_drop.
  destruct (read_edge_rules _ _ g2) as [g3 f6] eqn:Hre.
  intros [= <-]. exists nv, ne, gE. split; [done|]. split; [done|].
  rewrite Hrv. cbn [fst]. by rewrite Hre.
Qed.

End LoadedShape.

Section Loaded2.
Context {float : Type} `{!PyFloat float}.
Implicit Types (g : AnnotatedGraph float) (v : Vertex float) (e : Edge float).

Lemma lookup_fmap_length {A B} (F : nat → A → B) (l : list A) (l' : list B) :
  (∀ p, l' !! p = F p <$> l !! p) → length l' = length l.
Proof.
  intros Hl. destruct (Nat.lt_total (length l') (length l)) as [Hlt|[Heq|Hlt]]; [|done|].
  - destruct (lookup_lt_is_Some_2 l (length l') Hlt) as [a Ha].
    pose proof (Hl (length l')) as Hp. rewrite Ha in Hp.
    rewrite lookup_ge_None_2 in Hp by lia. done.
  - destruct (lookup_lt_is_Some_2 l' (length l) Hlt) as [b Hb].
    pose proof (Hl (length l)) as Hp. rewrite Hb in Hp.
    rewrite (lookup_ge_None_2 l) in Hp by lia. done.
Qed.

(** The vertices before any edge is read. *)
Lemma add_vertices_lookup (nv : Z) (p : nat) v :
  vertices (add_vertices nv (@AnnotatedGraph_init float)) !! p = Some v →
  (p < Z.to_nat nv)%nat ∧ v = Vertex_init (Z.of_nat p).
Proof.
  unfold add_vertices.
  destruct (add_vertices_shape (Z.to_nat nv) 0 (@AnnotatedGraph_init float)) as [Hv _].
  simpl in Hv. rewrite Hv. intros Hp.
  apply list_lookup_fmap_Some in Hp as (i & -> & Hi).
  apply lookup_seq in Hi as [-> Hi]. done.
Qed.

Lemma add_vertices_length (nv : Z) :
  length (vertices (add_vertices nv (@AnnotatedGraph_init float))) = Z.to_nat nv
  ∧ edges (add_vertices nv (@AnnotatedGraph_init float)) = [].
Proof.
  unfold add_vertices.
  destruct (add_vertices_shape (Z.to_nat nv) 0 (@AnnotatedGraph_init float)) as [Hv He].
  simpl in Hv, He. rewrite Hv, He. by rewrite length_map, length_seq.
Qed.

(** X4 ([read_input_file]): a graph that loads has the NV vertices and NE
    edges the header announces (none for a negative count); the vertex at
    position p has the id p, and the edge at position k has the id k and
    the endpoints of line 2 + k, each lowered by one; no attr is set; the
    rule of each vertex and edge is the stripped text of its line, which
    is the empty text when the file ends before it. *)
Theorem read_input_file_shape (f : list string) g :
  read_input_file f = Ok g →
  ∃ nv ne,
    read_pair (nth 0 f "") = Ok (nv, ne)
    ∧ length (vertices g) = Z.to_nat nv
    ∧ length (edges g) = Z.to_nat ne
    ∧ (∀ p v, vertices g !! p = Some v →
         v_id v = Z.of_nat p ∧ v_attr v = None
         ∧ v_rule v = Some (strip (nth (3 + Z.to_nat ne + p) f "")))
    ∧ (∀ k e, edges g !! k = Some e →
         e_id e = Z.of_nat k ∧ e_attr e = None
         ∧ e_rule e
           = Some (strip (nth (3 + Z.to_nat ne + Z.to_nat nv + k) f ""))
         ∧ read_pair (nth (2 + k) f "") = Ok (source e + 1, target e + 1)).
Proof.
  intros Hf. destruct (read_input_file_phases _ _ Hf) as (nv & ne & gE & Hh & He & ->).
  exists nv, ne. split; [done|].
  destruct (read_edges_shape _ _ _ _ _ He) as (_ & Hk & es & Hes & Hl & Hen).
  destruct (add_vertices_length nv) as [HlV HeV]. rewrite HeV in Hes. simpl in Hes.
  rewrite length_seq in Hl.
  destruct (read_vertex_rules_shape (Z.to_nat nv) 0 (drop (3 + Z.to_nat ne) f) gE)
    as (_ & He2 & Hv2).
  set (g2 := (read_vertex_rules (seq 0 (Z.to_nat nv)) (drop (3 + Z.to_nat ne) f) gE).1) in *.
  destruct (read_edge_rules_shape (Z.to_nat ne) 0
              (drop (3 + Z.to_nat ne + Z.to_nat nv) f) g2) as (Hv3 & He3).
  set (g3 := (read_edge_rules (seq 0 (Z.to_nat ne))
                (drop (3 + Z.to_nat ne + Z.to_nat nv) f) g2).1) in *.
  assert (length (vertices gE) = Z.to_nat nv) as HlE
    by (rewrite <- HlV; symmetry; by eapply Forall2_length).
  split; [|split; [|split]].
  - rewrite Hv3, (lookup_fmap_length _ _ _ Hv2). done.
  - rewrite (lookup_fmap_length _ _ _ He3), He2, Hes. done.
  - intros p v Hp. rewrite Hv3, Hv2 in Hp.
    destruct (vertices gE !! p) as [vE|] eqn:HpE; [|done]. simpl in Hp.
    pose proof (lookup_lt_Some _ _ _ HpE) as Hlt.
    rewrite decide_True in Hp by lia. injection Hp as <-.
    destruct (Forall2_lookup_r _ _ _ _ _ Hk HpE) as (vV & HpV & (Hid & Ha & Hr)).
    apply add_vertices_lookup in HpV as [_ ->]. simpl in *.
    rewrite Hid, Ha, nth_drop, Nat.sub_0_r. done.
  - intros k e Hke. rewrite He3, He2, Hes in Hke.
    destruct (es !! k) as [eE|] eqn:HkE; [|done]. simpl in Hke.
    pose proof (lookup_lt_Some _ _ _ HkE) as Hlt.
    rewrite decide_True in Hke by lia. injection Hke as <-.
    destruct (Hen k k eE) as ([a b] & Hst & ->);
      [apply lookup_seq; lia|done|].
    cbn [e_id e_attr e_rule source target e_set_rule Edge_init fst snd].
    rewrite nth_drop, Nat.sub_0_r. rewrite nth_drop in Hst.
    split; [done|]. split; [done|]. split; [done|].
    rewrite Hst. f_equal. f_equal; lia.
Qed.

(** A loaded graph has no attr set, and ids are positions. *)
Lemma read_input_file_unset (f : list string) g :
  read_input_file f = Ok g → all_unset g.
Proof.
  intros Hf. destruct (read_input_file_phases _ _ Hf) as (nv & ne & gE & Hh & He & ->).
  destruct (read_edges_shape _ _ _ _ _ He) as (_ & Hk & es & Hes & Hl & Hen).
  destruct (add_vertices_length nv) as [HlV HeV]. rewrite HeV in Hes. simpl in Hes.
  destruct (read_vertex_rules_shape (Z.to_nat nv) 0 (drop (3 + Z.to_nat ne) f) gE)
    as (_ & He2 & Hv2).
  set (g2 := (read_vertex_rules (seq 0 (Z.to_nat nv)) (drop (3 + Z.to_nat ne) f) gE).1) in *.
  destruct (read_edge_rules_shape (Z.to_nat ne) 0
              (drop (3 + Z.to_nat ne + Z.to_nat nv) f) g2) as (Hv3 & He3).
  split; apply Forall_lookup.
  - intros p v Hp. rewrite Hv3, Hv2 in Hp.
    destruct (vertices gE !! p) as [vE|] eqn:HpE; [|done]. simpl in Hp.
    destruct (Forall2_lookup_r _ _ _ _ _ Hk HpE) as (vV & HpV & (Hid & Ha & Hr)).
    apply add_vertices_lookup in HpV as [_ ->]. simpl in *.
    injection Hp as <-. by case_decide.
  - intros k e Hke. rewrite He3, He2, Hes in Hke.
    destruct (es !! k) as [eE|] eqn:HkE; [|done]. simpl in Hke.
    pose proof (lookup_lt_Some _ _ _ HkE) as Hlt. rewrite Hl, length_seq in Hlt.
    destruct (Hen k k eE) as (st & Hst & ->); [apply lookup_seq; lia|done|].
    injection Hke as <-. by case_decide.
Qed.

End Loaded2.

(** Scenario A: two vertices, one edge from vertex 0 to vertex 1. *)
Lemma read_input_file_shape_witness :
  ∃ nv ne,
    read_pair (nth 0 scenario_A "") = Ok (nv, ne)
    ∧ length (vertices (load scenario_A)) = Z.to_nat nv
    ∧ length (edges (load scenario_A)) = Z.to_nat ne
    ∧ (∀ p v, vertices (load scenario_A) !! p = Some v →
         v_id v = Z.of_nat p ∧ v_attr v = None
         ∧ v_rule v = Some (strip (nth (3 + Z.to_nat ne + p) scenario_A "")))
    ∧ (∀ k e, edges (load scenario_A) !! k = Some e →
         e_id e = Z.of_nat k ∧ e_attr e = None
         ∧ e_rule e
           = Some (strip (nth (3 + Z.to_nat ne + Z.to_nat nv + k) scenario_A ""))
         ∧ read_pair (nth (2 + k) scenario_A "")
           = Ok (source e + 1, target e + 1)).
Proof.
  apply (read_input_file_shape (float:=float) scenario_A).
  vm_compute. reflexivity.
Defined.

(** ** The edge lists of a loaded graph *)

Section Adjacency.
Context {float : Type} `{!PyFloat float}.
Implicit Types (g : AnnotatedGraph float) (v : Vertex float) (e : Edge float).

Lemma positions_app (P : Edge float → bool) (k : nat) (l : list (Edge float)) e :
  positions P k (l ++ [e])
  = (positions P k l ++ if P e then [(k + length l)%nat] else [])%list.
Proof.
  revert k. induction l as [|a l IH]; intros k; simpl.
  - rewrite Nat.add_0_r. by destruct (P e).
  - rewrite IH. replace (S k + length l)%nat with (k + S (length l))%nat by lia.
    by destruct (P a).
Qed.

Lemma positions_ext (P : Edge float → bool) (k : nat) (l l' : list (Edge float)) :
  Forall2 (λ e e', P e = P e') l l' → positions P k l = positions P k l'.
Proof.
  intros Hl. revert k. induction Hl as [|a a' l l' Ha _ IH]; intros k; [done|].
  simpl. rewrite Ha, IH. done.
Qed.

Lemma add_edge_lookup e g (p : nat) :
  vertices (add_edge e g) !! p =
    (λ v,
       let v1 := if decide (vertex_map g !! source e = Some p)
                 then add_out_edge (length (edges g)) v else v in
       if decide (vertex_map g !! target e = Some p)
       then add_in_edge (length (edges g)) v1 else v1)
      <$> vertices g !! p.
Proof.
  unfold add_edge. simpl.
  destruct (vertex_map g !! source e) as [ps|] eqn:Hs;
    destruct (vertex_map g !! target e) as [pt|] eqn:Ht; simpl;
    rewrite ?Hs, ?Ht; simpl.
  - destruct (decide (ps = p)) as [->|Hps]; destruct (decide (pt = p)) as [->|Hpt];
      rewrite ?list_lookup_alter_eq, ?list_lookup_alter_ne by done;
      rewrite ?list_lookup_alter_eq, ?list_lookup_alter_ne by done;
      destruct (vertices g !! p); simpl; [|done| |done| |done| |done];
      repeat case_decide; simplify_eq; done.
  - destruct (decide (ps = p)) as [->|Hps];
      rewrite ?list_lookup_alter_eq, ?list_lookup_alter_ne by done;
      destruct (vertices g !! p); simpl; [|done| |done];
      repeat case_decide; simplify_eq; done.
  - destruct (decide (pt = p)) as [->|Hpt];
      rewrite ?list_lookup_alter_eq, ?list_lookup_alter_ne by done;
      destruct (vertices g !! p); simpl; [|done| |done];
      repeat case_decide; simplify_eq; done.
  - destruct (vertices g !! p); simpl; [|done].
    repeat case_decide; simplify_eq; done.
Qed.

(** With the keys [0 .. NV-1], an id is mapped to the vertex [p] exactly
    when it is [p]. *)
Lemma keys_in_range_lookup g (j : Z) (p : nat) :
  keys_in_range g → (p < length (vertices g))%nat →
  vertex_map g !! j = Some p ↔ j = Z.of_nat p.
Proof.
  intros Hk Hp. rewrite Hk. case_decide as Hj; split.
  - intros [= <-]. lia.
  - intros ->. by rewrite Nat2Z.id.
  - done.
  - intros ->. lia.
Qed.

Lemma add_edge_wired e g : keys_in_range g → wired g → wired (add_edge e g).
Proof.
  intros Hk Hw p v' Hp. rewrite add_edge_lookup in Hp.
  destruct (vertices g !! p) as [v|] eqn:Hv; [|done]. simpl in Hp.
  pose proof (lookup_lt_Some _ _ _ Hv) as Hlt.
  destruct (Hw p v Hv) as [Hin Hout].
  rewrite add_edge_edges, !positions_app. simpl.
  injection Hp as <-.
  destruct (decide (vertex_map g !! source e = Some p)) as [Hs|Hs];
    destruct (decide (vertex_map g !! target e = Some p)) as [Ht|Ht];
    rewrite (keys_in_range_lookup _ _ _ Hk Hlt) in Hs;
    rewrite (keys_in_range_lookup _ _ _ Hk Hlt) in Ht;
    simpl; rewrite Hin, Hout.
  - apply Z.eqb_eq in Hs, Ht. by rewrite Hs, Ht.
  - apply Z.eqb_eq in Hs. apply Z.eqb_neq in Ht. rewrite Hs, Ht. by rewrite app_nil_r.
  - apply Z.eqb_neq in Hs. apply Z.eqb_eq in Ht. rewrite Hs, Ht. by rewrite app_nil_r.
  - apply Z.eqb_neq in Hs, Ht. rewrite Hs, Ht. by rewrite !app_nil_r.
Qed.

Lemma read_edges_wired ids f g g' f' :
  read_edges ids f g = Ok (g', f') → keys_in_range g → wired g → wired g'.
Proof.
  revert f g. induction ids as [|i ids IH]; intros f g; simpl.
  - by intros [= <- <-].
  - destruct (readline f) as [line f1]. destruct (read_pair line) as [st|err]; simpl; [|done].
    intros Hr Hk Hw. eapply IH; [exact Hr|by apply add_edge_keys|by apply add_edge_wired].
Qed.

Lemma add_vertices_wired (nv : Z) :
  wired (add_vertices nv (@AnnotatedGraph_init float)).
Proof.
  intros p v Hp. destruct (add_vertices_length (float:=float) nv) as [_ He].
  rewrite He. by apply add_vertices_lookup in Hp as [_ ->].
Qed.

(** [wired] looks at the edge lists and the endpoints only. *)
Lemma wired_same g g' :
  Forall2 (λ v v', in_edges v' = in_edges v ∧ out_edges v' = out_edges v)
    (vertices g) (vertices g') →
  Forall2 (λ e e', source e' = source e ∧ target e' = target e)
    (edges g) (edges g') →
  wired g → wired g'.
Proof.
  intros Hv He Hw p v' Hp.
  destruct (Forall2_lookup_r _ _ _ _ _ Hv Hp) as (v & Hpv & Hin & Hout).
  destruct (Hw p v Hpv) as [Hi Ho]. rewrite Hin, Hout, Hi, Ho.
  split; apply positions_ext; (eapply Forall2_impl; [exact He|]);
    intros e e' [Hs Ht]; simpl; congruence.
Qed.

Lemma read_input_file_wired (f : list string) g :
  read_input_file f = Ok g → wired g.
Proof.
  intros Hf. destruct (read_input_file_phases _ _ Hf) as (nv & ne & gE & Hh & He & ->).
  assert (wired gE) as HwE.
  { eapply read_edges_wired; [exact He| |apply add_vertices_wired].
    apply add_vertices_keys; [apply keys_in_range_init|done]. }
  destruct (read_vertex_rules_shape (Z.to_nat nv) 0 (drop (3 + Z.to_nat ne) f) gE)
    as (_ & He2 & Hv2).
  set (g2 := (read_vertex_rules (seq 0 (Z.to_nat nv)) (drop (3 + Z.to_nat ne) f) gE).1) in *.
  destruct (read_edge_rules_shape (Z.to_nat ne) 0
              (drop (3 + Z.to_nat ne + Z.to_nat nv) f) g2) as (Hv3 & He3).
  eapply wired_same; [| |exact HwE].
  - rewrite Hv3. apply Forall2_same_length_lookup_2.
    + symmetry. apply (lookup_fmap_length _ _ _ Hv2).
    + intros p v v' Hp Hp'. rewrite Hv2, Hp in Hp'. simpl in Hp'.
      injection Hp' as <-. by case_decide.
  - apply Forall2_same_length_lookup_2.
    + rewrite (lookup_fmap_length _ _ _ He3). by rewrite He2.
    + intros k e e' Hk Hk'. rewrite He3, He2, Hk in Hk'. simpl in Hk'.
      injection Hk' as <-. by case_decide.
Qed.

(** X5 (edge lists): in a loaded graph, and in every graph reached from it
    by evaluation, [in_edges] of the vertex with id p lists exactly the
    edges whose target is p, and [out_edges] the edges whose source is p,
    each in ascending order of edge id. *)
Theorem edge_lists_of_loaded_graph (f : list string) g0 g :
  read_input_file f = Ok g0 →
  rtc step g0 g →
  ∀ p v, vertices g !! p = Some v →
    in_edges v = positions (λ e, target e =? Z.of_nat p) 0 (edges g)
    ∧ out_edges v = positions (λ e, source e =? Z.of_nat p) 0 (edges g).
Proof.
  intros Hf Hs. pose proof (read_input_file_wired _ _ Hf) as Hw.
  destruct (steps_same _ _ Hs) as (_ & Hv & He).
  eapply wired_same; [| |exact Hw].
  - eapply Forall2_impl; [exact Hv|]. by intros v v' (_ & _ & ? & ?).
  - eapply Forall2_impl; [exact He|]. by intros e e' (_ & ? & ? & _).
Qed.

End Adjacency.

(** Scenario C at the end of the run: edge 0 runs into vertex 0 and edge 1
    out of it. *)
Lemma edge_lists_of_loaded_graph_witness :
  ∃ v, vertices (execute (load scenario_C)).2 !! 0%nat = Some v
       ∧ in_edges v = [0%nat] ∧ out_edges v = [1%nat].
Proof.
  destruct (vertices (execute (load scenario_C)).2 !! 0%nat) as [v|] eqn:Hv;
    [|vm_compute in Hv; discriminate].
  exists v. split; [done|].
  destruct (edge_lists_of_loaded_graph (float:=float) scenario_C (load scenario_C)
              (execute (load scenario_C)).2) with (p := 0%nat) (v := v)
    as [Hin Hout].
  - vm_compute. reflexivity.
  - apply (execute_loop_steps 3 _ (Ok 2%nat)). vm_compute. reflexivity.
  - exact Hv.
  - rewrite Hin, Hout. vm_compute. done.
Defined.

(** ** Lookups and rules on graphs reached from a loaded graph *)

Section ReachedRules.
Context {float : Type} `{!PyFloat float}.
Implicit Types (g : AnnotatedGraph float) (v : Vertex float) (e : Edge float).

Lemma read_input_file_ids (f : list string) g :
  read_input_file f = Ok g →
  ∀ p v, vertices g !! p = Some v → v_id v = Z.of_nat p.
Proof.
  intros Hf p v Hp.
  destruct (read_input_file_phases _ _ Hf) as (nv & ne & gE & Hh & He & ->).
  destruct (read_edges_shape _ _ _ _ _ He) as (_ & Hk & _).
  destruct (read_vertex_rules_shape (Z.to_nat nv) 0 (drop (3 + Z.to_nat ne) f) gE)
    as (_ & _ & Hv2).
  set (g2 := (read_vertex_rules (seq 0 (Z.to_nat nv)) (drop (3 + Z.to_nat ne) f) gE).1) in *.
  destruct (read_edge_rules_shape (Z.to_nat ne) 0
              (drop (3 + Z.to_nat ne + Z.to_nat nv) f) g2) as (Hv3 & _).
  rewrite Hv3, Hv2 in Hp.
  destruct (vertices gE !! p) as [vE|] eqn:HpE; [|done]. simpl in Hp.
  destruct (Forall2_lookup_r _ _ _ _ _ Hk HpE) as (vV & HpV & (Hid & _)).
  apply add_vertices_lookup in HpV as [_ ->]. simpl in Hid.
  injection Hp as <-. by case_decide.
Qed.

(** X6 ([get_vertex] after loading): in a loaded graph, and in every graph
    reached from it by evaluation, [get_vertex] on an id in [0 .. NV-1]
    returns the vertex that has this id, and on any other id it raises
    [KeyError]. *)
Theorem get_vertex_of_loaded_graph (f : list string) g0 g (j : Z) :
  read_input_file f = Ok g0 →
  rtc step g0 g →
  (0 ≤ j < Z.of_nat (length (vertices g)) →
   ∃ p v, get_vertex j g = Ok p ∧ vertices g !! p = Some v ∧ v_id v = j)
  ∧ (¬ (0 ≤ j < Z.of_nat (length (vertices g))) →
     get_vertex j g = Raise KeyError).
Proof.
  intros Hf Hs. pose proof (reached_keys _ _ _ Hf Hs) as Hk.
  rewrite (keys_in_range_get_vertex _ _ Hk). split; intros Hj.
  - rewrite decide_True by done.
    destruct (lookup_lt_is_Some_2 (vertices g) (Z.to_nat j)) as [v Hv]; [lia|].
    exists (Z.to_nat j), v. split; [done|]. split; [done|].
    destruct (steps_same _ _ Hs) as (_ & Hsv & _).
    destruct (Forall2_lookup_r _ _ _ _ _ Hsv Hv) as (v0 & Hv0 & (Hid & _)).
    rewrite Hid, (read_input_file_ids _ _ Hf _ _ Hv0). lia.
  - by rewrite decide_False.
Qed.

Lemma py_min_elem (xs : list float) (y : float) : py_min xs = Ok y → y ∈ xs.
Proof.
  destruct xs as [|x xs]; [done|]. simpl. intros [= <-].
  assert (∀ b, fold_left (λ best z, if flt z best then z else best) xs b ∈ b :: xs) as Hfold.
  { induction xs as [|z xs IH]; intros b; simpl; [apply list_elem_of_here|].
    destruct (flt z b).
    - apply list_elem_of_further. apply IH.
    - specialize (IH b). apply elem_of_cons in IH as [->|IH].
      + apply list_elem_of_here.
      + by do 2 apply list_elem_of_further. }
  apply Hfold.
Qed.

(** X7 (rule [min]): an unset vertex with the rule text [min] and at least
    one incoming edge gets an attr exactly when every incoming edge has a
    set attr; the attr is then [min] of those attrs, which is one of them;
    otherwise nothing is written. No error is raised. *)
Theorem min_rule g (p : nat) v (text : string) :
  vertices g !! p = Some v →
  v_attr v = None →
  v_rule v = Some text →
  float_of_string (float:=float) text = None →
  split text = ["min"] →
  in_edges v ≠ [] →
  ∃ g',
    _compute_vertex_attr p g = (Ok tt, g')
    ∧ (∀ y, vertex_attr g' p = Some y ↔
            ∃ xs, map (edge_attr g) (in_edges v) = map Some xs
                  ∧ py_min xs = Ok y)
    ∧ (∀ y, vertex_attr g' p = Some y →
            Some y ∈ map (edge_attr g) (in_edges v))
    ∧ (vertex_attr g' p = None → g' = g).
Proof.
  intros Hp Ha Hr Hf Hs Hin.
  assert (vertex_attr g p = None) as Hnone by (unfold vertex_attr; by rewrite Hp).
  unfold _compute_vertex_attr, bind, reads, lift, modify, ret. simpl.
  unfold vertex_rule, vertex_in_edges. rewrite Hp. simpl.
  rewrite Hr, (parse_rule_tokens _ Hf), Hs. simpl. rewrite Hp. simpl.
  destruct (all_set (attrs_of g (in_edges v))) eqn:Hall.
  - pose proof (all_set_values _ Hall) as Hxs. unfold attrs_of in Hxs.
    destruct (values (attrs_of g (in_edges v))) as [|x xs] eqn:Hval.
    { unfold attrs_of in Hval. rewrite Hval in Hxs. simpl in Hxs.
      symmetry in Hxs. apply map_eq_nil in Hxs. done. }
    unfold attrs_of in Hval. rewrite Hval in Hxs. simpl py_min.
    set (y0 := fold_left (λ best z, if flt z best then z else best) xs x).
    assert (py_min (x :: xs) = Ok y0) as Hmin by done.
    assert (vertex_attr (set_vertex_attr p y0 g) p = Some y0) as Hset.
    { unfold vertex_attr, set_vertex_attr. simpl.
      by rewrite list_lookup_alter_eq, Hp. }
    eexists. split; [done|]. rewrite Hset. split; [|split; [|done]].
    + intros y. split.
      * intros [= <-]. by exists (x :: xs).
      * intros (xs' & Hxs' & Hy). rewrite <- Hxs in Hxs'.
        apply (inj (map Some)) in Hxs'. subst xs'. congruence.
    + intros y [= <-]. rewrite <- Hxs.
      apply list_elem_of_fmap. exists y0. split; [done|]. by apply py_min_elem.
  - exists g. split; [done|]. rewrite Hnone. split; [|split; [done|done]].
    intros y. split; [done|]. intros (xs & Hxs & _).
    unfold attrs_of in Hall. by rewrite Hxs, all_set_map_Some in Hall.
Qed.

End ReachedRules.

Section CopyRule.
Context {float : Type} `{!PyFloat float}.
Implicit Types (g : AnnotatedGraph float) (v : Vertex float) (e : Edge float).

Lemma getitem_inside {A} (l : list A) (j : Z) :
  0 ≤ j < Z.of_nat (length l) →
  ∃ a, l !! Z.to_nat j = Some a ∧ getitem l j = Ok a.
Proof.
  intros Hj. destruct (lookup_lt_is_Some_2 l (Z.to_nat j)) as [a Ha]; [lia|].
  exists a. split; [done|]. unfold getitem.
  replace (j <? 0) with false by (symmetry; apply Z.ltb_ge; lia).
  rewrite (proj2 (andb_true_iff _ _)) by (split; [apply Z.leb_le|apply Z.ltb_lt]; lia).
  by rewrite Ha.
Qed.

(** X8 (copy rules, indices from 1): in a graph reached by evaluation from
    a loaded graph, a rule [v n] with [1 <= n <= NV] copies from the vertex
    with id [n - 1], and a rule [e n] with [1 <= n <= NE] from the edge
    with id [n - 1]: the evaluation raises no error; when the attr of that
    entity is set, the vertex or edge that is evaluated has it as its attr
    afterwards and every other attr is as before; when it is unset,
    nothing is written.  Tokens after the second are ignored. *)
Theorem copy_rule_in_range
  (f : list string) g0 g (text tok : string) (rest : list string) (n : Z) :
  read_input_file f = Ok g0 →
  rtc step g0 g →
  float_of_string (float:=float) text = None →
  int_of_string tok = Some n →
  (split text = "v" :: tok :: rest →
   1 ≤ n ≤ Z.of_nat (length (vertices g)) →
   (∀ p, vertex_rule g p = Some text →
      ∃ g', _compute_vertex_attr p g = (Ok tt, g')
        ∧ match vertex_attr g (Z.to_nat (n - 1)) with
          | Some x =>
              g' = set_vertex_attr p x g
              ∧ vertex_attr g' p = Some x
              ∧ (∀ q, q ≠ p → vertex_attr g' q = vertex_attr g q)
              ∧ (∀ k, edge_attr g' k = edge_attr g k)
          | None => g' = g
          end)
   ∧ (∀ k, edge_rule g k = Some text →
        ∃ g', _compute_edge_attr k g = (Ok tt, g')
          ∧ match vertex_attr g (Z.to_nat (n - 1)) with
            | Some x =>
                g' = set_edge_attr k x g
                ∧ edge_attr g' k = Some x
                ∧ (∀ k', k' ≠ k → edge_attr g' k' = edge_attr g k')
                ∧ (∀ q, vertex_attr g' q = vertex_attr g q)
            | None => g' = g
            end))
  ∧ (split text = "e" :: tok :: rest →
     1 ≤ n ≤ Z.of_nat (length (edges g)) →
     (∀ p, vertex_rule g p = Some text →
        ∃ g', _compute_vertex_attr p g = (Ok tt, g')
          ∧ match edge_attr g (Z.to_nat (n - 1)) with
            | Some x =>
                g' = set_vertex_attr p x g
                ∧ vertex_attr g' p = Some x
                ∧ (∀ q, q ≠ p → vertex_attr g' q = vertex_attr g q)
                ∧ (∀ k, edge_attr g' k = edge_attr g k)
            | None => g' = g
            end)
     ∧ (∀ k, edge_rule g k = Some text →
          ∃ g', _compute_edge_attr k g = (Ok tt, g')
            ∧ match edge_attr g (Z.to_nat (n - 1)) with
              | Some x =>
                  g' = set_edge_attr k x g
                  ∧ edge_attr g' k = Some x
                  ∧ (∀ k', k' ≠ k → edge_attr g' k' = edge_attr g k')
                  ∧ (∀ q, vertex_attr g' q = vertex_attr g q)
              | None => g' = g
              end)).
Proof.
  intros Hf Hs Hfl Hi. pose proof (reached_keys _ _ _ Hf Hs) as Hk.
  split; intros Hsp Hn.
  - assert (_parse_rule (float:=float) (Some text) = Ok (RTuple "v" (n - 1))) as Hp
      by (by rewrite (parse_rule_tokens _ Hfl), Hsp, Hi).
    split.
    + intros p Hr. rewrite <- Hr in Hp.
      rewrite (compute_vertex_copy_vertex _ _ _ Hp).
      rewrite (keys_in_range_get_vertex _ _ Hk). rewrite decide_True by lia.
      destruct (vertex_attr g (Z.to_nat (n - 1))) as [x|];
        eexists; (split; [reflexivity|]); [|done].
      split; [done|]. by apply (set_vertex_attr_seen _ _ _ text).
    + intros k Hr. rewrite <- Hr in Hp.
      rewrite (compute_edge_copy_vertex _ _ _ Hp).
      rewrite (keys_in_range_get_vertex _ _ Hk). rewrite decide_True by lia.
      destruct (vertex_attr g (Z.to_nat (n - 1))) as [x|];
        eexists; (split; [reflexivity|]); [|done].
      split; [done|]. by apply (set_edge_attr_seen _ _ _ text).
  - assert (_parse_rule (float:=float) (Some text) = Ok (RTuple "e" (n - 1))) as Hp
      by (by rewrite (parse_rule_tokens _ Hfl), Hsp, Hi).
    destruct (getitem_inside (edges g) (n - 1)) as (e & He & Hg); [lia|].
    assert (edge_attr g (Z.to_nat (n - 1)) = e_attr e) as Hea
      by (unfold edge_attr; by rewrite He).
    split.
    + intros p Hr. rewrite <- Hr in Hp.
      rewrite (compute_vertex_copy_edge _ _ _ Hp), Hg, Hea.
      destruct (e_attr e) as [x|]; eexists; (split; [reflexivity|]); [|done].
      split; [done|]. by apply (set_vertex_attr_seen _ _ _ text).
    + intros k Hr. rewrite <- Hr in Hp.
      rewrite (compute_edge_copy_edge _ _ _ Hp), Hg, Hea.
      destruct (e_attr e) as [x|]; eexists; (split; [reflexivity|]); [|done].
      split; [done|]. by apply (set_edge_attr_seen _ _ _ text).
Qed.

End CopyRule.

(** ** The turn of an entity in a round *)

Section Turns.
Context {float : Type} `{!PyFloat float}.
Implicit Types (g : AnnotatedGraph float) (v : Vertex float) (e : Edge float).

Lemma compute_edge_frame_edge k k' g r g' :
  k ≠ k' → _compute_edge_attr k g = (r, g') → edge_attr g' k' = edge_attr g k'.
Proof.
  intros Hne Hc.
  destruct (compute_edge_shape _ _ _ _ Hc) as [->|[_ [x ->]]]; [done|].
  by apply set_edge_attr_other.
Qed.

Lemma edge_pass_frame_edge ks k' c g :
  k' ∉ ks → edge_attr (edge_pass ks c g).2 k' = edge_attr g k'.
Proof.
  revert c g. induction ks as [|k ks IH]; intros c g Hk; [done|].
  apply not_elem_of_cons in Hk as [Hne Hk].
  simpl. unfold bind, reads. simpl.
  destruct (edge_attr g k); [by apply IH|].
  destruct (_compute_edge_attr k g) as [[[]|err] g1] eqn:Hc; simpl.
  - rewrite IH by done. eapply compute_edge_frame_edge; [|exact Hc]. done.
  - eapply compute_edge_frame_edge; [|exact Hc]. done.
Qed.

Lemma edge_pass_app ks ls c g :
  edge_pass (ks ++ ls) c g = bind (edge_pass ks c) (edge_pass ls) g.
Proof.
  revert c g. induction ks as [|k ks IH]; intros c g; [done|].
  simpl. unfold bind, reads. simpl.
  destruct (edge_attr g k); [apply IH|].
  destruct (_compute_edge_attr k g) as [[[]|err] g1]; [apply IH|done].
Qed.

(** A pass that returned [false] from a graph it left unchanged went
    through that graph only. *)
Lemma pass_post_false_true c g res :
  pass_post c g res → res.1 = Ok true → c = false →
  (unset_count res.2 < unset_count g)%nat.
Proof.
  intros [_ Hr] Hres ->. rewrite Hres in Hr. by destruct Hr.
Qed.

(** Steps that come back to the graph they started from wrote nothing. *)
Lemma steps_cycle g g1 : rtc step g g1 → rtc step g1 g → g1 = g.
Proof.
  intros Hab Hba. induction Hab as [g|g ga g1 Hstep Hrest IH]; [done|].
  assert (ga = g) as ->.
  { assert (rtc step ga g) as Hag by (by etrans).
    pose proof (grows_unset_count _ _ (steps_grows _ _ Hag)).
    pose proof (grows_unset_count _ _ (step_grows _ _ Hstep)).
    destruct Hstep as [p r Hp Hc|k' r Hk' Hc].
    - destruct (compute_vertex_unset _ _ _ _ Hp Hc) as [->|(_ & _ & _ & Hlt)]; [done|lia].
    - destruct (compute_edge_unset _ _ _ _ Hk' Hc) as [->|(_ & _ & _ & Hlt)]; [done|lia]. }
  by apply IH.
Qed.

(** The round in two passes. *)
Lemma round_passes g c g' :
  round g = (Ok c, g') →
  ∃ cv gv,
    vertex_pass (seq 0 (length (vertices g))) false g = (Ok cv, gv)
    ∧ edge_pass (seq 0 (length (edges g))) cv gv = (Ok c, g').
Proof.
  unfold round, bind, reads. simpl. intros Hr.
  pose proof (vertex_pass_post (seq 0 (length (vertices g))) false g) as [Hg _].
  destruct (vertex_pass _ false g) as [[cv|err] gv]; [|done].
  exists cv, gv. split; [done|]. simpl in Hg.
  destruct (grows_lengths _ _ Hg) as [_ <-]. done.
Qed.

(** The turn of the vertex [q] in a round that returns: it is evaluated,
    without an error, in a graph [g1] reached from the start of the round,
    where it is still unset; the round goes on from the graph [g2] the
    evaluation leaves.  In a round without assignment both are the graph
    of the start. *)
Lemma vertex_turn_in_round g c g' (q : nat) :
  round g = (Ok c, g') →
  (q < length (vertices g))%nat →
  vertex_attr g q = None →
  ∃ g1 g2,
    rtc step g g1
    ∧ vertex_attr g1 q = None
    ∧ _compute_vertex_attr q g1 = (Ok tt, g2)
    ∧ rtc step g2 g'
    ∧ (c = false → g1 = g ∧ g2 = g).
Proof.
  intros Hr Hq Hnone. pose proof Hr as Hr0.
  destruct (round_passes _ _ _ Hr) as (cv & gv & Hv & He).
  pose proof (edge_pass_steps (seq 0 (length (edges g))) cv gv) as Hse.
  rewrite He in Hse. simpl in Hse.
  rewrite (seq_turn _ q Hq) in Hv.
  destruct (vertex_pass_turn _ _ _ _ _ _ _ Hv)
    as (c1 & g1 & g2 & Hv1 & Hq1 & Hcq & _ & _);
    [apply not_elem_of_seq; lia|done|].
  pose proof (vertex_pass_steps (seq 0 q) false g) as Hs1.
  pose proof (vertex_pass_post (seq 0 q) false g) as Hp1.
  rewrite Hv1 in Hs1, Hp1. simpl in Hs1.
  assert (rtc step g2 gv) as Hs2.
  { revert Hv. rewrite vertex_pass_app. unfold bind. rewrite Hv1. simpl.
    unfold bind, reads. simpl. rewrite Hq1, Hcq.
    intros Hv.
    pose proof (vertex_pass_steps (seq (S q) (length (vertices g) - S q))
      (match vertex_attr g2 q with Some _ => true | None => c1 end) g2) as Hs.
    by rewrite Hv in Hs. }
  exists g1, g2. split; [done|]. split; [done|]. split; [done|].
  split; [by etrans|].
  intros ->. apply round_unchanged in Hr0 as ->.
  assert (rtc step g2 g) as Hs2g by (by etrans).
  assert (rtc step g1 g) as Hs1g.
  { etrans; [|exact Hs2g]. apply rtc_once. by eapply step_vertex. }
  assert (g1 = g) as ->.
  { destruct Hp1 as [_ Hc1]. simpl in Hc1. destruct c1; [|by destruct Hc1].
    destruct Hc1 as [|Hlt]; [done|].
    pose proof (grows_unset_count _ _ (steps_grows _ _ Hs1g)). lia. }
  split; [done|].
  destruct (compute_vertex_unset _ _ _ _ Hq1 Hcq) as [->|(_ & _ & _ & Hlt)]; [done|].
  pose proof (grows_unset_count _ _ (steps_grows _ _ Hs2g)). lia.
Qed.

(** The turn of the edge [k]. *)
Lemma edge_pass_turn ks k ls c g c' g' :
  edge_pass (ks ++ k :: ls) c g = (Ok c', g') →
  k ∉ ks → edge_attr g k = None →
  ∃ c1 g1 g2,
    edge_pass ks c g = (Ok c1, g1)
    ∧ edge_attr g1 k = None
    ∧ _compute_edge_attr k g1 = (Ok tt, g2)
    ∧ rtc step g2 g'.
Proof.
  intros Hp Hk Hnone. rewrite edge_pass_app in Hp. unfold bind in Hp.
  pose proof (edge_pass_frame_edge ks k c g Hk) as Hf1.
  destruct (edge_pass ks c g) as [[c1|err] g1]; [|done]. simpl in Hf1.
  exists c1, g1. simpl in Hp. unfold bind, reads in Hp. simpl in Hp.
  rewrite Hf1, Hnone in Hp.
  destruct (_compute_edge_attr k g1) as [[[]|err] g2] eqn:Hc; [|done].
  exists g2.
  pose proof (edge_pass_steps ls
    (match edge_attr g2 k with Some _ => true | None => c1 end) g2) as Hs2.
  rewrite Hp in Hs2. simpl in Hs2.
  split; [done|]. split; [by rewrite Hf1|]. done.
Qed.

Lemma vertex_pass_frame_edge ps k c g :
  edge_attr (vertex_pass ps c g).2 k = edge_attr g k.
Proof.
  revert c g. induction ps as [|p ps IH]; intros c g; [done|].
  simpl. unfold bind, reads. simpl.
  destruct (vertex_attr g p); [by apply IH|].
  destruct (_compute_vertex_attr p g) as [[[]|err] g1] eqn:Hc; simpl.
  - rewrite IH. by destruct (compute_vertex_shape _ _ _ _ Hc) as [->|[_ [x ->]]].
  - by destruct (compute_vertex_shape _ _ _ _ Hc) as [->|[_ [x ->]]].
Qed.

Lemma edge_turn_in_round g c g' (k : nat) :
  round g = (Ok c, g') →
  (k < length (edges g))%nat →
  edge_attr g k = None →
  ∃ g1 g2,
    rtc step g g1
    ∧ edge_attr g1 k = None
    ∧ _compute_edge_attr k g1 = (Ok tt, g2)
    ∧ rtc step g2 g'
    ∧ (c = false → g1 = g ∧ g2 = g).
Proof.
  intros Hr Hk Hnone. pose proof Hr as Hr0.
  destruct (round_passes _ _ _ Hr) as (cv & gv & Hv & He).
  pose proof (vertex_pass_steps (seq 0 (length (vertices g))) false g) as Hsv.
  pose proof (vertex_pass_frame_edge (seq 0 (length (vertices g))) k false g) as Hfv.
  rewrite Hv in Hsv, Hfv. simpl in Hsv, Hfv.
  rewrite (seq_turn _ k Hk) in He.
  destruct (edge_pass_turn _ _ _ _ _ _ _ He)
    as (c1 & g1 & g2 & He1 & Hk1 & Hck & Hs2);
    [apply not_elem_of_seq; lia|by rewrite Hfv|].
  pose proof (edge_pass_steps (seq 0 k) cv gv) as Hs1.
  rewrite He1 in Hs1. simpl in Hs1.
  assert (rtc step g g1) as Hsg1 by (by etrans).
  exists g1, g2. split; [done|]. split; [done|]. split; [done|].
  split; [done|].
  intros ->. apply round_unchanged in Hr0 as ->.
  assert (rtc step g1 g) as Hs1g.
  { etrans; [|exact Hs2]. apply rtc_once. by eapply step_edge. }
  split.
  - by apply steps_cycle.
  - apply steps_cycle; [|done].
    etrans; [exact Hsg1|]. apply rtc_once. by eapply step_edge.
Qed.

End Turns.

(** ** When an evaluation raises *)

Section Raises.
Context {float : Type} `{!PyFloat float}.
Implicit Types (g : AnnotatedGraph float) (v : Vertex float) (e : Edge float).

Lemma getitem_in_range {A} (l : list A) (j : Z) :
  - Z.of_nat (length l) ≤ j < Z.of_nat (length l) → ∃ a, getitem l j = Ok a.
Proof.
  intros Hj. unfold getitem.
  destruct (j <? 0) eqn:Hneg; [apply Z.ltb_lt in Hneg|apply Z.ltb_ge in Hneg].
  - rewrite (proj2 (andb_true_iff _ _)) by (split; [apply Z.leb_le|apply Z.ltb_lt]; lia).
    destruct (lookup_lt_is_Some_2 l (Z.to_nat (j + Z.of_nat (length l)))) as [a ->]; [lia|].
    by exists a.
  - rewrite (proj2 (andb_true_iff _ _)) by (split; [apply Z.leb_le|apply Z.ltb_lt]; lia).
    destruct (lookup_lt_is_Some_2 l (Z.to_nat j)) as [a ->]; [lia|].
    by exists a.
Qed.

Lemma getitem_raises {A} (l : list A) (j : Z) :
  (∃ err, getitem l j = Raise err)
  ↔ ¬ (- Z.of_nat (length l) ≤ j < Z.of_nat (length l)).
Proof.
  split.
  - intros [err Hr] Hj. destruct (getitem_in_range l j Hj) as [a Ha]. congruence.
  - intros Hj. exists IndexError. by apply getitem_outside.
Qed.

Lemma all_set_values_nil (xs : list (option float)) :
  all_set xs = true → values xs = [] → xs = [].
Proof.
  intros Hall Hv. apply all_set_values in Hall. rewrite Hv in Hall. done.
Qed.

(** The evaluation of a vertex raises exactly under [vertex_raises], and
    then it leaves the graph as it is. *)
Lemma compute_vertex_raises g (q : nat) :
  (∃ err g2, _compute_vertex_attr q g = (Raise err, g2)) ↔ vertex_raises g q.
Proof.
  unfold vertex_raises, _compute_vertex_attr, bind, reads, lift, modify, ret,
    copy_to_vertex. simpl.
  destruct (_parse_rule (vertex_rule g q)) as [[x|s|s j]|err]; simpl.
  - split; [by intros (? & ? & ?)|done].
  - destruct (String.eqb s "min"); [|split; [by intros (? & ? & ?)|done]].
    destruct (all_set (attrs_of g (vertex_in_edges g q))) eqn:Hall.
    + destruct (values (attrs_of g (vertex_in_edges g q))) as [|x xs] eqn:Hval; simpl.
      * split; [|by eauto]. intros _.
        pose proof (all_set_values_nil _ Hall Hval) as Hnil.
        unfold attrs_of in Hnil. by apply map_eq_nil in Hnil.
      * split; [by intros (? & ? & ?)|]. intros Hin.
        rewrite Hin in Hval. done.
    + split; [by intros (? & ? & ?)|]. intros Hin. rewrite Hin in Hall. done.
  - destruct (String.eqb s "v").
    + unfold get_vertex. destruct (vertex_map g !! j) as [p|]; simpl.
      * destruct (vertex_attr g p); simpl; (split; [by intros (? & ? & ?)|done]).
      * split; [done|by eauto].
    + destruct (String.eqb s "e"); [|split; [by intros (? & ? & ?)|done]].
      rewrite <- getitem_raises.
      destruct (getitem (edges g) j) as [e|err]; simpl.
      * destruct (e_attr e); simpl;
          (split; [by intros (? & ? & ?)|by intros (? & ?)]).
      * split; by eauto.
  - split; [done|by eauto].
Qed.

Lemma compute_edge_raises g (k : nat) :
  (∃ err g2, _compute_edge_attr k g = (Raise err, g2)) ↔ edge_raises g k.
Proof.
  unfold edge_raises, _compute_edge_attr, bind, reads, lift, modify, ret,
    copy_to_edge. simpl.
  destruct (_parse_rule (edge_rule g k)) as [[x|s|s j]|err]; simpl.
  - split; [by intros (? & ? & ?)|done].
  - destruct (String.eqb s "*"); [|split; [by intros (? & ? & ?)|done]].
    unfold get_vertex. destruct (vertex_map g !! edge_source g k) as [q|]; simpl.
    + destruct (vertex_attr g q); simpl;
        [destruct (all_set (attrs_of g (vertex_in_edges g q)))|];
        (split; [by intros (? & ? & ?)|done]).
    + split; [done|by eauto].
  - destruct (String.eqb s "v").
    + unfold get_vertex. destruct (vertex_map g !! j) as [p|]; simpl.
      * destruct (vertex_attr g p); simpl; (split; [by intros (? & ? & ?)|done]).
      * split; [done|by eauto].
    + destruct (String.eqb s "e"); [|split; [by intros (? & ? & ?)|done]].
      rewrite <- getitem_raises.
      destruct (getitem (edges g) j) as [e|err]; simpl.
      * destruct (e_attr e); simpl;
          (split; [by intros (? & ? & ?)|by intros (? & ?)]).
      * split; by eauto.
  - split; [done|by eauto].
Qed.

(** [vertex_raises] and [edge_raises] read the structure only. *)
Lemma raises_static g g' :
  same_structure g g' →
  (∀ q, vertex_raises g' q ↔ vertex_raises g q)
  ∧ (∀ k, edge_raises g' k ↔ edge_raises g k).
Proof.
  intros Hs. pose proof Hs as (Hm & _ & _).
  destruct (same_structure_lookup _ _ Hs) as (Hvr & Hvi & Her & Hes & Hlv & Hle).
  split.
  - intros q. unfold vertex_raises. by rewrite Hvr, Hvi, Hm, Hle.
  - intros k. unfold edge_raises. by rewrite Her, Hes, Hm, Hle.
Qed.

(** An evaluation that raises leaves the graph as it is. *)
Lemma compute_vertex_raise_graph g q err g2 :
  _compute_vertex_attr q g = (Raise err, g2) → g2 = g.
Proof.
  intros Hc. by destruct (compute_vertex_shape _ _ _ _ Hc) as [->|[? _]].
Qed.

Lemma compute_edge_raise_graph g k err g2 :
  _compute_edge_attr k g = (Raise err, g2) → g2 = g.
Proof.
  intros Hc. by destruct (compute_edge_shape _ _ _ _ Hc) as [->|[? _]].
Qed.

(** X9 (errors do not depend on attrs): whether the evaluation of a vertex
    or of an edge raises is the same in two graphs that differ in attrs
    only, so it is the same at every moment of a run. *)
Theorem evaluation_error_is_static g g' :
  same_structure g g' →
  (∀ q, (∃ err, _compute_vertex_attr q g = (Raise err, g))
        ↔ (∃ err, _compute_vertex_attr q g' = (Raise err, g')))
  ∧ (∀ k, (∃ err, _compute_edge_attr k g = (Raise err, g))
          ↔ (∃ err, _compute_edge_attr k g' = (Raise err, g'))).
Proof.
  intros Hs. destruct (raises_static _ _ Hs) as [Hv He].
  assert (∀ h q, (∃ err, _compute_vertex_attr q h = (Raise err, h))
                 ↔ vertex_raises h q) as Hcv.
  { intros h q. rewrite <- compute_vertex_raises. split.
    - intros [err Hc]. by eauto.
    - intros (err & g2 & Hc). exists err.
      by rewrite (compute_vertex_raise_graph _ _ _ _ Hc) in Hc. }
  assert (∀ h k, (∃ err, _compute_edge_attr k h = (Raise err, h))
                 ↔ edge_raises h k) as Hce.
  { intros h k. rewrite <- compute_edge_raises. split.
    - intros [err Hc]. by eauto.
    - intros (err & g2 & Hc). exists err.
      by rewrite (compute_edge_raise_graph _ _ _ _ Hc) in Hc. }
  split.
  - intros q. by rewrite !Hcv, Hv.
  - intros k. by rewrite !Hce, He.
Qed.

End Raises.

(** ** What a round and a run achieve *)

Section Results.
Context {float : Type} `{!PyFloat float}.
Implicit Types (g : AnnotatedGraph float) (v : Vertex float) (e : Edge float).

Lemma compute_edge_constant g (k : nat) (x : float) :
  (k < length (edges g))%nat →
  edge_attr g k = None →
  _parse_rule (edge_rule g k) = Ok (RFloat x) →
  ∃ g2, _compute_edge_attr k g = (Ok tt, g2)
        ∧ edge_attr g2 k = Some x ∧ grows g g2.
Proof.
  intros Hk Hnone Hr. exists (set_edge_attr k x g). split.
  - unfold _compute_edge_attr, bind, reads, lift, modify. simpl. by rewrite Hr.
  - destruct (set_edge_attr_unset k x g Hnone) as [[_ Hout]|(Ha & Hg & _)]; [|done].
    apply lookup_ge_None in Hout. lia.
Qed.

(** X10 (constant rules): in a round that returns, every unset vertex and
    every unset edge whose rule is a float gets that float as its attr. *)
Theorem constant_rule_set_in_one_round g (c : bool) g' :
  round g = (Ok c, g') →
  (∀ p x, (p < length (vertices g))%nat →
          vertex_attr g p = None →
          _parse_rule (vertex_rule g p) = Ok (RFloat x) →
          vertex_attr g' p = Some x)
  ∧ (∀ k x, (k < length (edges g))%nat →
            edge_attr g k = None →
            _parse_rule (edge_rule g k) = Ok (RFloat x) →
            edge_attr g' k = Some x).
Proof.
  intros Hr. split.
  - intros p x Hp Hnone Hrule.
    destruct (vertex_turn_in_round _ _ _ p Hr Hp Hnone)
      as (g1 & g2 & Hs1 & Hp1 & Hc & Hs2 & _).
    destruct (same_structure_lookup _ _ (steps_same _ _ Hs1))
      as (Hvr & _ & _ & _ & Hlv & _).
    destruct (compute_vertex_constant g1 p x) as (g2' & Hc' & Hx & _);
      [lia|done|by rewrite Hvr|].
    rewrite Hc in Hc'. injection Hc' as <-.
    eapply grows_vertex_attr; [by apply steps_grows|done].
  - intros k x Hk Hnone Hrule.
    destruct (edge_turn_in_round _ _ _ k Hr Hk Hnone)
      as (g1 & g2 & Hs1 & Hk1 & Hc & Hs2 & _).
    destruct (same_structure_lookup _ _ (steps_same _ _ Hs1))
      as (_ & _ & Her & _ & _ & Hle).
    destruct (compute_edge_constant g1 k x) as (g2' & Hc' & Hx & _);
      [lia|done|by rewrite Her|].
    rewrite Hc in Hc'. injection Hc' as <-.
    eapply grows_edge_attr; [by apply steps_grows|done].
Qed.

(** X11 (the result is saturated): when [execute] has returned, the
    evaluation of every vertex and edge that is still unset raises no
    error and writes nothing: no rule can assign anything more. *)
Theorem execute_result_saturated g (n : nat) g' :
  execute g = (Ok n, g') →
  (∀ q, (q < length (vertices g'))%nat → vertex_attr g' q = None →
        _compute_vertex_attr q g' = (Ok tt, g'))
  ∧ (∀ k, (k < length (edges g'))%nat → edge_attr g' k = None →
          _compute_edge_attr k g' = (Ok tt, g')).
Proof.
  intros He. pose proof (execute_execute_loop g) as Hl. rewrite He in Hl.
  apply execute_loop_runs, runs_fixpoint in Hl. split.
  - intros q Hq Hnone.
    destruct (vertex_turn_in_round _ _ _ q Hl Hq Hnone)
      as (g1 & g2 & _ & _ & Hc & _ & Heq).
    destruct (Heq eq_refl) as [-> ->]. done.
  - intros k Hk Hnone.
    destruct (edge_turn_in_round _ _ _ k Hl Hk Hnone)
      as (g1 & g2 & _ & _ & Hc & _ & Heq).
    destruct (Heq eq_refl) as [-> ->]. done.
Qed.

(** After a round that returned, no unset entity of a graph reached from
    its start raises. *)
Lemma round_ok_calm g c g1 g2 :
  round g = (Ok c, g1) → rtc step g g2 →
  (∀ q, (q < length (vertices g2))%nat → vertex_attr g2 q = None →
        ¬ vertex_raises g2 q)
  ∧ (∀ k, (k < length (edges g2))%nat → edge_attr g2 k = None →
          ¬ edge_raises g2 k).
Proof.
  intros Hr Hs.
  pose proof (steps_grows _ _ Hs) as Hg.
  pose proof (steps_same _ _ Hs) as Hsame.
  destruct (same_structure_lookup _ _ Hsame) as (_ & _ & _ & _ & Hlv & Hle).
  destruct (raises_static _ _ Hsame) as [Hrv Hre].
  split.
  - intros q Hq Hnone. rewrite Hrv.
    assert (vertex_attr g q = None) as Hnone0.
    { destruct (vertex_attr g q) as [x|] eqn:Hx; [|done].
      by rewrite (grows_vertex_attr _ _ _ _ Hg Hx) in Hnone. }
    destruct (vertex_turn_in_round _ _ _ q Hr ltac:(lia) Hnone0)
      as (gt & gt' & Hst & _ & Hc & _).
    destruct (raises_static _ _ (steps_same _ _ Hst)) as [Hrt _].
    rewrite <- Hrt, <- compute_vertex_raises. intros (err & gx & Hx). congruence.
  - intros k Hk Hnone. rewrite Hre.
    assert (edge_attr g k = None) as Hnone0.
    { destruct (edge_attr g k) as [x|] eqn:Hx; [|done].
      by rewrite (grows_edge_attr _ _ _ _ Hg Hx) in Hnone. }
    destruct (edge_turn_in_round _ _ _ k Hr ltac:(lia) Hnone0)
      as (gt & gt' & Hst & _ & Hc & _).
    destruct (raises_static _ _ (steps_same _ _ Hst)) as [_ Hrt].
    rewrite <- Hrt, <- compute_edge_raises. intros (err & gx & Hx). congruence.
Qed.

(** A graph from which no unset entity ever raises. *)
Lemma vertex_pass_ok ps c g :
  (∀ g2, rtc step g g2 →
     ∀ q, (q < length (vertices g2))%nat → vertex_attr g2 q = None →
          ¬ vertex_raises g2 q) →
  (∀ q, q ∈ ps → (q < length (vertices g))%nat) →
  ∃ c' g', vertex_pass ps c g = (Ok c', g').
Proof.
  revert c g. induction ps as [|p ps IH]; intros c g Hcalm Hps; [by eexists _, _|].
  simpl. unfold bind, reads. simpl.
  assert (∀ q, q ∈ ps → (q < length (vertices g))%nat) as Hps'
    by (intros q Hq; apply Hps; by apply list_elem_of_further).
  destruct (vertex_attr g p) eqn:Hp; [by apply IH|].
  destruct (_compute_vertex_attr p g) as [[[]|err] g1] eqn:Hc.
  - assert (step g g1) as Hst by (by eapply step_vertex).
    apply IH.
    + intros g2 Hs2. apply Hcalm. by eapply rtc_l.
    + intros q Hq. destruct (grows_lengths _ _ (step_grows _ _ Hst)) as [-> _].
      by apply Hps'.
  - exfalso. apply (Hcalm g (rtc_refl _ _) p); [apply Hps, list_elem_of_here|done|].
    apply compute_vertex_raises. by eauto.
Qed.

Lemma edge_pass_ok ks c g :
  (∀ g2, rtc step g g2 →
     ∀ k, (k < length (edges g2))%nat → edge_attr g2 k = None →
          ¬ edge_raises g2 k) →
  (∀ k, k ∈ ks → (k < length (edges g))%nat) →
  ∃ c' g', edge_pass ks c g = (Ok c', g').
Proof.
  revert c g. induction ks as [|k ks IH]; intros c g Hcalm Hks; [by eexists _, _|].
  simpl. unfold bind, reads. simpl.
  assert (∀ q, q ∈ ks → (q < length (edges g))%nat) as Hks'
    by (intros q Hq; apply Hks; by apply list_elem_of_further).
  destruct (edge_attr g k) eqn:Hk; [by apply IH|].
  destruct (_compute_edge_attr k g) as [[[]|err] g1] eqn:Hc.
  - assert (step g g1) as Hst by (by eapply step_edge).
    apply IH.
    + intros g2 Hs2. apply Hcalm. by eapply rtc_l.
    + intros q Hq. destruct (grows_lengths _ _ (step_grows _ _ Hst)) as [_ ->].
      by apply Hks'.
  - exfalso. apply (Hcalm g (rtc_refl _ _) k); [apply Hks, list_elem_of_here|done|].
    apply compute_edge_raises. by eauto.
Qed.

Lemma round_ok g :
  (∀ g2, rtc step g g2 →
     (∀ q, (q < length (vertices g2))%nat → vertex_attr g2 q = None →
           ¬ vertex_raises g2 q)
     ∧ (∀ k, (k < length (edges g2))%nat → edge_attr g2 k = None →
             ¬ edge_raises g2 k)) →
  ∃ c g', round g = (Ok c, g').
Proof.
  intros Hcalm. unfold round, bind, reads. simpl.
  destruct (vertex_pass_ok (seq 0 (length (vertices g))) false g) as (cv & gv & Hv).
  { intros g2 Hs2. by apply Hcalm. }
  { intros q Hq. apply elem_of_seq in Hq. lia. }
  rewrite Hv.
  pose proof (vertex_pass_steps (seq 0 (length (vertices g))) false g) as Hsv.
  rewrite Hv in Hsv. simpl in Hsv.
  destruct (edge_pass_ok (seq 0 (length (edges gv))) cv gv) as (c & g' & He).
  { intros g2 Hs2. apply Hcalm. by etrans. }
  { intros q Hq. apply elem_of_seq in Hq. lia. }
  rewrite He. by eexists _, _.
Qed.

Lemma execute_loop_ok fuel g r g' :
  (∀ g2, rtc step g g2 →
     (∀ q, (q < length (vertices g2))%nat → vertex_attr g2 q = None →
           ¬ vertex_raises g2 q)
     ∧ (∀ k, (k < length (edges g2))%nat → edge_attr g2 k = None →
             ¬ edge_raises g2 k)) →
  execute_loop fuel g = Some (r, g') → ∃ n, r = Ok n.
Proof.
  revert g r g'. induction fuel as [|fuel IH]; intros g r g' Hcalm; simpl; [done|].
  destruct (round_ok g Hcalm) as (c & g1 & Hr). rewrite Hr.
  pose proof (round_steps g) as Hs. rewrite Hr in Hs. simpl in Hs.
  destruct c.
  - destruct (execute_loop fuel g1) as [[[m|err] g2]|] eqn:He; [| |done].
    + intros [= <- <-]. by eexists.
    + intros [= <- <-]. apply (IH g1 (Raise err) g2); [|done].
      intros g3 Hs3. apply Hcalm. by etrans.
  - intros [= <- <-]. by eexists.
Qed.

(** X12 (errors surface in the first round): [execute] raises exactly when
    its first round raises, with the same exception and the same graph
    left behind; once a round has returned, no later round raises. *)
Theorem errors_surface_in_first_round g :
  (∀ err g', execute g = (Raise err, g') ↔ round g = (Raise err, g'))
  ∧ (∀ c g1, round g = (Ok c, g1) →
       ∀ fuel r g', execute_loop fuel g1 = Some (r, g') → ∃ n, r = Ok n).
Proof.
  split.
  - intros err g'. pose proof (execute_execute_loop g) as Hl. split.
    + intros He. rewrite He in Hl.
      destruct (round g) as [[c|err1] g1] eqn:Hr.
      * destruct (execute_loop_ok _ _ _ _
          (λ g2 Hs2, round_ok_calm _ _ _ _ Hr Hs2) Hl) as [n Hn]. done.
      * simpl in Hl. rewrite Hr in Hl. by injection Hl as <- <-.
    + intros Hr. simpl in Hl. rewrite Hr in Hl. by injection Hl as <-.
  - intros c g1 Hr fuel r g' He.
    pose proof (round_steps g) as Hs. rewrite Hr in Hs. simpl in Hs.
    eapply execute_loop_ok; [|exact He].
    intros g2 Hs2. eapply round_ok_calm; [exact Hr|by etrans].
Qed.

End Results.

(** ** Every attr comes from its rule *)

Section Justified.
Context {float : Type} `{!PyFloat float}.
Implicit Types (g : AnnotatedGraph float) (v : Vertex float) (e : Edge float).

(** What an evaluation writes is what the rule yields in the graph. *)
Lemma compute_vertex_justified p g r g' :
  _compute_vertex_attr p g = (r, g') →
  g' = g ∨ ∃ x, g' = set_vertex_attr p x g ∧ vertex_justified g p x.
Proof.
  unfold _compute_vertex_attr, vertex_justified, bind, reads, lift, modify, ret,
    copy_to_vertex. simpl.
  destruct (_parse_rule (vertex_rule g p)) as [[x|s|s j]|err]; simpl.
  - intros [= <- <-]. right. by exists x.
  - destruct (String.eqb s "min"); [|intros [= <- <-]; by left].
    destruct (all_set (attrs_of g (vertex_in_edges g p))) eqn:Hall;
      [|intros [= <- <-]; by left].
    destruct (py_min (values (attrs_of g (vertex_in_edges g p)))) as [y|err] eqn:Hmin;
      simpl; intros [= <- <-]; [right|by left].
    exists y. split; [done|]. eexists. split; [|exact Hmin].
    symmetry. by apply all_set_values.
  - destruct (String.eqb s "v").
    + unfold get_vertex. destruct (vertex_map g !! j) as [q|] eqn:Hj; simpl;
        [|intros [= <- <-]; by left].
      destruct (vertex_attr g q) as [y|] eqn:Hy; simpl; intros [= <- <-];
        [right|by left].
      exists y. split; [done|]. by exists q.
    + destruct (String.eqb s "e"); [|intros [= <- <-]; by left].
      destruct (getitem (edges g) j) as [e|err] eqn:Hg; simpl;
        [|intros [= <- <-]; by left].
      destruct (e_attr e) as [y|] eqn:Hy; simpl; intros [= <- <-];
        [right|by left].
      exists y. split; [done|]. by exists e.
  - intros [= <- <-]. by left.
Qed.

Lemma compute_edge_justified k g r g' :
  _compute_edge_attr k g = (r, g') →
  g' = g ∨ ∃ x, g' = set_edge_attr k x g ∧ edge_justified g k x.
Proof.
  unfold _compute_edge_attr, edge_justified, bind, reads, lift, modify, ret,
    copy_to_edge. simpl.
  destruct (_parse_rule (edge_rule g k)) as [[x|s|s j]|err]; simpl.
  - intros [= <- <-]. right. by exists x.
  - destruct (String.eqb s "*"); [|intros [= <- <-]; by left].
    unfold get_vertex.
    destruct (vertex_map g !! edge_source g k) as [q|] eqn:Hq; simpl;
      [|intros [= <- <-]; by left].
    destruct (vertex_attr g q) as [a|] eqn:Ha; [|intros [= <- <-]; by left].
    destruct (all_set (attrs_of g (vertex_in_edges g q))) eqn:Hall;
      intros [= <- <-]; [right|by left].
    eexists. split; [done|]. exists q, a, (values (attrs_of g (vertex_in_edges g q))).
    split; [done|]. split; [done|]. split; [|done].
    symmetry. by apply all_set_values.
  - destruct (String.eqb s "v").
    + unfold get_vertex. destruct (vertex_map g !! j) as [q|] eqn:Hj; simpl;
        [|intros [= <- <-]; by left].
      destruct (vertex_attr g q) as [y|] eqn:Hy; simpl; intros [= <- <-];
        [right|by left].
      exists y. split; [done|]. by exists q.
    + destruct (String.eqb s "e"); [|intros [= <- <-]; by left].
      destruct (getitem (edges g) j) as [e|err] eqn:Hg; simpl;
        [|intros [= <- <-]; by left].
      destruct (e_attr e) as [y|] eqn:Hy; simpl; intros [= <- <-];
        [right|by left].
      exists y. split; [done|]. by exists e.
  - intros [= <- <-]. by left.
Qed.

Lemma attrs_of_grows g g' (rs : list nat) (xs : list float) :
  grows g g' → attrs_of g rs = map Some xs → attrs_of g' rs = map Some xs.
Proof.
  intros Hg. unfold attrs_of. revert xs.
  induction rs as [|r rs IH]; intros [|x xs]; simpl; try done.
  intros [= Hr Hrs]. f_equal; [by eapply grows_edge_attr|by apply IH].
Qed.

Lemma getitem_Forall2 {A} (R : A → A → Prop) (l l' : list A) (j : Z) (a : A) :
  Forall2 R l l' → getitem l j = Ok a →
  ∃ a', getitem l' j = Ok a' ∧ R a a'.
Proof.
  intros Hl. unfold getitem. rewrite <- (Forall2_length _ _ _ Hl).
  destruct ((0 <=? (if j <? 0 then j + Z.of_nat (length l) else j))
            && ((if j <? 0 then j + Z.of_nat (length l) else j)
                <? Z.of_nat (length l))); [|done].
  destruct (l !! Z.to_nat (if j <? 0 then j + Z.of_nat (length l) else j))
    as [b|] eqn:Hb; [|done].
  intros [= ->].
  destruct (Forall2_lookup_l _ _ _ _ _ Hl Hb) as (a' & Ha' & HR).
  exists a'. by rewrite Ha'.
Qed.

(** A justification stays one when attrs are added. *)
Lemma vertex_justified_mono g g' (q : nat) (y : float) :
  same_structure g g' → grows g g' →
  vertex_justified g q y → vertex_justified g' q y.
Proof.
  intros Hs Hg. pose proof Hs as (Hm & _ & _). pose proof Hg as [_ Hge].
  destruct (same_structure_lookup _ _ Hs) as (Hvr & Hvi & _).
  unfold vertex_justified. rewrite Hvr, Hvi, Hm.
  destruct (_parse_rule (vertex_rule g q)) as [[x|s|s j]|err]; simpl; [done| | |done].
  - destruct (String.eqb s "min"); [|done].
    intros (xs & Hxs & Hmin). exists xs. split; [|done]. by eapply attrs_of_grows.
  - destruct (String.eqb s "v").
    + intros (p & Hp & Ha). exists p. split; [done|]. by eapply grows_vertex_attr.
    + destruct (String.eqb s "e"); [|done].
      intros (e & He & Ha).
      destruct (getitem_Forall2 _ _ _ _ _ Hge He) as (e' & He' & Hle).
      exists e'. split; [done|]. by apply Hle.
Qed.

Lemma edge_justified_mono g g' (k : nat) (y : float) :
  same_structure g g' → grows g g' →
  edge_justified g k y → edge_justified g' k y.
Proof.
  intros Hs Hg. pose proof Hs as (Hm & _ & _). pose proof Hg as [_ Hge].
  destruct (same_structure_lookup _ _ Hs) as (_ & Hvi & Her & Hes & _).
  unfold edge_justified. rewrite Her, Hes, Hm.
  destruct (_parse_rule (edge_rule g k)) as [[x|s|s j]|err]; simpl; [done| | |done].
  - destruct (String.eqb s "*"); [|done].
    intros (q & a & xs & Hq & Ha & Hxs & ->). exists q, a, xs.
    split; [done|]. split; [by eapply grows_vertex_attr|]. split; [|done].
    rewrite Hvi. by eapply attrs_of_grows.
  - destruct (String.eqb s "v").
    + intros (p & Hp & Ha). exists p. split; [done|]. by eapply grows_vertex_attr.
    + destruct (String.eqb s "e"); [|done].
      intros (e & He & Ha).
      destruct (getitem_Forall2 _ _ _ _ _ Hge He) as (e' & He' & Hle).
      exists e'. split; [done|]. by apply Hle.
Qed.

Lemma step_justified g g' :
  step g g' →
  (∀ q y, vertex_attr g q = Some y → vertex_justified g q y)
  ∧ (∀ k y, edge_attr g k = Some y → edge_justified g k y) →
  (∀ q y, vertex_attr g' q = Some y → vertex_justified g' q y)
  ∧ (∀ k y, edge_attr g' k = Some y → edge_justified g' k y).
Proof.
  intros Hst [Jv Je].
  pose proof (step_same _ _ Hst) as Hs. pose proof (step_grows _ _ Hst) as Hg.
  destruct Hst as [p r Hp Hc|k r Hk Hc].
  - destruct (compute_vertex_justified _ _ _ _ Hc) as [->|(x & -> & Hx)]; [done|].
    split.
    + intros q y Hq. apply (vertex_justified_mono g); [done|done|].
      destruct (decide (p = q)) as [<-|Hne].
      * destruct (set_vertex_attr_unset p x g Hp) as [[Heq _]|(Ha & _)].
        -- rewrite Heq in Hq. congruence.
        -- rewrite Ha in Hq. by injection Hq as <-.
      * rewrite set_vertex_attr_other in Hq by done. by apply Jv.
    + intros k y Hk. apply (edge_justified_mono g); [done|done|]. by apply Je.
  - destruct (compute_edge_justified _ _ _ _ Hc) as [->|(x & -> & Hx)]; [done|].
    split.
    + intros q y Hq. apply (vertex_justified_mono g); [done|done|]. by apply Jv.
    + intros k' y Hk'. apply (edge_justified_mono g); [done|done|].
      destruct (decide (k = k')) as [<-|Hne].
      * destruct (set_edge_attr_unset k x g Hk) as [[Heq _]|(Ha & _)].
        -- rewrite Heq in Hk'. congruence.
        -- rewrite Ha in Hk'. by injection Hk' as <-.
      * rewrite set_edge_attr_other in Hk' by done. by apply Je.
Qed.

Lemma steps_justified g g' :
  rtc step g g' →
  (∀ q y, vertex_attr g q = Some y → vertex_justified g q y)
  ∧ (∀ k y, edge_attr g k = Some y → edge_justified g k y) →
  (∀ q y, vertex_attr g' q = Some y → vertex_justified g' q y)
  ∧ (∀ k y, edge_attr g' k = Some y → edge_justified g' k y).
Proof.
  induction 1 as [g|g g1 g' Hst _ IH]; intros J; [done|].
  apply IH. by eapply step_justified.
Qed.

Lemma all_unset_attrs g :
  all_unset g →
  (∀ q, vertex_attr g q = None) ∧ (∀ k, edge_attr g k = None).
Proof.
  intros [Hv He]. rewrite Forall_lookup in Hv. rewrite Forall_lookup in He.
  split.
  - intros q. unfold vertex_attr.
    destruct (vertices g !! q) as [v|] eqn:Hvq; [|done]. simpl. by eapply Hv.
  - intros k. unfold edge_attr.
    destruct (edges g !! k) as [e|] eqn:Hek; [|done]. simpl. by eapply He.
Qed.

(** X13 (every attr comes from its rule): in every graph reached by
    evaluation from a graph without attrs, so at the end of [execute] on a
    loaded graph, the attr of every set vertex and edge is what its rule
    yields in that graph: its constant; the attr of the vertex or edge it
    copies; the minimum of the attrs of its incoming edges; the attr of
    the source times the product of the attrs of the incoming edges of the
    source. *)
Theorem attrs_come_from_rules g0 g :
  all_unset g0 →
  rtc step g0 g ∨ (∃ fuel r, execute_loop fuel g0 = Some (r, g)) →
  (∀ q y, vertex_attr g q = Some y → vertex_justified g q y)
  ∧ (∀ k y, edge_attr g k = Some y → edge_justified g k y).
Proof.
  intros Hu Hrun.
  assert (rtc step g0 g) as Hs.
  { destruct Hrun as [Hs|(fuel & r & Hl)]; [done|]. by eapply execute_loop_steps. }
  apply (steps_justified _ _ Hs).
  destruct (all_unset_attrs _ Hu) as [Hv He].
  split; intros ? y Hy; [rewrite Hv in Hy|rewrite He in Hy]; done.
Qed.

End Justified.

(** ** The output of [main] *)

Section Output.
Context {float : Type} `{!PyFloat float}.
Implicit Types (g : AnnotatedGraph float) (v : Vertex float) (e : Edge float).

Lemma read_input_file_lengths (f : list string) g :
  read_input_file f = Ok g →
  ∃ nv ne, read_pair (nth 0 f "") = Ok (nv, ne)
           ∧ length (vertices g) = Z.to_nat nv
           ∧ length (edges g) = Z.to_nat ne.
Proof.
  intros Hf. destruct (read_input_file_phases _ _ Hf) as (nv & ne & gE & Hh & He & ->).
  exists nv, ne. split; [done|].
  destruct (read_edges_shape _ _ _ _ _ He) as (_ & Hk & es & Hes & Hl & _).
  destruct (add_vertices_length (float:=float) nv) as [HlV HeV].
  rewrite HeV in Hes. simpl in Hes. rewrite length_seq in Hl.
  destruct (read_vertex_rules_shape (Z.to_nat nv) 0 (drop (3 + Z.to_nat ne) f) gE)
    as (_ & He2 & Hv2).
  set (g2 := (read_vertex_rules (seq 0 (Z.to_nat nv)) (drop (3 + Z.to_nat ne) f) gE).1) in *.
  destruct (read_edge_rules_shape (Z.to_nat ne) 0
              (drop (3 + Z.to_nat ne + Z.to_nat nv) f) g2) as (Hv3 & He3).
  split.
  - rewrite Hv3, (lookup_fmap_length _ _ _ Hv2), <- HlV.
    symmetry. by eapply Forall2_length.
  - by rewrite (lookup_fmap_length _ _ _ He3), He2, Hes.
Qed.

(** X14 (the output): when [main] returns, the graph was loaded and
    [execute] returned; the output has NV + NE lines for the counts of the
    header, the first NV are the attrs of the vertices in id order and the
    next NE the attrs of the edges in id order, with [None] for an attr
    that is unset. *)
Theorem main_output (f : list string) (out : list (option float)) :
  main f = Ok out →
  ∃ nv ne g0 n g',
    read_pair (nth 0 f "") = Ok (nv, ne)
    ∧ read_input_file f = Ok g0
    ∧ execute g0 = (Ok n, g')
    ∧ length out = (Z.to_nat nv + Z.to_nat ne)%nat
    ∧ (∀ p, (p < Z.to_nat nv)%nat → out !! p = Some (vertex_attr g' p))
    ∧ (∀ k, (k < Z.to_nat ne)%nat →
            out !! (Z.to_nat nv + k)%nat = Some (edge_attr g' k)).
Proof.
  unfold main. destruct (read_input_file f) as [g0|err] eqn:Hf; [|done]. simpl.
  destruct (execute g0) as [[n|err] g'] eqn:He; [|done]. intros [= <-].
  destruct (read_input_file_lengths _ _ Hf) as (nv & ne & Hh & Hlv & Hle).
  pose proof (execute_execute_loop g0) as Hl. rewrite He in Hl.
  destruct (grows_lengths _ _ (execute_loop_grows _ _ _ _ Hl)) as [Hlv' Hle'].
  exists nv, ne, g0, n, g'. split; [done|]. split; [done|]. split; [done|].
  unfold write_output_file. split; [|split].
  - rewrite length_app, !length_map. lia.
  - intros p Hp. rewrite lookup_app_l by (rewrite length_map; lia).
    rewrite list_lookup_fmap. unfold vertex_attr.
    destruct (lookup_lt_is_Some_2 (vertices g') p) as [v ->]; [lia|]. done.
  - intros k Hk. rewrite lookup_app_r by (rewrite length_map; lia).
    rewrite length_map. replace (Z.to_nat nv + k - length (vertices g'))%nat with k by lia.
    rewrite list_lookup_fmap. unfold edge_attr.
    destruct (lookup_lt_is_Some_2 (edges g') k) as [e ->]; [lia|]. done.
Qed.

End Output.

(** ** When a run fails *)

Section Failure.
Context {float : Type} `{!PyFloat float}.
Implicit Types (g : AnnotatedGraph float).

Lemma unset_before g g' :
  grows g g' →
  (∀ q, vertex_attr g' q = None → vertex_attr g q = None)
  ∧ (∀ k, edge_attr g' k = None → edge_attr g k = None).
Proof.
  intros Hg. split.
  - intros q Hn. destruct (vertex_attr g q) as [x|] eqn:Hx; [|done].
    by rewrite (grows_vertex_attr _ _ _ _ Hg Hx) in Hn.
  - intros k Hn. destruct (edge_attr g k) as [x|] eqn:Hx; [|done].
    by rewrite (grows_edge_attr _ _ _ _ Hg Hx) in Hn.
Qed.

Lemma vertex_pass_raise ps c g err g' :
  vertex_pass ps c g = (Raise err, g') →
  ∃ q, q ∈ ps ∧ vertex_attr g q = None ∧ vertex_raises g q.
Proof.
  revert c g. induction ps as [|p ps IH]; intros c g; simpl; [done|].
  unfold bind, reads; simpl.
  destruct (vertex_attr g p) eqn:Hp.
  - intros H. destruct (IH _ _ H) as (q & Hq & Hn & Hr).
    exists q. split; [by apply list_elem_of_further|done].
  - destruct (_compute_vertex_attr p g) as [[[]|e] g1] eqn:Hc.
    + intros H. destruct (IH _ _ H) as (q & Hq & Hn & Hr).
      assert (step g g1) as Hs by (by eapply step_vertex).
      exists q. split; [by apply list_elem_of_further|]. split.
      * by apply (unset_before _ _ (step_grows _ _ Hs)).
      * by apply (raises_static _ _ (step_same _ _ Hs)).
    + intros _. exists p. split; [apply list_elem_of_here|]. split; [done|].
      apply compute_vertex_raises. eauto.
Qed.

Lemma edge_pass_raise ks c g err g' :
  edge_pass ks c g = (Raise err, g') →
  ∃ k, k ∈ ks ∧ edge_attr g k = None ∧ edge_raises g k.
Proof.
  revert c g. induction ks as [|p ks IH]; intros c g; simpl; [done|].
  unfold bind, reads; simpl.
  destruct (edge_attr g p) eqn:Hp.
  - intros H. destruct (IH _ _ H) as (q & Hq & Hn & Hr).
    exists q. split; [by apply list_elem_of_further|done].
  - destruct (_compute_edge_attr p g) as [[[]|e] g1] eqn:Hc.
    + intros H. destruct (IH _ _ H) as (q & Hq & Hn & Hr).
      assert (step g g1) as Hs by (by eapply step_edge).
      exists q. split; [by apply list_elem_of_further|]. split.
      * by apply (unset_before _ _ (step_grows _ _ Hs)).
      * by apply (raises_static _ _ (step_same _ _ Hs)).
    + intros _. exists p. split; [apply list_elem_of_here|]. split; [done|].
      apply compute_edge_raises. eauto.
Qed.

Lemma round_raise g err g' :
  round g = (Raise err, g') →
  (∃ q, (q < length (vertices g))%nat ∧ vertex_attr g q = None
        ∧ vertex_raises g q)
  ∨ (∃ k, (k < length (edges g))%nat ∧ edge_attr g k = None
          ∧ edge_raises g k).
Proof.
  unfold round, bind, reads. simpl.
  pose proof (vertex_pass_steps (seq 0 (length (vertices g))) false g) as Hs.
  destruct (vertex_pass _ false g) as [[cv|e] gv] eqn:Hv.
  - simpl in Hs. intros He. right.
    destruct (edge_pass_raise _ _ _ _ _ He) as (k & Hk & Hn & Hr).
    apply elem_of_seq in Hk.
    destruct (grows_lengths _ _ (steps_grows _ _ Hs)) as [_ Hle].
    exists k. split; [lia|]. split.
    + by apply (unset_before _ _ (steps_grows _ _ Hs)).
    + by apply (raises_static _ _ (steps_same _ _ Hs)).
  - intros _. left.
    destruct (vertex_pass_raise _ _ _ _ _ Hv) as (q & Hq & Hn & Hr).
    apply elem_of_seq in Hq. exists q. split; [lia|done].
Qed.

Lemma execute_raise_round g err g' :
  execute g = (Raise err, g') ↔ round g = (Raise err, g').
Proof.
  pose proof (execute_execute_loop g) as Hl. split.
  - intros He. rewrite He in Hl.
    destruct (round g) as [[c|err1] g1] eqn:Hr.
    + destruct (execute_loop_ok _ _ _ _
        (λ g2 Hs2, round_ok_calm _ _ _ _ Hr Hs2) Hl) as [n Hn]. done.
    + simpl in Hl. rewrite Hr in Hl. by injection Hl as <- <-.
  - intros Hr. simpl in Hl. rewrite Hr in Hl. by injection Hl as <-.
Qed.

(** X15 (which runs fail): [execute] raises exactly when the graph it is
    given has a vertex or an edge with an unset attr whose evaluation, in
    that graph, raises.  So the graph before the run tells whether the run
    fails: no assignment made during the run causes or prevents an
    error. *)
Theorem execute_raises_iff g :
  (∃ err g', execute g = (Raise err, g'))
  ↔ ((∃ q err, (q < length (vertices g))%nat ∧ vertex_attr g q = None
               ∧ _compute_vertex_attr q g = (Raise err, g))
     ∨ (∃ k err, (k < length (edges g))%nat ∧ edge_attr g k = None
                 ∧ _compute_edge_attr k g = (Raise err, g))).
Proof.
  split.
  - intros (err & g' & He). apply execute_raise_round in He.
    destruct (round_raise _ _ _ He) as [(q & Hq & Hn & Hr)|(k & Hk & Hn & Hr)].
    + left. apply compute_vertex_raises in Hr as (e & g2 & Hc).
      rewrite (compute_vertex_raise_graph _ _ _ _ Hc) in Hc. by exists q, e.
    + right. apply compute_edge_raises in Hr as (e & g2 & Hc).
      rewrite (compute_edge_raise_graph _ _ _ _ Hc) in Hc. by exists k, e.
  - intros Hbad. destruct (round g) as [[c|err] g1] eqn:Hr.
    + exfalso. destruct (round_ok_calm _ _ _ _ Hr (rtc_refl _ g)) as [Hv He].
      destruct Hbad as [(q & e & Hq & Hn & Hc)|(k & e & Hk & Hn & Hc)].
      * apply (Hv q Hq Hn). apply compute_vertex_raises. eauto.
      * apply (He k Hk Hn). apply compute_edge_raises. eauto.
    + exists err, g1. by apply execute_raise_round.
Qed.

End Failure.

(** ** The result does not depend on the order of evaluation *)

Section Order.
Context {float : Type} `{!PyFloat float}.
Implicit Types (g : AnnotatedGraph float) (v : Vertex float) (e : Edge float).

Lemma same_structure_sym g g' : same_structure g g' → same_structure g' g.
Proof.
  intros (Hm & Hv & He). split; [done|]. split; apply Forall2_flip.
  - eapply Forall2_impl; [exact Hv|].
    intros a b (? & ? & ? & ?). repeat split; congruence.
  - eapply Forall2_impl; [exact He|].
    intros a b (? & ? & ? & ?). repeat split; congruence.
Qed.

Lemma map_Some_inj (xs ys : list float) : map Some xs = map Some ys → xs = ys.
Proof.
  revert ys. induction xs as [|x xs IH]; intros [|y ys]; simpl; try done.
  intros [= -> Hxs]. f_equal. by apply IH.
Qed.

(** A rule yields at most one value in a graph. *)
Lemma vertex_justified_fun g (q : nat) (x y : float) :
  vertex_justified g q x → vertex_justified g q y → x = y.
Proof.
  unfold vertex_justified.
  destruct (_parse_rule (vertex_rule g q)) as [[c|s|s j]|err]; simpl;
    [by intros -> ->| | |done].
  - destruct (String.eqb s "min"); [|done].
    intros (xs & Hxs & Hx) (ys & Hys & Hy). rewrite Hxs in Hys.
    apply map_Some_inj in Hys. congruence.
  - destruct (String.eqb s "v").
    + intros (p & Hp & Hx) (p' & Hp' & Hy). congruence.
    + destruct (String.eqb s "e"); [|done].
      intros (e & He & Hx) (e' & He' & Hy). congruence.
Qed.

Lemma edge_justified_fun g (k : nat) (x y : float) :
  edge_justified g k x → edge_justified g k y → x = y.
Proof.
  unfold edge_justified.
  destruct (_parse_rule (edge_rule g k)) as [[c|s|s j]|err]; simpl;
    [by intros -> ->| | |done].
  - destruct (String.eqb s "*"); [|done].
    intros (q & a & xs & Hq & Ha & Hxs & ->) (q' & a' & ys & Hq' & Ha' & Hys & ->).
    assert (q' = q) as -> by congruence.
    rewrite Hxs in Hys. apply map_Some_inj in Hys. congruence.
  - destruct (String.eqb s "v").
    + intros (p & Hp & Hx) (p' & Hp' & Hy). congruence.
    + destruct (String.eqb s "e"); [|done].
      intros (e & He & Hx) (e' & He' & Hy). congruence.
Qed.

(** What the rule yields is what the evaluation writes. *)
Lemma justified_compute_vertex g (q : nat) (y : float) :
  vertex_justified g q y →
  _compute_vertex_attr q g = (Ok tt, set_vertex_attr q y g).
Proof.
  unfold vertex_justified, _compute_vertex_attr, bind, reads, lift, modify, ret,
    copy_to_vertex. simpl.
  destruct (_parse_rule (vertex_rule g q)) as [[c|s|s j]|err]; simpl;
    [by intros ->| | |done].
  - destruct (String.eqb s "min"); [|done].
    intros (xs & Hxs & Hmin).
    rewrite Hxs, all_set_map_Some, values_map_Some, Hmin. done.
  - destruct (String.eqb s "v").
    + intros (p & Hp & Hy). unfold get_vertex. rewrite Hp. simpl. by rewrite Hy.
    + destruct (String.eqb s "e"); [|done].
      intros (e & He & Hy). rewrite He. simpl. by rewrite Hy.
Qed.

Lemma justified_compute_edge g (k : nat) (y : float) :
  edge_justified g k y →
  _compute_edge_attr k g = (Ok tt, set_edge_attr k y g).
Proof.
  unfold edge_justified, _compute_edge_attr, bind, reads, lift, modify, ret,
    copy_to_edge. simpl.
  destruct (_parse_rule (edge_rule g k)) as [[c|s|s j]|err]; simpl;
    [by intros ->| | |done].
  - destruct (String.eqb s "*"); [|done].
    intros (q & a & xs & Hq & Ha & Hxs & ->). unfold get_vertex.
    rewrite Hq. simpl. rewrite Ha, Hxs, all_set_map_Some, values_map_Some. done.
  - destruct (String.eqb s "v").
    + intros (p & Hp & Hy). unfold get_vertex. rewrite Hp. simpl. by rewrite Hy.
    + destruct (String.eqb s "e"); [|done].
      intros (e & He & Hy). rewrite He. simpl. by rewrite Hy.
Qed.

Lemma grows_set_vertex g g' (q : nat) (y : float) :
  grows g g' → vertex_attr g' q = Some y → grows (set_vertex_attr q y g) g'.
Proof.
  intros [Hv He] Hy. split; [|done]. simpl.
  apply Forall2_same_length_lookup. split.
  { rewrite length_alter. by eapply Forall2_length. }
  intros i a b Ha Hb. destruct (decide (q = i)) as [<-|Hne].
  - rewrite list_lookup_alter_eq in Ha.
    destruct (vertices g !! q) as [a0|]; [|done]. injection Ha as <-.
    unfold vertex_attr in Hy. rewrite Hb in Hy. simpl in Hy.
    intros x. simpl. congruence.
  - rewrite list_lookup_alter_ne in Ha by done.
    by eapply (Forall2_lookup_lr _ _ _ _ _ _ Hv).
Qed.

Lemma grows_set_edge g g' (k : nat) (y : float) :
  grows g g' → edge_attr g' k = Some y → grows (set_edge_attr k y g) g'.
Proof.
  intros [Hv He] Hy. split; [done|]. simpl.
  apply Forall2_same_length_lookup. split.
  { rewrite length_alter. by eapply Forall2_length. }
  intros i a b Ha Hb. destruct (decide (k = i)) as [<-|Hne].
  - rewrite list_lookup_alter_eq in Ha.
    destruct (edges g !! k) as [a0|]; [|done]. injection Ha as <-.
    unfold edge_attr in Hy. rewrite Hb in Hy. simpl in Hy.
    intros x. simpl. congruence.
  - rewrite list_lookup_alter_ne in Ha by done.
    by eapply (Forall2_lookup_lr _ _ _ _ _ _ He).
Qed.

(** Whatever a sequence of evaluations has set is set, to the same value,
    in every saturated graph reached from the same start. *)
Lemma steps_below_saturated g0 gs g2 :
  all_unset g0 → rtc step g0 gs → saturated gs → rtc step g0 g2 →
  grows g2 gs.
Proof.
  intros Hu Hs [Hsv Hse] H2.
  assert ((∀ q y, vertex_attr gs q = Some y → vertex_justified gs q y)
          ∧ (∀ k y, edge_attr gs k = Some y → edge_justified gs k y)) as [Jv Je].
  { apply (steps_justified _ _ Hs). destruct (all_unset_attrs _ Hu) as [Hv He].
    split; intros ? y Hy; [rewrite Hv in Hy|rewrite He in Hy]; done. }
  revert g2 H2. apply (rtc_ind_r (λ g2, grows g2 gs)); [by apply steps_grows|].
  intros g2 g2' H2 Hst IH.
  assert (same_structure g2 gs) as Hsame.
  { eapply same_structure_trans; [|by apply steps_same].
    by apply same_structure_sym, steps_same. }
  destruct (grows_lengths _ _ IH) as [Hlv Hle].
  destruct Hst as [p r Hp Hc|k r Hk Hc].
  - destruct (compute_vertex_justified _ _ _ _ Hc) as [->|(x & -> & Hx)]; [done|].
    destruct (set_vertex_attr_unset p x g2 Hp) as [[-> _]|(Ha & _)]; [done|].
    assert (p < length (vertices gs))%nat as Hlt.
    { rewrite Hlv. apply lookup_lt_is_Some_1.
      destruct (vertices g2 !! p) as [v|] eqn:Hv; [by eexists|].
      unfold vertex_attr in Ha. simpl in Ha.
      by rewrite list_lookup_alter_eq, Hv in Ha. }
    pose proof (vertex_justified_mono _ _ _ _ Hsame IH Hx) as Hxs.
    apply grows_set_vertex; [done|].
    destruct (vertex_attr gs p) as [y|] eqn:Hy.
    + f_equal. eapply vertex_justified_fun; [by apply Jv|done].
    + exfalso. pose proof (Hsv p Hlt Hy) as Hq.
      rewrite (justified_compute_vertex _ _ _ Hxs) in Hq. injection Hq as Hq.
      destruct (set_vertex_attr_unset p x gs Hy) as [[_ Hn]|(Hb & _)].
      * apply lookup_lt_is_Some_2 in Hlt. rewrite Hn in Hlt. by destruct Hlt.
      * rewrite Hq in Hb. congruence.
  - destruct (compute_edge_justified _ _ _ _ Hc) as [->|(x & -> & Hx)]; [done|].
    destruct (set_edge_attr_unset k x g2 Hk) as [[-> _]|(Ha & _)]; [done|].
    assert (k < length (edges gs))%nat as Hlt.
    { rewrite Hle. apply lookup_lt_is_Some_1.
      destruct (edges g2 !! k) as [e|] eqn:He; [by eexists|].
      unfold edge_attr in Ha. simpl in Ha.
      by rewrite list_lookup_alter_eq, He in Ha. }
    pose proof (edge_justified_mono _ _ _ _ Hsame IH Hx) as Hxs.
    apply grows_set_edge; [done|].
    destruct (edge_attr gs k) as [y|] eqn:Hy.
    + f_equal. eapply edge_justified_fun; [by apply Je|done].
    + exfalso. pose proof (Hse k Hlt Hy) as Hq.
      rewrite (justified_compute_edge _ _ _ Hxs) in Hq. injection Hq as Hq.
      destruct (set_edge_attr_unset k x gs Hy) as [[_ Hn]|(Hb & _)].
      * apply lookup_lt_is_Some_2 in Hlt. rewrite Hn in Hlt. by destruct Hlt.
      * rewrite Hq in Hb. congruence.
Qed.

Lemma attr_le_antisym (a b : option float) : attr_le a b → attr_le b a → a = b.
Proof.
  intros Hab Hba. destruct a as [x|]; [symmetry; by apply Hab|].
  destruct b as [y|]; [by apply Hba|done].
Qed.

Lemma grows_antisym g g' :
  same_structure g g' → grows g g' → grows g' g → g = g'.
Proof.
  intros (Hm & Sv & Se) [Gv Ge] [Gv' Ge'].
  assert (vertices g = vertices g') as Hv.
  { apply (list_eq_same_length _ _ (length (vertices g)));
      [symmetry; by eapply Forall2_length|done|].
    intros i a b _ Ha Hb.
    pose proof (Forall2_lookup_lr _ _ _ _ _ _ Sv Ha Hb) as (? & ? & ? & ?).
    pose proof (attr_le_antisym _ _
      (Forall2_lookup_lr _ _ _ _ _ _ Gv Ha Hb)
      (Forall2_lookup_lr _ _ _ _ _ _ Gv' Hb Ha)).
    destruct a, b; simpl in *; congruence. }
  assert (edges g = edges g') as He.
  { apply (list_eq_same_length _ _ (length (edges g)));
      [symmetry; by eapply Forall2_length|done|].
    intros i a b _ Ha Hb.
    pose proof (Forall2_lookup_lr _ _ _ _ _ _ Se Ha Hb) as (? & ? & ? & ?).
    pose proof (attr_le_antisym _ _
      (Forall2_lookup_lr _ _ _ _ _ _ Ge Ha Hb)
      (Forall2_lookup_lr _ _ _ _ _ _ Ge' Hb Ha)).
    destruct a, b; simpl in *; congruence. }
  destruct g, g'; simpl in *; congruence.
Qed.

Lemma execute_saturated g (n : nat) g' :
  execute g = (Ok n, g') → saturated g'.
Proof.
  intros He. pose proof (execute_execute_loop g) as Hl. rewrite He in Hl.
  apply execute_loop_runs, runs_fixpoint in Hl. split.
  - intros q Hq Hnone.
    destruct (vertex_turn_in_round _ _ _ q Hl Hq Hnone)
      as (g1 & g2 & _ & _ & Hc & _ & Heq).
    destruct (Heq eq_refl) as [-> ->]. done.
  - intros k Hk Hnone.
    destruct (edge_turn_in_round _ _ _ k Hl Hk Hnone)
      as (g1 & g2 & _ & _ & Hc & _ & Heq).
    destruct (Heq eq_refl) as [-> ->]. done.
Qed.

(** X16 (the order of evaluation does not matter): take a graph without
    attrs on which [execute] returns.  Whatever unset vertices and edges
    are evaluated, in whatever order and however often, every attr that
    gets set this way is set to the same value in the result of [execute];
    and when nothing more can be set this way, the graph is the result of
    [execute].  So the order of the passes and of the vertices and edges
    within them decides the number of rounds, not the attrs. *)
Theorem result_independent_of_order g0 (n : nat) g' :
  all_unset g0 →
  execute g0 = (Ok n, g') →
  ∀ g2, rtc step g0 g2 →
    (∀ q y, vertex_attr g2 q = Some y → vertex_attr g' q = Some y)
    ∧ (∀ k y, edge_attr g2 k = Some y → edge_attr g' k = Some y)
    ∧ (saturated g2 → g2 = g').
Proof.
  intros Hu He g2 H2.
  pose proof (execute_saturated _ _ _ He) as Hsat.
  pose proof (execute_execute_loop g0) as Hl. rewrite He in Hl.
  pose proof (execute_loop_steps _ _ _ _ Hl) as Hs.
  pose proof (steps_below_saturated _ _ _ Hu Hs Hsat H2) as Hg.
  split; [intros q y; by apply grows_vertex_attr|].
  split; [intros k y; by apply grows_edge_attr|].
  intros Hsat2. apply grows_antisym; [|done|].
  - eapply same_structure_trans; [|by apply steps_same].
    by apply same_structure_sym, steps_same.
  - by apply (steps_below_saturated g0).
Qed.

End Order.

(** ** The further properties on the scenarios *)

(** Vertex 1 of scenario A. *)
Lemma get_vertex_of_loaded_graph_witness :
  ∃ p v, get_vertex 1 (load scenario_A) = Ok p
         ∧ vertices (load scenario_A) !! p = Some v ∧ v_id v = 1.
Proof.
  destruct (get_vertex_of_loaded_graph (float:=float) scenario_A
              (load scenario_A) (load scenario_A) 1) as [Hin _].
  - vm_compute. reflexivity.
  - apply rtc_refl.
  - apply Hin.
    replace (length (vertices (load scenario_A))) with 2%nat
      by (vm_compute; reflexivity). lia.
Defined.

(** The vertex with the rule [min] after the first round, when its two
    incoming edges have 3 and 7. *)
Lemma min_rule_witness :
  ∃ g', _compute_vertex_attr 0 (round (load min_of_two)).2 = (Ok tt, g')
        ∧ vertex_attr g' 0 = Some 3%float.
Proof.
  destruct (min_rule (float:=float) (round (load min_of_two)).2 0%nat
              {| v_id := 0; v_attr := None; v_rule := Some "min";
                 in_edges := [0%nat; 1%nat]; out_edges := [] |} "min")
    as (g' & Hc & Hy & _); try (vm_compute; reflexivity).
  { vm_compute. discriminate. }
  exists g'. split; [exact Hc|]. apply Hy.
  exists [3%float; 7%float]. vm_compute. done.
Defined.

(** The second vertex of scenario A, with the rule [v 1], once the first
    vertex has 5. *)
Lemma copy_rule_in_range_witness :
  ∃ g', _compute_vertex_attr 1 (vertex_pass [0%nat] false (load scenario_A)).2
        = (Ok tt, g')
        ∧ vertex_attr g' 1 = Some 5%float
        ∧ vertex_attr g' 0 = Some 5%float
        ∧ edge_attr g' 0 = None.
Proof.
  destruct (copy_rule_in_range (float:=float) scenario_A (load scenario_A)
              (vertex_pass [0%nat] false (load scenario_A)).2 "v 1" "1" [] 1)
    as [Hv _].
  - vm_compute. reflexivity.
  - apply vertex_pass_steps.
  - vm_compute. reflexivity.
  - vm_compute. reflexivity.
  - destruct Hv as [Hv _]; [vm_compute; reflexivity| |].
    { replace (length (vertices (vertex_pass [0%nat] false (load scenario_A)).2))
        with 2%nat by (vm_compute; reflexivity). lia. }
    destruct (Hv 1%nat) as (g' & Hc & Hm); [vm_compute; reflexivity|].
    replace (vertex_attr (vertex_pass [0%nat] false (load scenario_A)).2
               (Z.to_nat (1 - 1)))
      with (Some 5%float) in Hm by (vm_compute; reflexivity).
    destruct Hm as (_ & Ha & Hq & Hk).
    exists g'. split; [exact Hc|]. split; [exact Ha|].
    rewrite (Hq 0%nat) by lia. rewrite Hk. vm_compute. done.
Defined.

(** The vertex of [copy_outside] raises with its attr unset and with its
    attr set. *)
Lemma evaluation_error_is_static_witness :
  (∃ err, _compute_vertex_attr 0 (load copy_outside)
          = (Raise err, load copy_outside))
  ↔ (∃ err, _compute_vertex_attr 0 (set_vertex_attr 0 1%float (load copy_outside))
            = (Raise err, set_vertex_attr 0 1%float (load copy_outside))).
Proof.
  destruct (evaluation_error_is_static (float:=float) (load copy_outside)
              (set_vertex_attr 0 1%float (load copy_outside))) as [Hv _].
  - apply set_vertex_attr_same.
  - apply Hv.
Defined.

(** The first vertex of scenario A. *)
Lemma constant_rule_set_in_one_round_witness :
  vertex_attr (round (load scenario_A)).2 0 = Some 5%float.
Proof.
  destruct (constant_rule_set_in_one_round (float:=float) (load scenario_A) true
              (round (load scenario_A)).2) as [Hv _].
  - vm_compute. reflexivity.
  - apply Hv.
    + vm_compute. lia.
    + vm_compute. reflexivity.
    + vm_compute. reflexivity.
Defined.

(** The first vertex of scenario D at the end of the run. *)
Lemma execute_result_saturated_witness :
  _compute_vertex_attr 0 (load scenario_D) = (Ok tt, load scenario_D).
Proof.
  destruct (execute_result_saturated (float:=float) (load scenario_D) 1
              (load scenario_D)) as [Hv _].
  - vm_compute. reflexivity.
  - apply Hv.
    + vm_compute. lia.
    + vm_compute. reflexivity.
Defined.

(** The second vertex of scenario A has 5 at the end, as the vertex it
    copies. *)
Lemma attrs_come_from_rules_witness :
  vertex_justified (execute (load scenario_A)).2 1 5%float.
Proof.
  destruct (attrs_come_from_rules (float:=float) (load scenario_A)
              (execute (load scenario_A)).2) as [Hv _].
  - apply (read_input_file_unset scenario_A). vm_compute. reflexivity.
  - right. exists 3%nat, (Ok 2%nat). vm_compute. reflexivity.
  - apply Hv. vm_compute. reflexivity.
Defined.

(** Scenario A. *)
Lemma main_output_witness :
  ∃ nv ne g0 n g',
    read_pair (nth 0 scenario_A "") = Ok (nv, ne)
    ∧ read_input_file scenario_A = Ok g0
    ∧ execute g0 = (Ok n, g')
    ∧ length [Some 5%float; Some 5%float; Some 10%float]
      = (Z.to_nat nv + Z.to_nat ne)%nat
    ∧ (∀ p, (p < Z.to_nat nv)%nat →
            [Some 5%float; Some 5%float; Some 10%float] !! p
            = Some (vertex_attr g' p))
    ∧ (∀ k, (k < Z.to_nat ne)%nat →
            [Some 5%float; Some 5%float; Some 10%float] !! (Z.to_nat nv + k)%nat
            = Some (edge_attr g' k)).
Proof.
  apply (main_output (float:=float) scenario_A). vm_compute. reflexivity.
Defined.

(** The vertex of [min_alone]: the run fails. *)
Lemma execute_raises_iff_witness :
  ∃ err g', execute (load min_alone) = (Raise err, g').
Proof.
  apply (execute_raises_iff (float:=float) (load min_alone)).
  left. exists 0%nat, ValueError. vm_compute. repeat split; lia.
Defined.

(** The vertex of [min_alone]: the error of the first round is the error of
    the run. *)
Lemma errors_surface_in_first_round_witness :
  execute (load min_alone) = (Raise ValueError, load min_alone).
Proof.
  destruct (errors_surface_in_first_round (float:=float) (load min_alone))
    as [Hr _].
  apply Hr. vm_compute. reflexivity.
Defined.

(** Scenario A with the edge evaluated first: its attr is the one in the
    result of [execute]. *)
Lemma result_independent_of_order_witness :
  edge_attr (execute (load scenario_A)).2 0 = Some 10%float.
Proof.
  destruct (result_independent_of_order (float:=float) (load scenario_A) 2
              (execute (load scenario_A)).2) with
    (g2 := (edge_pass [0%nat] false (load scenario_A)).2) as (_ & He & _).
  - apply (read_input_file_unset scenario_A). vm_compute. reflexivity.
  - vm_compute. reflexivity.
  - apply edge_pass_steps.
  - apply He. vm_compute. reflexivity.
Defined.
